(** * World video studio: playback / capture engine

    A shallow embedding of [src/app/components/WorldVideoStudio.tsx].

    Conventions of the embedding.
    - JavaScript numbers are exact rationals ([Q]); decimal literals denote the
      rationals they spell and [Math.PI] is the rational value of the IEEE
      double.  Rounding is outside the model.
    - [Math.sin], [Math.cos], [Math.pow] and [ctx.measureText] are host
      functions: variables of the section below.
    - [Math.random] is an ambient stream of numbers, read through a counter.
    - A 2D context is the ordered log of the calls made on it, together with
      the font state that [measureText] reads.
    - A string holds the UTF-8 encoding of the JavaScript string, one byte
      per character of [string].  A space is one byte and occurs in no longer
      sequence, so [split(" ")] is the split of the bytes; [trim] strips the
      encodings of the white space that [String.prototype.trim] strips.
    - Refs, React state and the browser objects the component holds
      (recorders, streams, object URLs, requested animation frames) are fields
      of one record, [Engine]; every handler is a function on it.  A state
      setter takes effect at once; the clean-up of the effect keyed on
      [videoUrl] runs in the re-render that follows the handler, which is a
      step of its own. *)

From Stdlib Require Import QArith Qminmax Qabs Qround Lqa ZArith List String Ascii Bool Lia Arith.
Import ListNotations.

Local Open Scope Q_scope.
Local Open Scope string_scope.

(* ------------------------------------------------------------------------- *)
(** ** Numbers *)

Definition Qltb (a b : Q) : bool := negb (Qle_bool b a).

Definition Math_PI : Q := 884279719003555 # 281474976710656.

Definition Math_min (a b : Q) : Q := Qmin a b.
Definition Math_max (a b : Q) : Q := Qmax a b.

Definition num (n : nat) : Q := inject_Z (Z.of_nat n).

(* ------------------------------------------------------------------------- *)
(** ** Strings: [split(" ")] and [trim] *)

Definition space : ascii := " "%char.

(** [text.split(" ")]: the pieces between single spaces; never empty. *)
Fixpoint split_on (sep : ascii) (text : string) : list string :=
  match text with
  | EmptyString => [EmptyString]
  | String c rest =>
      if Ascii.eqb c sep then EmptyString :: split_on sep rest
      else match split_on sep rest with
           | [] => [String c EmptyString]
           | w :: ws => String c w :: ws
           end
  end.

(** The white space and line terminators of ECMAScript, which
    [String.prototype.trim] strips: U+0009 to U+000D and U+0020 in one byte,
    U+00A0 in two, and U+1680, U+2000 to U+200A, U+2028, U+2029, U+202F,
    U+205F, U+3000 and U+FEFF in three. *)
Definition is_blank (c : ascii) : bool :=
  let n := nat_of_ascii c in
  (Nat.eqb n 32 || (Nat.leb 9 n && Nat.leb n 13))%bool.

Definition is_blank2 (a b : ascii) : bool :=
  (Nat.eqb (nat_of_ascii a) 194 && Nat.eqb (nat_of_ascii b) 160)%bool.

Definition is_blank3 (a b c : ascii) : bool :=
  let x := nat_of_ascii a in
  let y := nat_of_ascii b in
  let z := nat_of_ascii c in
  ((Nat.eqb x 225 && Nat.eqb y 154 && Nat.eqb z 128)
   || (Nat.eqb x 226 && Nat.eqb y 128
       && ((Nat.leb 128 z && Nat.leb z 138)
           || Nat.eqb z 168 || Nat.eqb z 169 || Nat.eqb z 175))
   || (Nat.eqb x 226 && Nat.eqb y 129 && Nat.eqb z 159)
   || (Nat.eqb x 227 && Nat.eqb y 128 && Nat.eqb z 128)
   || (Nat.eqb x 239 && Nat.eqb y 187 && Nat.eqb z 191))%bool.

Fixpoint trimStart (s : string) : string :=
  match s with
  | EmptyString => EmptyString
  | String a rest =>
      if is_blank a then trimStart rest
      else
        match rest with
        | EmptyString => s
        | String b rest2 =>
            if is_blank2 a b then trimStart rest2
            else
              match rest2 with
              | EmptyString => s
              | String c rest3 =>
                  if is_blank3 a b c then trimStart rest3 else s
              end
        end
  end.

Fixpoint string_rev_onto (s acc : string) : string :=
  match s with
  | EmptyString => acc
  | String c rest => string_rev_onto rest (String c acc)
  end.

Definition string_rev (s : string) : string := string_rev_onto s EmptyString.

(** [trimStart] on the reversed bytes: the sequences are met last byte
    first. *)
Fixpoint trimStart_reversed (s : string) : string :=
  match s with
  | EmptyString => EmptyString
  | String c rest =>
      if is_blank c then trimStart_reversed rest
      else
        match rest with
        | EmptyString => s
        | String b rest2 =>
            if is_blank2 b c then trimStart_reversed rest2
            else
              match rest2 with
              | EmptyString => s
              | String a rest3 =>
                  if is_blank3 a b c then trimStart_reversed rest3 else s
              end
        end
  end.

Definition trim (s : string) : string :=
  string_rev (trimStart_reversed (string_rev (trimStart s))).

Definition is_empty (s : string) : bool :=
  match s with EmptyString => true | String _ _ => false end.

(* ------------------------------------------------------------------------- *)
(** ** Scene catalog *)

Inductive Illustration : Type :=
| sunrise | cities | forest | desert | oceans | stars
| unlisted (tag : string).

Record Palette : Type := {
  pal_start : string;
  pal_end : string;
  glow : string;
  accent : string
}.

(** Modelled from the spec: the declaration of [SceneCue] lives in
    [../data/scenes], which is not part of the sources at hand.  The fields
    are those the component reads and the data model lists: identity key,
    duration in seconds, three display strings, a four-colour palette, the
    illustration discriminant and the facts. *)
Record SceneCue : Type := {
  id : string;
  duration : Q;
  title : string;
  subtitle : string;
  description : string;
  palette : Palette;
  illustration : Illustration;
  facts : list string
}.

(* ------------------------------------------------------------------------- *)
(** ** The drawing surface *)

Definition CANVAS_WIDTH : Z := 1280.
Definition CANVAS_HEIGHT : Z := 720.

Definition CURVE_POINTS : list (Q * Q) :=
  [(0.1, 0.35); (0.25, 0.22); (0.5, 0.18); (0.75, 0.24); (0.9, 0.33)].

(** What can be assigned to [fillStyle] / [strokeStyle]. *)
Inductive Style : Type :=
| Css (value : string)
| Templated (before : string) (value : Q) (after : string)
| LinearGradient (x0 y0 x1 y1 : Q) (stops : list (Q * string))
| RadialGradient (x0 y0 r0 x1 y1 r1 : Q) (stops : list (Q * string)).

Definition addColorStop (offset : Q) (colour : string) (g : Style) : Style :=
  match g with
  | LinearGradient x0 y0 x1 y1 stops =>
      LinearGradient x0 y0 x1 y1 (stops ++ [(offset, colour)])
  | RadialGradient x0 y0 r0 x1 y1 r1 stops =>
      RadialGradient x0 y0 r0 x1 y1 r1 (stops ++ [(offset, colour)])
  | other => other
  end.

Inductive Cmd : Type :=
| SaveState
| RestoreState
| ClearRect (x y w h : Q)
| FillStyle (s : Style)
| StrokeStyle (s : Style)
| LineWidth (w : Q)
| LineDash (segments : list Q)
| GlobalAlpha (a : Q)
| Font (f : string)
| FillRect (x y w h : Q)
| FillText (text : string) (x y : Q)
| BeginPath
| ClosePath
| MoveTo (x y : Q)
| LineTo (x y : Q)
| Arc (x y r a0 a1 : Q)
| BezierCurveTo (c1x c1y c2x c2y x y : Q)
| Fill
| Stroke
| Clip.

(** A 2D context, seen from the code that draws on it: the calls received so
    far, the current font with the fonts pushed by [save], and how many
    numbers [Math.random] has handed out. *)
Record Painter : Type := {
  log : list Cmd;
  font : string;
  savedFonts : list string;
  randomDraws : nat
}.

Definition fresh_surface : Painter :=
  {| log := []; font := "10px sans-serif"; savedFonts := []; randomDraws := 0 |}.

Definition Draw (A : Type) : Type := Painter -> A * Painter.

Definition ret {A} (a : A) : Draw A := fun p => (a, p).

Definition bind {A B} (m : Draw A) (k : A -> Draw B) : Draw B :=
  fun p => let (a, p') := m p in k a p'.

Declare Scope draw_scope.
Delimit Scope draw_scope with draw.
Notation "x <- m ;; k" := (bind m (fun x => k))
  (at level 61, m at next level, right associativity) : draw_scope.
Notation "m ;; k" := (bind m (fun _ => k))
  (at level 61, right associativity) : draw_scope.
Local Open Scope draw_scope.

Definition emit (c : Cmd) : Draw unit :=
  fun p => (tt, {| log := log p ++ [c]; font := font p;
                   savedFonts := savedFonts p; randomDraws := randomDraws p |}).

Definition save : Draw unit :=
  fun p => (tt, {| log := log p ++ [SaveState]; font := font p;
                   savedFonts := font p :: savedFonts p;
                   randomDraws := randomDraws p |}).

Definition restore : Draw unit :=
  fun p => (tt, {| log := log p ++ [RestoreState];
                   font := match savedFonts p with f :: _ => f | [] => font p end;
                   savedFonts := tl (savedFonts p);
                   randomDraws := randomDraws p |}).

Definition set_font (f : string) : Draw unit :=
  fun p => (tt, {| log := log p ++ [Font f]; font := f;
                   savedFonts := savedFonts p; randomDraws := randomDraws p |}).

Definition current_font : Draw string := fun p => (font p, p).

(** [Math.random()] against the ambient stream [source]. *)
Definition Math_random (source : nat -> Q) : Draw Q :=
  fun p => (source (randomDraws p),
            {| log := log p; font := font p; savedFonts := savedFonts p;
               randomDraws := S (randomDraws p) |}).

(** [for (let i = 0; i < n; i += 1) body] *)
Fixpoint for_count (n : nat) (i : nat) (body : nat -> Draw unit) : Draw unit :=
  match n with
  | O => ret tt
  | S n' => body i ;; for_count n' (S i) body
  end.

Definition for_upto (n : nat) (body : nat -> Draw unit) : Draw unit :=
  for_count n 0%nat body.

(** [for (let x = x0; x <= limit; x += step) body].  The counter is kept in
    lowest terms, which does not change its value.  The budget only bounds the
    recursion; the loops of this file run at most 181 times. *)
Fixpoint for_while (budget : nat) (x limit step : Q) (body : Q -> Draw unit)
  : Draw unit :=
  match budget with
  | O => ret tt
  | S budget' =>
      if Qle_bool x limit
      then body x ;; for_while budget' (Qred (x + step)) limit step body
      else ret tt
  end.

Definition loop_budget : nat := 4096.

(** [list.forEach((item, index) => body)] *)
Fixpoint forEach_from {A} (l : list A) (index : nat) (body : A -> nat -> Draw unit)
  : Draw unit :=
  match l with
  | [] => ret tt
  | a :: rest => body a index ;; forEach_from rest (S index) body
  end.

Definition forEach {A} (l : list A) (body : A -> nat -> Draw unit) : Draw unit :=
  forEach_from l 0%nat body.

(* ------------------------------------------------------------------------- *)
(** ** Compositor and illustration library *)

Section Studio.

(** Host functions. [measureText font text] is [ctx.measureText(text).width]
    under the context's current [font]. *)
Variable Math_sin : Q -> Q.
Variable Math_cos : Q -> Q.
Variable Math_pow : Q -> Q -> Q.
Variable measureText : string -> string -> Q.

(** [const { width, height } = ctx.canvas] *)
Definition width : Q := inject_Z CANVAS_WIDTH.
Definition height : Q := inject_Z CANVAS_HEIGHT.

Definition drawEarth (scene : SceneCue) (sceneProgress globalProgress : Q)
  : Draw unit :=
  let radius := height * 0.28 in
  let centerX :=
    width * 0.42 + Math_sin (globalProgress * Math_PI * 2) * width * 0.06 in
  let centerY :=
    height * 0.52 + Math_cos (sceneProgress * Math_PI) * height * 0.02 in
  let earthGradient :=
    addColorStop 1 (pal_start (palette scene))
      (addColorStop 0.35 (accent (palette scene))
         (addColorStop 0 "rgba(255, 255, 255, 0.65)"
            (RadialGradient (centerX - radius * 0.35) (centerY - radius * 0.4)
               (radius * 0.2) centerX centerY (radius * 1.1) []))) in
  emit (FillStyle earthGradient) ;;
  emit BeginPath ;;
  emit (Arc centerX centerY radius 0 (Math_PI * 2)) ;;
  emit ClosePath ;;
  emit Fill ;;
  save ;;
  emit Clip ;;
  emit (StrokeStyle (Css "rgba(255, 255, 255, 0.22)")) ;;
  emit (LineWidth 1.4) ;;
  for_while loop_budget (-60) 60 20 (fun lat =>
    let latRadius := radius * Math_cos ((lat * Math_PI) / 180) in
    let latY := centerY + radius * Math_sin ((lat * Math_PI) / 180) in
    emit BeginPath ;;
    for_while loop_budget 0 (Math_PI * 2) (Math_PI / 90) (fun angle =>
      let px := centerX + latRadius * Math_cos angle in
      let py :=
        latY + (radius * Math_sin angle * Math_sin ((lat * Math_PI) / 180))
               / radius in
      if Qeq_bool angle 0 then emit (MoveTo px py) else emit (LineTo px py)) ;;
    emit Stroke) ;;
  for_while loop_budget (-120) 120 30 (fun lon =>
    emit BeginPath ;;
    for_while loop_budget 0 (Math_PI * 2) (Math_PI / 90) (fun theta =>
      let x :=
        centerX + radius * Math_sin theta * Math_cos ((lon * Math_PI) / 180) in
      let y := centerY + radius * Math_cos theta in
      if Qeq_bool theta 0 then emit (MoveTo x y) else emit (LineTo x y)) ;;
    emit Stroke) ;;
  restore ;;
  emit (StrokeStyle (Css "rgba(255, 255, 255, 0.25)")) ;;
  emit (LineWidth 2.5) ;;
  emit BeginPath ;;
  emit (Arc centerX centerY radius 0 (Math_PI * 2)) ;;
  emit Stroke.

Definition drawAtmosphericRings (sceneProgress : Q) (accent : string)
  : Draw unit :=
  let baseRadius := height * 0.32 in
  let centerX := width * 0.42 in
  let centerY := height * 0.52 in
  save ;;
  emit (StrokeStyle (Css (accent ++ "aa"))) ;;
  emit (LineWidth 1.2) ;;
  emit (LineDash [6; 14]) ;;
  for_upto 4 (fun i =>
    let expansion :=
      baseRadius + num i * 42
      + Math_sin (sceneProgress * Math_PI * 2 + num i) * 8 in
    emit BeginPath ;;
    emit (Arc centerX centerY expansion 0 (Math_PI * 2)) ;;
    emit Stroke) ;;
  restore.

Definition drawSunrise (progress : Q) (accent : string) : Draw unit :=
  let sunY := height * (0.65 - Math_pow progress 0.7 * 0.25) in
  let sunRadius := 220 in
  let gradient :=
    addColorStop 1 "rgba(255, 93, 0, 0)"
      (addColorStop 0 accent
         (RadialGradient (width * 0.48) sunY (sunRadius * 0.4)
            (width * 0.5) sunY sunRadius [])) in
  emit (FillStyle gradient) ;;
  emit BeginPath ;;
  emit (Arc (width * 0.5) sunY sunRadius 0 (Math_PI * 2)) ;;
  emit Fill ;;
  emit (StrokeStyle (Css "rgba(255, 255, 255, 0.18)")) ;;
  emit (LineWidth 3) ;;
  emit BeginPath ;;
  emit (MoveTo (width * 0.18) (height * 0.68)) ;;
  forEach CURVE_POINTS (fun point index =>
    let (px, py) := point in
    let pointProgress := progress * (num index + 1) in
    let controlX := width * (px + 0.08 * Math_sin (pointProgress * Math_PI)) in
    let controlY :=
      height * (py + 0.04 * Math_cos (pointProgress * 2 * Math_PI)) in
    emit (LineTo controlX (height * py))) ;;
  emit (LineTo (width * 0.82) (height * 0.72)) ;;
  emit Stroke.

(** The one routine that reads [Math.random]. *)
Definition drawCityLights (random : nat -> Q) (progress : Q) (accent : string)
  : Draw unit :=
  let layers := 4%nat in
  for_upto layers (fun layer =>
    let opacity := 0.15 + num layer * 0.1 in
    emit (FillStyle (Templated "rgba(255, 255, 255, " opacity ")")) ;;
    let buildingHeight := 80 + num layer * 30 in
    for_upto 22 (fun i =>
      let x := width * 0.28 + num i * 24 + Math_sin (progress * 2 + num i) * 8 in
      let h := buildingHeight + Math_sin (progress * 3 + num i * 0.4) * 18 in
      emit (FillRect x (height - h - num layer * 10) 18 h) ;;
      r <- Math_random random ;;
      if Qltb 0.7 r
      then
        emit (FillStyle (Css (accent ++ "aa"))) ;;
        emit (FillRect (x + 4) (height - h - num layer * 10 + 18) 6 12) ;;
        emit (FillStyle (Templated "rgba(255, 255, 255, " opacity ")"))
      else ret tt)).

Definition drawForestCanopy (progress : Q) (accent : string) : Draw unit :=
  save ;;
  emit (FillStyle (Css (accent ++ "55"))) ;;
  for_upto 90 (fun i =>
    let baseX := (num i / 90) * width in
    let baseY := height * 0.72 + Math_sin (progress * 2 + num i * 0.3) * 12 in
    let canopyHeight := 140 + Math_sin (progress * 3 + num i) * 26 in
    emit BeginPath ;;
    emit (MoveTo baseX baseY) ;;
    emit (BezierCurveTo (baseX + 12) (baseY - canopyHeight * 0.5)
            (baseX + 26) (baseY - canopyHeight) (baseX + 42) baseY) ;;
    emit ClosePath ;;
    emit Fill) ;;
  restore.

Definition drawDesert (progress : Q) (accent : string) : Draw unit :=
  save ;;
  let dunes := 5%nat in
  for_upto dunes (fun i =>
    let offset := num i * 0.25 in
    let amplitude := 40 + num i * 12 in
    emit (FillStyle (Templated "rgba(255, 208, 138, " (0.12 + num i * 0.07) ")")) ;;
    emit BeginPath ;;
    emit (MoveTo 0 (height * 0.75 + num i * 18)) ;;
    for_while loop_budget 0 width 12 (fun x =>
      let y :=
        height * 0.75
        + Math_sin ((x / width) * Math_PI * 2 + progress * 2 + offset)
          * amplitude in
      emit (LineTo x y)) ;;
    emit (LineTo width height) ;;
    emit (LineTo 0 height) ;;
    emit ClosePath ;;
    emit Fill) ;;
  restore.

Definition drawSea (progress : Q) (accent : string) : Draw unit :=
  save ;;
  emit (StrokeStyle (Css (accent ++ "bb"))) ;;
  emit (LineWidth 2) ;;
  for_upto 6 (fun wave =>
    let offset := num wave * 18 in
    emit BeginPath ;;
    for_while loop_budget 0 width 10 (fun x =>
      let y :=
        height * 0.62
        + Math_sin ((x / width) * Math_PI * 4 + progress * 4 + num wave)
          * (12 + num wave * 3) in
      if Qeq_bool x 0 then emit (MoveTo x (y + offset))
      else emit (LineTo x (y + offset))) ;;
    emit Stroke) ;;
  restore.

Definition drawStarscape (progress : Q) (accent : string) : Draw unit :=
  save ;;
  emit (FillStyle (Css "rgba(255, 255, 255, 0.9)")) ;;
  for_upto 120 (fun i =>
    let x := inject_Z (Z.rem (Z.of_nat i * 97) CANVAS_WIDTH) in
    let y :=
      inject_Z (Z.rem (Z.of_nat i * 47) CANVAS_HEIGHT)
      * (0.8 + 0.2 * Math_sin (progress * 6 + num i)) in
    let size := (Math_sin (progress * 8 + num i) + 1) * 0.8 + 0.6 in
    emit (FillRect x y size size)) ;;
  emit (FillStyle (Css (accent ++ "88"))) ;;
  emit BeginPath ;;
  emit (Arc (width * 0.78) (height * 0.26) (60 + Math_sin (progress * 4) * 12)
          0 (Math_PI * 2)) ;;
  emit Fill ;;
  restore.

Definition drawIllustration (random : nat -> Q) (scene : SceneCue)
  (sceneProgress : Q) : Draw unit :=
  match illustration scene with
  | sunrise => drawSunrise sceneProgress (accent (palette scene))
  | cities => drawCityLights random sceneProgress (accent (palette scene))
  | forest => drawForestCanopy sceneProgress (accent (palette scene))
  | desert => drawDesert sceneProgress (accent (palette scene))
  | oceans => drawSea sceneProgress (accent (palette scene))
  | stars => drawStarscape sceneProgress (accent (palette scene))
  | unlisted _ => ret tt
  end.

(** One turn of [words.forEach] in [wrapText]; [line] and [y] are the two
    variables the callback updates. *)
Definition wrap_word (x maxWidth lineHeight : Q) (word : string)
  (vars : string * Q) : Draw (string * Q) :=
  let (line, y) := vars in
  let testLine := line ++ word ++ " " in
  f <- current_font ;;
  let metrics_width := measureText f testLine in
  if (Qltb maxWidth metrics_width && negb (is_empty line))%bool
  then emit (FillText line x y) ;; ret (word ++ " ", y + lineHeight)
  else ret (testLine, y).

Fixpoint wrap_words (x maxWidth lineHeight : Q) (words : list string)
  (vars : string * Q) : Draw (string * Q) :=
  match words with
  | [] => ret vars
  | word :: rest =>
      vars' <- wrap_word x maxWidth lineHeight word vars ;;
      wrap_words x maxWidth lineHeight rest vars'
  end.

Definition wrapText (text : string) (x startY maxWidth lineHeight : Q)
  : Draw unit :=
  let words := split_on space text in
  vars <- wrap_words x maxWidth lineHeight words ("", startY) ;;
  emit (FillText (trim (fst vars)) x (snd vars)).

Definition title_opacity (sceneProgress : Q) : Q :=
  Math_min 1 (Math_max 0 (Math_sin (sceneProgress * Math_PI))).

Definition drawTitleCard (scene : SceneCue) (sceneProgress : Q) : Draw unit :=
  let baseX := width * 0.64 in
  let baseY := 160 in
  let opacity := title_opacity sceneProgress in
  save ;;
  emit (GlobalAlpha opacity) ;;
  emit (FillStyle (Css "rgba(3, 9, 20, 0.4)")) ;;
  emit (FillRect (baseX - 60) (baseY - 50) (width * 0.26) 240) ;;
  emit (FillStyle (Css "rgba(255, 255, 255, 0.85)")) ;;
  set_font "700 36px var(--font-arabic)" ;;
  emit (FillText (title scene) baseX baseY) ;;
  set_font "400 24px var(--font-arabic)" ;;
  emit (FillStyle (Css "rgba(255, 255, 255, 0.75)")) ;;
  emit (FillText (subtitle scene) baseX (baseY + 42)) ;;
  wrapText (description scene) baseX (baseY + 90) (width * 0.24) 30 ;;
  restore.

(** [drawScene]. The scene argument is what indexing the catalog gave:
    [None] is [undefined], on which reading [scene.palette] throws after the
    surface was saved and cleared.  The result tells whether the call
    returned ([true]) or threw ([false]); it is known from the argument alone,
    before any drawing is carried out. *)
Definition drawScene (random : nat -> Q) (scene : option SceneCue)
  (sceneProgress globalProgress : Q) : Draw bool :=
  match scene with
  | None =>
      fun p => (false, snd ((save ;; emit (ClearRect 0 0 width height)) p))
  | Some scene =>
      let backgroundGradient :=
        addColorStop 1 (pal_end (palette scene))
          (addColorStop 0 (pal_start (palette scene))
             (LinearGradient 0 0 0 height [])) in
      let glowRadius :=
        height * (0.45 + Math_sin (globalProgress * Math_PI * 2) * 0.03) in
      let glowGradient :=
        addColorStop 1 "rgba(0,0,0,0)"
          (addColorStop 0 (glow (palette scene))
             (RadialGradient (width * 0.5) (height * 0.52) (glowRadius * 0.2)
                (width * 0.5) (height * 0.53) glowRadius [])) in
      fun p =>
        (true,
         snd ((save ;;
               emit (ClearRect 0 0 width height) ;;
               emit (FillStyle backgroundGradient) ;;
               emit (FillRect 0 0 width height) ;;
               emit (FillStyle glowGradient) ;;
               emit (FillRect 0 0 width height) ;;
               drawEarth scene sceneProgress globalProgress ;;
               drawAtmosphericRings sceneProgress (accent (palette scene)) ;;
               drawIllustration random scene sceneProgress ;;
               drawTitleCard scene sceneProgress ;;
               restore) p))
  end.

(* ------------------------------------------------------------------------- *)
(** ** Timeline *)

(** [scenes.reduce((acc, scene) => acc + scene.duration * 1000, 0)] *)
Definition totalDurationMs (scenes : list SceneCue) : Q :=
  fold_left (fun acc scene => acc + duration scene * 1000) scenes 0.

(** The scan of [renderFrame]: [cumulative] and [currentIndex] when the loop
    is left, by [break] or by running out of scenes (then [currentIndex]
    still has its initial 0). *)
Fixpoint scan (elapsed : Q) (rest : list SceneCue) (i : nat) (cumulative : Q)
  : Q * nat :=
  match rest with
  | [] => (cumulative, 0%nat)
  | scene :: rest' =>
      let sceneDuration := duration scene * 1000 in
      if Qltb elapsed (cumulative + sceneDuration)
      then (cumulative, i)
      else scan elapsed rest' (S i) (cumulative + sceneDuration)
  end.

Definition locate (scenes : list SceneCue) (elapsed : Q) : Q * nat :=
  scan elapsed scenes 0%nat 0.

(** Where scene [i] starts and the half-open window it occupies. *)
Definition window_start (scenes : list SceneCue) (i : nat) : Q :=
  totalDurationMs (firstn i scenes).


(** [scenes[scenes.length - 1]] *)
Definition last_scene (scenes : list SceneCue) : option SceneCue :=
  nth_error scenes (List.length scenes - 1).

(* ------------------------------------------------------------------------- *)
(** ** Engine state *)

Inductive PlaybackState : Type := idle | playing | rendering | completed | error.

Inductive RecordingState : Type := inactive | recording | paused.

Record Blob : Type := { size : nat }.

(** [recorder.onstop] as [stopRecorder(finalize)] installs it, with what the
    caller chained on the promise that the handler resolves. *)
Record StopHandler : Type := {
  finalize : bool;
  settle : option PlaybackState
}.

Record MediaRecorder : Type := {
  input : nat;                      (* the stream it was constructed on *)
  rec_state : RecordingState;       (* recorder.state *)
  onstop : option StopHandler;
  stop_queued : bool                (* a stop event is on its way *)
}.

Record PaintCall : Type := {
  shown : option SceneCue;
  sceneProgress : Q;
  globalProgress : Q
}.

(** The world around the component: the catalog, what the page and the
    browser offer, and the stream [Math.random] reads. *)
Record Env : Type := {
  scenes : list SceneCue;
  canvasMounted : bool;             (* canvasRef.current *)
  context2d : bool;                 (* getContext("2d") *)
  windowDefined : bool;             (* typeof window !== "undefined" *)
  hasMediaRecorder : bool;          (* "MediaRecorder" in window *)
  captureYields : bool;             (* captureStream(30) gives a stream *)
  recorderConstructs : bool;        (* new MediaRecorder(...) does not throw *)
  entropy : nat -> Q
}.

Record Engine : Type := {
  (* refs *)
  animationRef : option nat;
  startTimeRef : option Q;
  recorderRef : option nat;
  recordedChunksRef : list Blob;
  streamRef : option nat;
  (* React state *)
  playbackState : PlaybackState;
  activeScene : nat;
  videoUrl : option nat;
  (* browser objects *)
  frameRequests : list (nat * nat);   (* handle, [activeScene] of the closure *)
  frameCounter : nat;
  recorders : list MediaRecorder;
  streams : list bool;                (* per stream: is its track live *)
  objectUrls : list (nat * list Blob);(* URLs not revoked, with their blob *)
  urlCounter : nat;
  surface : Painter;
  (* history *)
  painted : list PaintCall;           (* calls of drawScene *)
  notified : list nat                 (* calls of setActiveScene *)
}.

Definition initial : Engine := {|
  animationRef := None; startTimeRef := None; recorderRef := None;
  recordedChunksRef := []; streamRef := None;
  playbackState := idle; activeScene := 0; videoUrl := None;
  frameRequests := []; frameCounter := 0; recorders := []; streams := [];
  objectUrls := []; urlCounter := 0; surface := fresh_surface;
  painted := []; notified := []
|}.

Definition set_animationRef (v : option nat) (s : Engine) : Engine :=
  Build_Engine v (startTimeRef s) (recorderRef s) (recordedChunksRef s)
    (streamRef s) (playbackState s) (activeScene s) (videoUrl s)
    (frameRequests s) (frameCounter s) (recorders s) (streams s)
    (objectUrls s) (urlCounter s) (surface s) (painted s) (notified s).

Definition set_startTimeRef (v : option Q) (s : Engine) : Engine :=
  Build_Engine (animationRef s) v (recorderRef s) (recordedChunksRef s)
    (streamRef s) (playbackState s) (activeScene s) (videoUrl s)
    (frameRequests s) (frameCounter s) (recorders s) (streams s)
    (objectUrls s) (urlCounter s) (surface s) (painted s) (notified s).

Definition set_recorderRef (v : option nat) (s : Engine) : Engine :=
  Build_Engine (animationRef s) (startTimeRef s) v (recordedChunksRef s)
    (streamRef s) (playbackState s) (activeScene s) (videoUrl s)
    (frameRequests s) (frameCounter s) (recorders s) (streams s)
    (objectUrls s) (urlCounter s) (surface s) (painted s) (notified s).

Definition set_recordedChunksRef (v : list Blob) (s : Engine) : Engine :=
  Build_Engine (animationRef s) (startTimeRef s) (recorderRef s) v
    (streamRef s) (playbackState s) (activeScene s) (videoUrl s)
    (frameRequests s) (frameCounter s) (recorders s) (streams s)
    (objectUrls s) (urlCounter s) (surface s) (painted s) (notified s).

Definition set_streamRef (v : option nat) (s : Engine) : Engine :=
  Build_Engine (animationRef s) (startTimeRef s) (recorderRef s)
    (recordedChunksRef s) v (playbackState s) (activeScene s) (videoUrl s)
    (frameRequests s) (frameCounter s) (recorders s) (streams s)
    (objectUrls s) (urlCounter s) (surface s) (painted s) (notified s).

Definition set_playbackState (v : PlaybackState) (s : Engine) : Engine :=
  Build_Engine (animationRef s) (startTimeRef s) (recorderRef s)
    (recordedChunksRef s) (streamRef s) v (activeScene s) (videoUrl s)
    (frameRequests s) (frameCounter s) (recorders s) (streams s)
    (objectUrls s) (urlCounter s) (surface s) (painted s) (notified s).

Definition set_activeScene (v : nat) (s : Engine) : Engine :=
  Build_Engine (animationRef s) (startTimeRef s) (recorderRef s)
    (recordedChunksRef s) (streamRef s) (playbackState s) v (videoUrl s)
    (frameRequests s) (frameCounter s) (recorders s) (streams s)
    (objectUrls s) (urlCounter s) (surface s) (painted s) (notified s).

Definition set_videoUrl (v : option nat) (s : Engine) : Engine :=
  Build_Engine (animationRef s) (startTimeRef s) (recorderRef s)
    (recordedChunksRef s) (streamRef s) (playbackState s) (activeScene s) v
    (frameRequests s) (frameCounter s) (recorders s) (streams s)
    (objectUrls s) (urlCounter s) (surface s) (painted s) (notified s).

Definition set_frameRequests (v : list (nat * nat)) (s : Engine) : Engine :=
  Build_Engine (animationRef s) (startTimeRef s) (recorderRef s)
    (recordedChunksRef s) (streamRef s) (playbackState s) (activeScene s)
    (videoUrl s) v (frameCounter s) (recorders s) (streams s) (objectUrls s)
    (urlCounter s) (surface s) (painted s) (notified s).

Definition set_frameCounter (v : nat) (s : Engine) : Engine :=
  Build_Engine (animationRef s) (startTimeRef s) (recorderRef s)
    (recordedChunksRef s) (streamRef s) (playbackState s) (activeScene s)
    (videoUrl s) (frameRequests s) v (recorders s) (streams s) (objectUrls s)
    (urlCounter s) (surface s) (painted s) (notified s).

Definition set_recorders (v : list MediaRecorder) (s : Engine) : Engine :=
  Build_Engine (animationRef s) (startTimeRef s) (recorderRef s)
    (recordedChunksRef s) (streamRef s) (playbackState s) (activeScene s)
    (videoUrl s) (frameRequests s) (frameCounter s) v (streams s)
    (objectUrls s) (urlCounter s) (surface s) (painted s) (notified s).

Definition set_streams (v : list bool) (s : Engine) : Engine :=
  Build_Engine (animationRef s) (startTimeRef s) (recorderRef s)
    (recordedChunksRef s) (streamRef s) (playbackState s) (activeScene s)
    (videoUrl s) (frameRequests s) (frameCounter s) (recorders s) v
    (objectUrls s) (urlCounter s) (surface s) (painted s) (notified s).

Definition set_objectUrls (v : list (nat * list Blob)) (s : Engine) : Engine :=
  Build_Engine (animationRef s) (startTimeRef s) (recorderRef s)
    (recordedChunksRef s) (streamRef s) (playbackState s) (activeScene s)
    (videoUrl s) (frameRequests s) (frameCounter s) (recorders s) (streams s)
    v (urlCounter s) (surface s) (painted s) (notified s).

Definition set_urlCounter (v : nat) (s : Engine) : Engine :=
  Build_Engine (animationRef s) (startTimeRef s) (recorderRef s)
    (recordedChunksRef s) (streamRef s) (playbackState s) (activeScene s)
    (videoUrl s) (frameRequests s) (frameCounter s) (recorders s) (streams s)
    (objectUrls s) v (surface s) (painted s) (notified s).

Definition set_surface (v : Painter) (s : Engine) : Engine :=
  Build_Engine (animationRef s) (startTimeRef s) (recorderRef s)
    (recordedChunksRef s) (streamRef s) (playbackState s) (activeScene s)
    (videoUrl s) (frameRequests s) (frameCounter s) (recorders s) (streams s)
    (objectUrls s) (urlCounter s) v (painted s) (notified s).

Definition set_painted (v : list PaintCall) (s : Engine) : Engine :=
  Build_Engine (animationRef s) (startTimeRef s) (recorderRef s)
    (recordedChunksRef s) (streamRef s) (playbackState s) (activeScene s)
    (videoUrl s) (frameRequests s) (frameCounter s) (recorders s) (streams s)
    (objectUrls s) (urlCounter s) (surface s) v (notified s).

Definition set_notified (v : list nat) (s : Engine) : Engine :=
  Build_Engine (animationRef s) (startTimeRef s) (recorderRef s)
    (recordedChunksRef s) (streamRef s) (playbackState s) (activeScene s)
    (videoUrl s) (frameRequests s) (frameCounter s) (recorders s) (streams s)
    (objectUrls s) (urlCounter s) (surface s) (painted s) v.

(** Lists used as object tables: entry [i] replaced. *)
Fixpoint replace_nth {A} (i : nat) (a : A) (l : list A) : list A :=
  match l, i with
  | [], _ => []
  | _ :: rest, O => a :: rest
  | x :: rest, S i' => x :: replace_nth i' a rest
  end.

Definition same_handle (a b : option nat) : bool :=
  match a, b with
  | None, None => true
  | Some x, Some y => Nat.eqb x y
  | _, _ => false
  end.

(* ------------------------------------------------------------------------- *)
(** ** Browser services *)

Definition requestAnimationFrame (closure_activeScene : nat) (s : Engine)
  : nat * Engine :=
  let handle := frameCounter s in
  (handle,
   set_frameCounter (S handle)
     (set_frameRequests (frameRequests s ++ [(handle, closure_activeScene)]) s)).

Definition cancelAnimationFrame (handle : nat) (s : Engine) : Engine :=
  set_frameRequests
    (filter (fun request => negb (Nat.eqb (fst request) handle))
       (frameRequests s)) s.

Definition createObjectURL (blob : list Blob) (s : Engine) : nat * Engine :=
  let url := urlCounter s in
  (url, set_urlCounter (S url) (set_objectUrls (objectUrls s ++ [(url, blob)]) s)).

Definition revokeObjectURL (url : nat) (s : Engine) : Engine :=
  set_objectUrls
    (filter (fun entry => negb (Nat.eqb (fst entry) url)) (objectUrls s)) s.

(** [canvas.captureStream(30)]: a new stream whose track is live. *)
Definition captureStream (env : Env) (s : Engine) : option nat * Engine :=
  if captureYields env
  then (Some (List.length (streams s)), set_streams (streams s ++ [true]) s)
  else (None, s).

(** [stream.getTracks().forEach((track) => track.stop())] *)
Definition stopTracks (stream : nat) (s : Engine) : Engine :=
  set_streams (replace_nth stream false (streams s)) s.

(** [new MediaRecorder(stream, ...)] once it did not throw. *)
Definition newMediaRecorder (stream : nat) (s : Engine) : nat * Engine :=
  (List.length (recorders s),
   set_recorders
     (recorders s ++
      [{| input := stream; rec_state := inactive; onstop := None;
          stop_queued := false |}]) s).

Definition recorder_at (s : Engine) (r : nat) : option MediaRecorder :=
  nth_error (recorders s) r.

(** [recorderRef.current && recorderRef.current.state !== "inactive"] *)
Definition recorder_running (s : Engine) : bool :=
  match recorderRef s with
  | Some r =>
      match recorder_at s r with
      | Some rec =>
          match rec_state rec with inactive => false | _ => true end
      | None => false
      end
  | None => false
  end.

(* ------------------------------------------------------------------------- *)
(** ** React state *)

Definition setPlaybackState (v : PlaybackState) (s : Engine) : Engine :=
  set_playbackState v s.

Definition setActiveScene (v : nat) (s : Engine) : Engine :=
  set_notified (notified s ++ [v]) (set_activeScene v s).

(** [setVideoUrl(v)]: the state is set; nothing is revoked here. *)
Definition setVideoUrl (v : option nat) (s : Engine) : Engine :=
  set_videoUrl v s.

(** The re-render that follows a handler, for the effect keyed on
    [videoUrl]: [shown] is the value the render before had, which the
    clean-up of its effect captured.  When the handler left another value,
    the clean-up runs and revokes the URL it captured. *)
Definition rerender (shown : option nat) (s : Engine) : Engine :=
  if same_handle shown (videoUrl s) then s
  else match shown with
       | Some previous => revokeObjectURL previous s
       | None => s
       end.

(* ------------------------------------------------------------------------- *)
(** ** The component's callbacks *)

Definition clearAnimation (s : Engine) : Engine :=
  match animationRef s with
  | Some handle => set_animationRef None (cancelAnimationFrame handle s)
  | None => s
  end.

(** What [stopRecorder] returns: a promise already resolved, or one that the
    [onstop] handler of the given recorder will resolve. *)
Inductive Promise : Type :=
| Resolved
| Pending (recorder : nat).

Definition stopRecorder (finalize : bool) (s : Engine) : Promise * Engine :=
  match recorderRef s with
  | Some r =>
      match recorder_at s r with
      | Some rec =>
          match rec_state rec with
          | inactive => (Resolved, s)
          | _ =>
              (* recorder.onstop = ...; recorder.stop() *)
              (Pending r,
               set_recorders
                 (replace_nth r
                    {| input := input rec; rec_state := inactive;
                       onstop := Some {| finalize := finalize; settle := None |};
                       stop_queued := true |}
                    (recorders s)) s)
          end
      | None => (Resolved, s)
      end
  | None => (Resolved, s)
  end.

(** [promise.then(() => setPlaybackState(target))], and [finally] alike since
    the promise never rejects: at once on a resolved promise, otherwise when
    the handler resolves it. *)
Definition and_then (promise : Promise) (target : PlaybackState) (s : Engine)
  : Engine :=
  match promise with
  | Resolved => setPlaybackState target s
  | Pending r =>
      match recorder_at s r with
      | Some rec =>
          set_recorders
            (replace_nth r
               {| input := input rec; rec_state := rec_state rec;
                  onstop :=
                    match onstop rec with
                    | Some h => Some {| finalize := finalize h;
                                        settle := Some target |}
                    | None => None
                    end;
                  stop_queued := stop_queued rec |}
               (recorders s)) s
      | None => s
      end
  end.

(** The body of the [onstop] handler. *)
Definition run_onstop (h : StopHandler) (s : Engine) : Engine :=
  let s :=
    if finalize h
    then
      let blob := recordedChunksRef s in
      let (url, s') := createObjectURL blob s in
      setVideoUrl (Some url) s'
    else s in
  let s := set_recordedChunksRef [] s in
  let s :=
    match streamRef s with
    | Some stream => stopTracks stream s
    | None => s
    end in
  let s := set_streamRef None s in
  let s := set_recorderRef None s in
  (* resolve() *)
  match settle h with
  | Some target => setPlaybackState target s
  | None => s
  end.

Definition paint (env : Env) (scene : option SceneCue) (sp gp : Q) (s : Engine)
  : bool * Engine :=
  let result := drawScene (entropy env) scene sp gp (surface s) in
  (fst result,
   set_surface (snd result)
     (set_painted
        (painted s ++
         [{| shown := scene; sceneProgress := sp; globalProgress := gp |}]) s)).

(** [renderFrame], as the closure created by a render in which [activeScene]
    had the value [closure_activeScene]; the closure passes itself to
    [requestAnimationFrame]. *)
Definition renderFrame (env : Env) (closure_activeScene : nat) (timestamp : Q)
  (s : Engine) : Engine :=
  if negb (canvasMounted env) then s
  else if negb (context2d env) then s
  else
    let s :=
      match startTimeRef s with
      | None => set_startTimeRef (Some timestamp) s
      | Some _ => s
      end in
    let elapsed :=
      timestamp - match startTimeRef s with Some t => t | None => timestamp end in
    let total := totalDurationMs (scenes env) in
    if Qle_bool total elapsed
    then
      let (returned, s) := paint env (last_scene (scenes env)) 1 1 s in
      if negb returned then s
      else
        let s := clearAnimation s in
        let s := set_startTimeRef None s in
        let isRecording := recorder_running s in
        if isRecording
        then
          let (promise, s) := stopRecorder true s in
          and_then promise completed s
        else setPlaybackState completed s
    else
      let (cumulative, currentIndex) := locate (scenes env) elapsed in
      let s :=
        if negb (Nat.eqb closure_activeScene currentIndex)
        then setActiveScene currentIndex s
        else s in
      match nth_error (scenes env) currentIndex with
      | None => s
      | Some currentScene =>
          let sceneProgress :=
            (elapsed - cumulative) / (duration currentScene * 1000) in
          let globalProgress := elapsed / total in
          let (_, s) :=
            paint env (Some currentScene) sceneProgress globalProgress s in
          let (handle, s) := requestAnimationFrame closure_activeScene s in
          set_animationRef (Some handle) s
      end.

Definition initialiseRecorder (env : Env) (s : Engine) : bool * Engine :=
  if negb (canvasMounted env) then (false, s)
  else if negb (windowDefined env) then (false, s)
  else if negb (hasMediaRecorder env) then (false, setPlaybackState error s)
  else
    match captureStream env s with
    | (None, s) => (false, s)
    | (Some stream, s) =>
        if recorderConstructs env
        then
          let (recorder, s) := newMediaRecorder stream s in
          let s := set_recordedChunksRef [] s in
          let s := set_recorderRef (Some recorder) s in
          let s := set_streamRef (Some stream) s in
          (true, s)
        else (false, setPlaybackState error s)
    end.

(** [recorderRef.current?.start()] *)
Definition start_recorder (s : Engine) : Engine :=
  match recorderRef s with
  | Some r =>
      match recorder_at s r with
      | Some rec =>
          set_recorders
            (replace_nth r
               {| input := input rec; rec_state := recording;
                  onstop := onstop rec; stop_queued := stop_queued rec |}
               (recorders s)) s
      | None => s
      end
  | None => s
  end.

Definition startPlayback (env : Env) (record : bool) (s : Engine) : Engine :=
  if negb (canvasMounted env) then s
  else if negb (context2d env) then s
  else
    let closure_activeScene := activeScene s in
    let s := clearAnimation s in
    let s := set_startTimeRef None s in
    let s :=
      let s :=
        match videoUrl s with
        | Some previous => revokeObjectURL previous s
        | None => s
        end in
      setVideoUrl None s in
    let schedule (s : Engine) :=
      let (handle, s) := requestAnimationFrame closure_activeScene s in
      set_animationRef (Some handle) s in
    if record
    then
      let (canRecord, s) := initialiseRecorder env s in
      if negb canRecord then s
      else
        let s := setPlaybackState rendering s in
        let s := start_recorder s in
        schedule s
    else
      let s := setPlaybackState playing s in
      schedule s.

Definition stopPlayback (s : Engine) : Engine :=
  let closure_playbackState := playbackState s in
  let s := clearAnimation s in
  let s := set_startTimeRef None s in
  match closure_playbackState with
  | rendering =>
      let (promise, s) := stopRecorder true s in
      and_then promise idle s
  | _ => setPlaybackState idle s
  end.

(** The mount effect and its clean-up, and the clean-up of the effect keyed
    on [videoUrl]. *)
Definition mount (env : Env) (s : Engine) : Engine :=
  if negb (canvasMounted env) then s
  else if negb (context2d env) then s
  else
    let (returned, s) := paint env (nth_error (scenes env) 0) 0 0 s in
    if returned then setActiveScene 0 s else s.

Definition teardown (s : Engine) : Engine :=
  let s := clearAnimation s in
  let s := snd (stopRecorder false s) in
  let s := set_startTimeRef None s in
  match videoUrl s with
  | Some url => revokeObjectURL url s
  | None => s
  end.

(* ------------------------------------------------------------------------- *)
(** ** Events delivered to the mounted component *)

Inductive Event : Type :=
| ClickPreview                                   (* startPlayback(false) *)
| ClickGenerate                                  (* startPlayback(true) *)
| ClickStop                                      (* stopPlayback *)
| AnimationFrame (handle : nat) (timestamp : Q)
| DataAvailable (recorder : nat) (data : option Blob)
| RecorderStopped (recorder : nat).

Definition disablePlayback (s : Engine) : bool :=
  match playbackState s with
  | playing | rendering => true
  | _ => false
  end.

Definition stop_disabled (s : Engine) : bool :=
  match playbackState s with idle => true | _ => false end.

Fixpoint closure_of (handle : nat) (requests : list (nat * nat)) : option nat :=
  match requests with
  | [] => None
  | (h, closure) :: rest =>
      if Nat.eqb h handle then Some closure else closure_of handle rest
  end.

(** [recorder.ondataavailable] *)
Definition on_dataavailable (data : option Blob) (s : Engine) : Engine :=
  match data with
  | Some blob =>
      if Nat.ltb 0 (size blob)
      then set_recordedChunksRef (recordedChunksRef s ++ [blob]) s
      else s
  | None => s
  end.

Definition fire_stop (r : nat) (s : Engine) : Engine :=
  match recorder_at s r with
  | Some rec =>
      if stop_queued rec
      then
        let s :=
          set_recorders
            (replace_nth r
               {| input := input rec; rec_state := rec_state rec;
                  onstop := onstop rec; stop_queued := false |}
               (recorders s)) s in
        match onstop rec with
        | Some h => run_onstop h s
        | None => s
        end
      else s
  | None => s
  end.

(** The handler an event runs. *)
Definition handler (env : Env) (ev : Event) (s : Engine) : Engine :=
  match ev with
  | ClickPreview => if disablePlayback s then s else startPlayback env false s
  | ClickGenerate => if disablePlayback s then s else startPlayback env true s
  | ClickStop => if stop_disabled s then s else stopPlayback s
  | AnimationFrame handle timestamp =>
      match closure_of handle (frameRequests s) with
      | Some closure =>
          (* the request is spent once its callback runs *)
          renderFrame env closure timestamp (cancelAnimationFrame handle s)
      | None => s
      end
  | DataAvailable r data =>
      match recorder_at s r with
      | Some rec =>
          match rec_state rec, stop_queued rec with
          | inactive, false => s
          | _, _ => on_dataavailable data s
          end
      | None => s
      end
  | RecorderStopped r => fire_stop r s
  end.

(** An event delivered to the component: its handler, then the re-render. *)
Definition dispatch (env : Env) (ev : Event) (s : Engine) : Engine :=
  rerender (videoUrl s) (handler env ev s).

Definition run (env : Env) (events : list Event) (s : Engine) : Engine :=
  fold_left (fun s ev => dispatch env ev s) events s.

Inductive reachable (env : Env) : Engine -> Prop :=
| reach_mount : reachable env (mount env initial)
| reach_event : forall s ev,
    reachable env s -> reachable env (dispatch env ev s).

(* ------------------------------------------------------------------------- *)
(** ** A catalog and two browsers to run the engine on *)

Definition sample_palette : Palette :=
  {| pal_start := "#04122b"; pal_end := "#0b2a4a";
     glow := "rgba(80, 160, 255, 0.35)"; accent := "#4fc3f7" |}.

Definition sample_scene (key : string) (seconds : Q) (kind : Illustration)
  (text : string) : SceneCue :=
  {| id := key; duration := seconds; title := key; subtitle := "subtitle";
     description := text; palette := sample_palette; illustration := kind;
     facts := [] |}.

(** Three scenes of 4 s, 6 s and 2 s. *)
Definition sample_catalog : list SceneCue :=
  [sample_scene "dawn" 4 sunrise "the sun climbs over the horizon";
   sample_scene "night" 6 cities "cities light up the dark side";
   sample_scene "sky" 2 stars "stars above"].

(** A browser that offers everything. *)
Definition browser (catalog : list SceneCue) : Env :=
  {| scenes := catalog; canvasMounted := true; context2d := true;
     windowDefined := true; hasMediaRecorder := true; captureYields := true;
     recorderConstructs := true; entropy := fun _ => 0 |}.

(** A browser that has [MediaRecorder] but whose constructor rejects the
    requested container and codec. *)
Definition browser_rejecting_codec (catalog : list SceneCue) : Env :=
  {| scenes := catalog; canvasMounted := true; context2d := true;
     windowDefined := true; hasMediaRecorder := true; captureYields := true;
     recorderConstructs := false; entropy := fun _ => 0 |}.

(** A browser without [MediaRecorder]. *)
Definition browser_without_recorder (catalog : list SceneCue) : Env :=
  {| scenes := catalog; canvasMounted := true; context2d := true;
     windowDefined := true; hasMediaRecorder := false; captureYields := true;
     recorderConstructs := true; entropy := fun _ => 0 |}.

(* ========================================================================= *)
(** * Properties *)

Local Open Scope list_scope.

(** ** Comparisons and sums *)

Lemma Qltb_true (a b : Q) : Qltb a b = true <-> a < b.
Proof.
  unfold Qltb. rewrite negb_true_iff. split; intro H.
  - apply Qnot_le_lt. intro Hle. apply Qle_bool_iff in Hle. congruence.
  - destruct (Qle_bool b a) eqn:E; [|reflexivity].
    apply Qle_bool_iff in E. apply Qle_not_lt in E. contradiction.
Qed.

Lemma Qltb_false (a b : Q) : Qltb a b = false <-> b <= a.
Proof.
  unfold Qltb. rewrite negb_false_iff. apply Qle_bool_iff.
Qed.


Lemma total_snoc (l : list SceneCue) (sc : SceneCue) :
  totalDurationMs (l ++ [sc]) = totalDurationMs l + duration sc * 1000.
Proof. unfold totalDurationMs. rewrite fold_left_app. reflexivity. Qed.

Lemma firstn_succ_nth {A} (l : list A) (i : nat) (a : A) :
  nth_error l i = Some a -> firstn (S i) l = firstn i l ++ [a].
Proof.
  revert i. induction l as [|x l IH]; intros [|i] H; simpl in *; try discriminate.
  - congruence.
  - f_equal. apply IH. exact H.
Qed.

Lemma window_start_succ (l : list SceneCue) (i : nat) (sc : SceneCue) :
  nth_error l i = Some sc ->
  window_start l (S i) = window_start l i + duration sc * 1000.
Proof.
  intro H. unfold window_start. rewrite (firstn_succ_nth l i sc H).
  apply total_snoc.
Qed.

Lemma window_start_past (l : list SceneCue) (i : nat) :
  nth_error l i = None -> window_start l (S i) = window_start l i.
Proof.
  intro H. apply nth_error_None in H. unfold window_start.
  rewrite !firstn_all2 by lia. reflexivity.
Qed.

Definition durations_positive (l : list SceneCue) : Prop :=
  forall sc, In sc l -> 0 < duration sc.

Lemma window_start_step (l : list SceneCue) (i : nat) :
  durations_positive l -> window_start l i <= window_start l (S i).
Proof.
  intro Hpos. destruct (nth_error l i) as [sc|] eqn:E.
  - rewrite (window_start_succ l i sc E).
    assert (0 < duration sc) by (apply Hpos; eapply nth_error_In; eauto).
    nra.
  - rewrite (window_start_past l i E). apply Qle_refl.
Qed.

Lemma window_start_mono (l : list SceneCue) (i j : nat) :
  durations_positive l -> (i <= j)%nat -> window_start l i <= window_start l j.
Proof.
  intros Hpos Hle. induction Hle as [|j Hle IH].
  - apply Qle_refl.
  - eapply Qle_trans; [exact IH|]. apply window_start_step. exact Hpos.
Qed.


Lemma scan_finds (rest pre : list SceneCue) (e : Q) :
  totalDurationMs pre <= e ->
  e < totalDurationMs (pre ++ rest) ->
  exists i scene,
    scan e rest (List.length pre) (totalDurationMs pre)
      = (window_start (pre ++ rest) i, i) /\
    nth_error (pre ++ rest) i = Some scene /\
    window_start (pre ++ rest) i <= e /\
    e < window_start (pre ++ rest) i + duration scene * 1000.
Proof.
  revert pre. induction rest as [|sc rest IH]; intros pre Hlo Hhi.
  - rewrite app_nil_r in Hhi. lra.
  - simpl. destruct (Qltb e (totalDurationMs pre + duration sc * 1000)) eqn:E.
    + apply Qltb_true in E. exists (List.length pre), sc.
      assert (Hw : window_start (pre ++ sc :: rest) (List.length pre)
                   = totalDurationMs pre).
      { unfold window_start. rewrite firstn_app, Nat.sub_diag, firstn_all.
        simpl. rewrite app_nil_r. reflexivity. }
      rewrite Hw. repeat split; try assumption.
      rewrite nth_error_app2, Nat.sub_diag by lia. reflexivity.
    + apply Qltb_false in E.
      specialize (IH (pre ++ [sc])).
      rewrite total_snoc, <- app_assoc, length_app in IH. simpl in IH.
      replace (List.length pre + 1)%nat with (S (List.length pre)) in IH by lia.
      apply IH; assumption.
Qed.

Lemma locate_finds (l : list SceneCue) (e : Q) :
  0 <= e -> e < totalDurationMs l ->
  exists i scene,
    locate l e = (window_start l i, i) /\
    nth_error l i = Some scene /\
    window_start l i <= e /\
    e < window_start l i + duration scene * 1000.
Proof.
  intros Hlo Hhi. exact (scan_finds l [] e Hlo Hhi).
Qed.


(** ** Stepping the engine *)

Ltac proj :=
  cbn [animationRef startTimeRef recorderRef recordedChunksRef streamRef
       playbackState activeScene videoUrl frameRequests frameCounter recorders
       streams objectUrls urlCounter surface painted notified
       set_animationRef set_startTimeRef set_recorderRef set_recordedChunksRef
       set_streamRef set_playbackState set_activeScene set_videoUrl
       set_frameRequests set_frameCounter set_recorders set_streams
       set_objectUrls set_urlCounter set_surface set_painted set_notified
       fst snd negb] in *.

Lemma drawScene_returned random scene sp gp p :
  fst (drawScene random scene sp gp p)
  = match scene with Some _ => true | None => false end.
Proof. destruct scene; reflexivity. Qed.

(** [startTimeRef] once the tick has made sure it is set. *)
Definition anchor (timestamp : Q) (s : Engine) : Engine :=
  match startTimeRef s with
  | None => set_startTimeRef (Some timestamp) s
  | Some _ => s
  end.

Definition origin (timestamp : Q) (s : Engine) : Q :=
  match startTimeRef s with Some t => t | None => timestamp end.

Lemma paint_pair env scene sp gp s :
  paint env scene sp gp s
  = (match scene with Some _ => true | None => false end,
     snd (paint env scene sp gp s)).
Proof.
  unfold paint. cbv zeta. rewrite drawScene_returned. reflexivity.
Qed.

Lemma renderFrame_unready env a ts s :
  canvasMounted env = false \/ context2d env = false ->
  renderFrame env a ts s = s.
Proof.
  unfold renderFrame. intros [H|H]; rewrite H; cbn [negb].
  - reflexivity.
  - destruct (canvasMounted env); reflexivity.
Qed.

Lemma renderFrame_finished env a ts s final :
  canvasMounted env = true -> context2d env = true ->
  last_scene (scenes env) = Some final ->
  totalDurationMs (scenes env) <= ts - origin ts s ->
  renderFrame env a ts s =
    let s1 :=
      set_startTimeRef None
        (clearAnimation (snd (paint env (Some final) 1 1 (anchor ts s)))) in
    if recorder_running s1
    then and_then (fst (stopRecorder true s1)) completed
           (snd (stopRecorder true s1))
    else setPlaybackState completed s1.
Proof.
  intros Hc Hx Hl Hle. apply Qle_bool_iff in Hle.
  unfold renderFrame, origin, anchor in *. rewrite Hc, Hx. cbn [negb].
  destruct (startTimeRef s) as [t0|] eqn:Et; cbv zeta.
  - rewrite Et, Hle, Hl, paint_pair. cbn [negb].
    destruct (recorder_running _); [|reflexivity].
    destruct (stopRecorder true _); reflexivity.
  - proj. rewrite Hle, Hl, paint_pair. cbn [negb].
    destruct (recorder_running _); [|reflexivity].
    destruct (stopRecorder true _); reflexivity.
Qed.

Lemma nth_error_replace_same {A} (l : list A) (i : nat) (a : A) :
  (i < List.length l)%nat -> nth_error (replace_nth i a l) i = Some a.
Proof.
  revert i. induction l as [|x l IH]; intros [|i] H; simpl in *; try lia.
  - reflexivity.
  - apply IH. lia.
Qed.

Lemma nth_error_replace_other {A} (l : list A) (i j : nat) (a : A) :
  i <> j -> nth_error (replace_nth i a l) j = nth_error l j.
Proof.
  revert i j. induction l as [|x l IH]; intros [|i] [|j] H; simpl;
    try reflexivity; try congruence.
  apply IH. congruence.
Qed.

Lemma length_replace_nth {A} (l : list A) (i : nat) (a : A) :
  List.length (replace_nth i a l) = List.length l.
Proof.
  revert i. induction l as [|x l IH]; intros [|i]; simpl; try reflexivity.
  f_equal. apply IH.
Qed.

(** A capture session is active: the ref holds a recorder that is not
    inactive. *)
Definition session_live (s : Engine) (r : nat) (rec : MediaRecorder) : Prop :=
  recorderRef s = Some r /\ recorder_at s r = Some rec /\
  rec_state rec <> inactive.

(** No capture session is active: no recorder, or an inactive one. *)
Definition session_absent (s : Engine) : Prop :=
  recorderRef s = None \/
  exists r rec, recorderRef s = Some r /\ recorder_at s r = Some rec /\
                rec_state rec = inactive.

Lemma session_live_running s r rec :
  session_live s r rec -> recorder_running s = true.
Proof.
  intros (Hr & Hrec & Hst). unfold recorder_running. rewrite Hr, Hrec.
  destruct (rec_state rec); congruence.
Qed.


(** The recorder as [stopRecorder] leaves it: handler installed, [stop()]
    called. *)
Definition stopping (rec : MediaRecorder) (finalize : bool)
  (settle : option PlaybackState) : MediaRecorder :=
  {| input := input rec; rec_state := inactive;
     onstop := Some {| finalize := finalize; settle := settle |};
     stop_queued := true |}.

Lemma stopRecorder_live finalize s r rec :
  session_live s r rec ->
  stopRecorder finalize s
  = (Pending r,
     set_recorders (replace_nth r (stopping rec finalize None) (recorders s)) s).
Proof.
  intros (Hr & Hrec & Hst). unfold stopRecorder. rewrite Hr, Hrec.
  destruct (rec_state rec); try congruence; reflexivity.
Qed.

Lemma stopRecorder_absent finalize s :
  session_absent s -> stopRecorder finalize s = (Resolved, s).
Proof.
  unfold stopRecorder.
  intros [Hr | (r & rec & Hr & Hrec & Hst)]; rewrite Hr; [reflexivity|].
  rewrite Hrec, Hst. reflexivity.
Qed.

(** Requesting the stop of a live session and chaining a transition on the
    returned promise: the recorder is left stopping with the transition held
    by its handler; nothing else changes. *)
Lemma stop_then_live s r rec target :
  session_live s r rec ->
  and_then (fst (stopRecorder true s)) target (snd (stopRecorder true s))
  = set_recorders
      (replace_nth r (stopping rec true (Some target)) (recorders s)) s.
Proof.
  intros H. rewrite (stopRecorder_live true s r rec H). proj.
  destruct H as (Hr & Hrec & Hst).
  assert (Hlen : (r < List.length (recorders s))%nat).
  { apply nth_error_Some. unfold recorder_at in Hrec. congruence. }
  unfold and_then, recorder_at. proj.
  rewrite nth_error_replace_same by exact Hlen.
  unfold stopping. cbn [input rec_state onstop stop_queued finalize settle].
  unfold set_recorders. proj. f_equal.
  clear - Hlen. revert r Hlen.
  induction (recorders s) as [|x l IH]; intros [|r] H; simpl in *;
    try lia; try reflexivity.
  f_equal. apply IH. lia.
Qed.

Lemma stop_then_absent s target :
  session_absent s ->
  and_then (fst (stopRecorder true s)) target (snd (stopRecorder true s))
  = setPlaybackState target s.
Proof.
  intros H. rewrite (stopRecorder_absent true s H). reflexivity.
Qed.

(** What the [onstop] handler does when it was installed with
    [finalize = true]: the artifact is created and published first, the
    session is dismantled, and only then the chained transition runs. *)
Definition finalized (s : Engine) : Engine :=
  set_recorderRef None
    (set_streamRef None
       (let s1 :=
          set_recordedChunksRef []
            (setVideoUrl (Some (urlCounter s))
               (snd (createObjectURL (recordedChunksRef s) s))) in
        match streamRef s1 with
        | Some stream => stopTracks stream s1
        | None => s1
        end)).

Lemma run_onstop_finalize s settle :
  run_onstop {| finalize := true; settle := settle |} s
  = match settle with
    | Some target => setPlaybackState target (finalized s)
    | None => finalized s
    end.
Proof. reflexivity. Qed.

Lemma finalized_facts s :
  let s' := finalized s in
  videoUrl s' = Some (urlCounter s) /\
  urlCounter s' = S (urlCounter s) /\
  In (urlCounter s, recordedChunksRef s) (objectUrls s') /\
  playbackState s' = playbackState s /\
  recorderRef s' = None /\ streamRef s' = None /\ recordedChunksRef s' = [] /\
  animationRef s' = animationRef s /\ startTimeRef s' = startTimeRef s.
Proof.
  unfold finalized, setVideoUrl, createObjectURL, revokeObjectURL, stopTracks.
  proj.
  assert (Hin : forall l : list (nat * list Blob),
             (forall e, In e l -> fst e <> urlCounter s) ->
             In (urlCounter s, recordedChunksRef s)
                (filter (fun entry => negb (Nat.eqb (fst entry) (urlCounter s)))
                   l ++ [(urlCounter s, recordedChunksRef s)])).
  { intros l _. apply in_or_app. right. left. reflexivity. }
  destruct (same_handle (videoUrl s) (Some (urlCounter s))) eqn:Es;
    destruct (videoUrl s) as [u|] eqn:Ev; proj;
    destruct (streamRef s) eqn:Est; proj;
    repeat split; try reflexivity;
    try (apply in_or_app; right; left; reflexivity).
  all: rewrite filter_app; apply in_or_app; right; simpl;
    cbn in Es; rewrite Nat.eqb_sym, Es; left; reflexivity.
Qed.

Lemma closure_of_cancelled (h : nat) (l : list (nat * nat)) :
  closure_of h (filter (fun request => negb (Nat.eqb (fst request) h)) l) = None.
Proof.
  induction l as [|[h' c] l IH]; simpl; [reflexivity|].
  destruct (Nat.eqb h' h) eqn:E; simpl; [exact IH|].
  rewrite E. exact IH.
Qed.

(** The engine between the last paint and the decision on the recorder. *)
Definition wound_up (env : Env) (final : SceneCue) (ts : Q) (s : Engine)
  : Engine :=
  set_startTimeRef None
    (clearAnimation (snd (paint env (Some final) 1 1 (anchor ts s)))).

Lemma wound_up_facts env final ts s :
  let s1 := wound_up env final ts s in
  painted s1
    = painted s ++
      [{| shown := Some final; sceneProgress := 1; globalProgress := 1 |}] /\
  animationRef s1 = None /\
  (forall h, animationRef s = Some h ->
             closure_of h (frameRequests s1) = None) /\
  startTimeRef s1 = None /\
  recorderRef s1 = recorderRef s /\ recorders s1 = recorders s /\
  playbackState s1 = playbackState s /\ videoUrl s1 = videoUrl s /\
  objectUrls s1 = objectUrls s /\ urlCounter s1 = urlCounter s /\
  recordedChunksRef s1 = recordedChunksRef s /\ streamRef s1 = streamRef s /\
  streams s1 = streams s.
Proof.
  unfold wound_up, clearAnimation, cancelAnimationFrame, paint, anchor.
  cbv zeta. proj.
  destruct (startTimeRef s); proj; destruct (animationRef s) eqn:Ea; proj;
    repeat split; try reflexivity;
    try (intros h Hh; try discriminate; injection Hh as <-;
         apply closure_of_cancelled).
  all: assumption.
Qed.

(** Projections of a state are moved through an update by rewriting with
    the facts of that update. *)
Ltac rew_facts H :=
  let rec go H :=
    lazymatch type of H with
    | _ /\ _ =>
        let H1 := fresh "F" in
        let H2 := fresh "F" in
        destruct H as [H1 H2]; go H1; go H2
    | _ = _ => try rewrite !H
    | _ => idtac
    end in
  let F := fresh "F" in
  pose proof H as F; cbv zeta in F; go F.

Lemma setPlaybackState_facts v s :
  let s' := setPlaybackState v s in
  playbackState s' = v /\ videoUrl s' = videoUrl s /\
  objectUrls s' = objectUrls s /\ urlCounter s' = urlCounter s /\
  recorderRef s' = recorderRef s /\ streamRef s' = streamRef s /\
  recordedChunksRef s' = recordedChunksRef s /\
  animationRef s' = animationRef s /\ startTimeRef s' = startTimeRef s /\
  recorders s' = recorders s /\ streams s' = streams s /\
  frameRequests s' = frameRequests s /\ painted s' = painted s /\
  notified s' = notified s /\ activeScene s' = activeScene s.
Proof. cbv zeta. repeat split; reflexivity. Qed.

Lemma set_recorders_facts v s :
  let s' := set_recorders v s in
  recorders s' = v /\
  playbackState s' = playbackState s /\ videoUrl s' = videoUrl s /\
  objectUrls s' = objectUrls s /\ urlCounter s' = urlCounter s /\
  recorderRef s' = recorderRef s /\ streamRef s' = streamRef s /\
  recordedChunksRef s' = recordedChunksRef s /\
  animationRef s' = animationRef s /\ startTimeRef s' = startTimeRef s /\
  streams s' = streams s /\
  frameRequests s' = frameRequests s /\ painted s' = painted s /\
  notified s' = notified s /\ activeScene s' = activeScene s.
Proof. cbv zeta. repeat split; reflexivity. Qed.

Lemma recorder_at_stopping s r rec settle :
  recorder_at s r = Some rec ->
  recorder_at
    (set_recorders (replace_nth r (stopping rec true settle) (recorders s)) s) r
  = Some (stopping rec true settle).
Proof.
  intro H. unfold recorder_at in *.
  rew_facts (set_recorders_facts
               (replace_nth r (stopping rec true settle) (recorders s)) s).
  apply nth_error_replace_same. apply nth_error_Some. congruence.
Qed.

(** Firing the stop event of a recorder left [stopping] with a finalizing
    handler, in a state [s'] that agrees with [s] on the chunk buffer and the
    URL counter: the artifact is published on [mid], and the chained
    transition is then applied to [mid]. *)
Lemma fire_stop_stopping s' s r rec target :
  recorder_at s' r = Some (stopping rec true (Some target)) ->
  urlCounter s' = urlCounter s ->
  recordedChunksRef s' = recordedChunksRef s ->
  playbackState s' = playbackState s ->
  exists mid,
    fire_stop r s' = setPlaybackState target mid /\
    videoUrl mid = Some (urlCounter s) /\
    In (urlCounter s, recordedChunksRef s) (objectUrls mid) /\
    urlCounter mid = S (urlCounter s) /\
    playbackState mid = playbackState s /\
    recorderRef mid = None /\ streamRef mid = None /\
    recordedChunksRef mid = [].
Proof.
  intros H Hu Hch Hp. unfold fire_stop. rewrite H.
  cbn [stopping stop_queued onstop input rec_state].
  rewrite run_onstop_finalize.
  match goal with
  | |- context [finalized (set_recorders ?v ?s0)] =>
      exists (finalized (set_recorders v s0));
      destruct (finalized_facts (set_recorders v s0))
        as (F1 & F2 & F3 & F4 & F5 & F6 & F7 & F8 & F9);
      pose proof (set_recorders_facts v s0) as G
  end.
  cbv zeta in G. destruct G as (_ & G1 & _ & _ & G2 & _ & _ & G3 & _).
  rewrite G2, Hu in F1, F2, F3. rewrite G3, Hch in F3. rewrite G1, Hp in F4.
  repeat split; assumption.
Qed.

(** After the transition the handler chained, the state is the target and
    the rest is as the handler left it. *)
Lemma settled_facts target mid :
  let s := setPlaybackState target mid in
  playbackState s = target /\ videoUrl s = videoUrl mid /\
  objectUrls s = objectUrls mid /\ urlCounter s = urlCounter mid /\
  recorderRef s = recorderRef mid /\ streamRef s = streamRef mid.
Proof. cbv zeta. repeat split; reflexivity. Qed.


(** ** Parts of the state an operation leaves alone *)

(** The capture session: recorder handle and table, stream handle and
    tracks, chunk buffer. *)
Definition same_session (s s' : Engine) : Prop :=
  recorderRef s' = recorderRef s /\ recorders s' = recorders s /\
  streamRef s' = streamRef s /\ streams s' = streams s /\
  recordedChunksRef s' = recordedChunksRef s.

(** The artifact: URLs alive, URL shown, URLs created. *)
Definition same_artifact (s s' : Engine) : Prop :=
  objectUrls s' = objectUrls s /\ videoUrl s' = videoUrl s /\
  urlCounter s' = urlCounter s.

Lemma same_session_refl s : same_session s s.
Proof. repeat split. Qed.

Lemma same_session_trans s1 s2 s3 :
  same_session s1 s2 -> same_session s2 s3 -> same_session s1 s3.
Proof.
  intros (A1 & A2 & A3 & A4 & A5) (B1 & B2 & B3 & B4 & B5).
  repeat split; congruence.
Qed.

Lemma same_artifact_refl s : same_artifact s s.
Proof. repeat split. Qed.

Lemma same_artifact_trans s1 s2 s3 :
  same_artifact s1 s2 -> same_artifact s2 s3 -> same_artifact s1 s3.
Proof.
  intros (A1 & A2 & A3) (B1 & B2 & B3). repeat split; congruence.
Qed.

Lemma session_live_same s s' r rec :
  same_session s s' -> session_live s r rec -> session_live s' r rec.
Proof.
  intros (A1 & A2 & _) (H1 & H2 & H3). unfold session_live, recorder_at in *.
  rewrite A1, A2. auto.
Qed.

Lemma session_absent_same s s' :
  same_session s s' -> session_absent s -> session_absent s'.
Proof.
  intros (A1 & A2 & _). unfold session_absent, recorder_at.
  rewrite A1, A2. auto.
Qed.

(** The engine after [stopPlayback] cancelled the loop and unset the clock. *)
Definition halted (s : Engine) : Engine :=
  set_startTimeRef None (clearAnimation s).

Lemma halted_facts s :
  let s1 := halted s in
  animationRef s1 = None /\
  (forall h, animationRef s = Some h ->
             closure_of h (frameRequests s1) = None) /\
  startTimeRef s1 = None /\
  same_session s s1 /\ same_artifact s s1 /\
  playbackState s1 = playbackState s /\ painted s1 = painted s /\
  notified s1 = notified s /\ activeScene s1 = activeScene s.
Proof.
  unfold halted, clearAnimation, cancelAnimationFrame, same_session,
    same_artifact.
  cbv zeta.
  destruct (animationRef s) eqn:Ea; proj;
    repeat split; try reflexivity; try assumption;
    intros h Hh; try discriminate; injection Hh as <-;
    apply closure_of_cancelled.
Qed.

Lemma setPlaybackState_same v s :
  same_session s (setPlaybackState v s) /\
  same_artifact s (setPlaybackState v s).
Proof. repeat split; reflexivity. Qed.

Lemma revokeObjectURL_same url s :
  same_session s (revokeObjectURL url s) /\
  playbackState (revokeObjectURL url s) = playbackState s.
Proof. repeat split; reflexivity. Qed.

Lemma stopPlayback_rendering s :
  playbackState s = rendering ->
  stopPlayback s
  = and_then (fst (stopRecorder true (halted s))) idle
      (snd (stopRecorder true (halted s))).
Proof.
  intro H. unfold stopPlayback. cbv zeta. rewrite H. fold (halted s).
  destruct (stopRecorder true (halted s)); reflexivity.
Qed.

Lemma stopPlayback_otherwise s :
  playbackState s <> rendering ->
  stopPlayback s = setPlaybackState idle (halted s).
Proof.
  intro H. unfold stopPlayback. cbv zeta. fold (halted s).
  destruct (playbackState s); try reflexivity. congruence.
Qed.

Lemma teardown_absent s :
  session_absent s ->
  teardown s
  = match videoUrl s with
    | Some url => revokeObjectURL url (halted s)
    | None => halted s
    end.
Proof.
  intro H. unfold teardown. cbv zeta.
  assert (Hc : session_absent (clearAnimation s)).
  { unfold session_absent, recorder_at, clearAnimation in *.
    destruct (animationRef s); exact H. }
  rewrite (stopRecorder_absent false _ Hc). cbn [snd]. fold (halted s).
  destruct (halted_facts s) as (_ & _ & _ & _ & (_ & Hv & _) & _).
  rewrite Hv. reflexivity.
Qed.

(** C10. Stopping the recorder when no capture session is active (no
    recorder handle, or a recorder that is already inactive) resolves at once
    and changes nothing.  Teardown and stop invoked then leave the chunk
    buffer, the stream, the recorder handle and the recorders as they were,
    and teardown leaves the playback state as it was. *)
Theorem stop_without_session_is_noop finalize s :
  session_absent s ->
  stopRecorder finalize s = (Resolved, s) /\
  same_session s (teardown s) /\
  playbackState (teardown s) = playbackState s /\
  same_session s (stopPlayback s).
Proof.
  intro H. split; [exact (stopRecorder_absent finalize s H)|].
  destruct (halted_facts s) as (_ & _ & _ & Hs & _ & Hp & _).
  pose proof (session_absent_same _ _ Hs H) as Hh.
  rewrite (teardown_absent s H). split; [|split].
  - destruct (videoUrl s) as [url|]; [|exact Hs].
    exact (same_session_trans _ _ _ Hs
             (proj1 (revokeObjectURL_same url (halted s)))).
  - destruct (videoUrl s) as [url|]; [|exact Hp].
    rewrite (proj2 (revokeObjectURL_same url (halted s))). exact Hp.
  - assert (E : stopPlayback s = setPlaybackState idle (halted s)).
    { destruct (playbackState s) eqn:Eps.
      3: rewrite (stopPlayback_rendering s Eps);
         exact (stop_then_absent _ idle Hh).
      all: apply stopPlayback_otherwise; congruence. }
    rewrite E.
    exact (same_session_trans _ _ _ Hs
             (proj1 (setPlaybackState_same idle (halted s)))).
Qed.

(** A stop request on a live session with a transition chained on its
    promise, issued in a state [s1] that differs from [s] only in the loop
    and the clock: the playback state and the artifact are left alone, the
    recorder holds the transition, and firing its stop event publishes the
    artifact on [mid] before the transition is applied. *)
Lemma deferred_transition s s1 r rec target :
  session_live s r rec ->
  same_session s s1 -> same_artifact s s1 ->
  playbackState s1 = playbackState s ->
  let s' :=
    and_then (fst (stopRecorder true s1)) target (snd (stopRecorder true s1)) in
  playbackState s' = playbackState s /\ same_artifact s s' /\
  animationRef s' = animationRef s1 /\ startTimeRef s' = startTimeRef s1 /\
  frameRequests s' = frameRequests s1 /\
  recorder_at s' r = Some (stopping rec true (Some target)) /\
  exists mid,
    fire_stop r s' = setPlaybackState target mid /\
    playbackState mid = playbackState s /\
    videoUrl mid = Some (urlCounter s) /\
    In (urlCounter s, recordedChunksRef s) (objectUrls mid) /\
    urlCounter mid = S (urlCounter s).
Proof.
  intros L Hs Ha Hp s'. subst s'.
  pose proof (session_live_same _ _ r rec Hs L) as L1.
  rewrite (stop_then_live s1 r rec target L1).
  destruct L1 as (_ & Hrec & _).
  pose proof (recorder_at_stopping s1 r rec (Some target) Hrec) as Hat.
  remember (replace_nth r (stopping rec true (Some target)) (recorders s1))
    as table eqn:Et. clear Et.
  destruct (set_recorders_facts table s1)
    as (_ & R1 & R2 & R3 & R4 & _ & _ & R5 & R6 & R7 & _ & R8 & _).
  remember (set_recorders table s1) as s2 eqn:Es2. clear Es2.
  destruct Hs as (_ & _ & _ & _ & Hch), Ha as (A1 & A2 & A3).
  assert (Hp2 : playbackState s2 = playbackState s) by congruence.
  assert (Hu2 : urlCounter s2 = urlCounter s) by congruence.
  assert (Hc2 : recordedChunksRef s2 = recordedChunksRef s) by congruence.
  split; [exact Hp2|]. split; [repeat split; congruence|].
  do 3 (split; [assumption|]). split; [exact Hat|].
  destruct (fire_stop_stopping s2 s r rec target Hat Hu2 Hc2 Hp2)
    as (mid & E & M1 & M2 & M3 & M4 & _).
  exists mid. repeat split; assumption.
Qed.

(** The transition waits while the recorder is still capturing.  When a
    live session is stopped -- by the tick that reaches the end of the
    timeline or by a user stop in the rendering state -- the promise is
    pending and the playback state is left as it is at stop-request time.
    The transition to [completed] or [idle] is held by the recorder's stop
    handler: when the stop event fires, the artifact is published first and
    the transition is applied to the state that already holds it. *)
Lemma transition_waits_while_recording s r rec :
  session_live s r rec ->
  fst (stopRecorder true s) = Pending r /\
  (playbackState s = rendering ->
   let s' := stopPlayback s in
   playbackState s' = rendering /\ same_artifact s s' /\
   recorder_at s' r = Some (stopping rec true (Some idle)) /\
   exists mid,
     fire_stop r s' = setPlaybackState idle mid /\
     playbackState mid = rendering /\
     videoUrl mid = Some (urlCounter s) /\
     In (urlCounter s, recordedChunksRef s) (objectUrls mid)) /\
  (forall env a ts final,
   canvasMounted env = true -> context2d env = true ->
   last_scene (scenes env) = Some final ->
   totalDurationMs (scenes env) <= ts - origin ts s ->
   let s' := renderFrame env a ts s in
   playbackState s' = playbackState s /\ same_artifact s s' /\
   recorder_at s' r = Some (stopping rec true (Some completed)) /\
   exists mid,
     fire_stop r s' = setPlaybackState completed mid /\
     playbackState mid = playbackState s /\
     videoUrl mid = Some (urlCounter s) /\
     In (urlCounter s, recordedChunksRef s) (objectUrls mid)).
Proof.
  intro L. split; [rewrite (stopRecorder_live true s r rec L); reflexivity|].
  split.
  - intros Hps s'. subst s'.
    destruct (halted_facts s) as (_ & _ & _ & Hs & Ha & Hp & _).
    rewrite (stopPlayback_rendering s Hps). rewrite <- Hps.
    destruct (deferred_transition s (halted s) r rec idle L Hs Ha Hp)
      as (D1 & D2 & _ & _ & _ & D3 & mid & E & M1 & M2 & M3 & _).
    split; [exact D1|]. split; [exact D2|]. split; [exact D3|].
    exists mid. split; [exact E|]. split; [exact M1|].
    split; [exact M2|exact M3].
  - intros env a ts final Hc Hx Hl Hle s'. subst s'.
    rewrite (renderFrame_finished env a ts s final Hc Hx Hl Hle). cbv zeta.
    fold (wound_up env final ts s).
    destruct (wound_up_facts env final ts s)
      as (_ & _ & _ & _ & Hr & Hrs & Hp & Hv & Ho & Hu & Hch & Hst & Hss).
    assert (Hs : same_session s (wound_up env final ts s))
      by (repeat split; assumption).
    assert (Ha : same_artifact s (wound_up env final ts s))
      by (repeat split; assumption).
    rewrite (session_live_running _ _ _ (session_live_same _ _ r rec Hs L)).
    destruct (deferred_transition s _ r rec completed L Hs Ha Hp)
      as (D1 & D2 & _ & _ & _ & D3 & mid & E & M1 & M2 & M3 & _).
    split; [exact D1|]. split; [exact D2|]. split; [exact D3|].
    exists mid. split; [exact E|]. split; [exact M1|].
    split; [exact M2|exact M3].
Qed.




(** ** Starting *)

(** The engine after the first three statements of [startPlayback]: loop
    cancelled, clock unset, previous artifact revoked and forgotten. *)
Definition cleared (s : Engine) : Engine :=
  setVideoUrl None
    (match videoUrl (halted s) with
     | Some previous => revokeObjectURL previous (halted s)
     | None => halted s
     end).

Lemma cleared_facts s :
  let s1 := cleared s in
  animationRef s1 = None /\
  (forall h, animationRef s = Some h ->
             closure_of h (frameRequests s1) = None) /\
  startTimeRef s1 = None /\
  same_session s s1 /\
  playbackState s1 = playbackState s /\ videoUrl s1 = None /\
  urlCounter s1 = urlCounter s /\ activeScene s1 = activeScene s /\
  notified s1 = notified s /\ painted s1 = painted s.
Proof.
  unfold cleared, setVideoUrl, revokeObjectURL, halted, clearAnimation,
    cancelAnimationFrame, same_session.
  cbv zeta.
  destruct (animationRef s) eqn:Ea; proj;
    destruct (videoUrl s) eqn:Ev; proj; rewrite ?Ev; cbn [same_handle]; proj;
    repeat split; try reflexivity; try assumption;
    try (intros h Hh; try discriminate; injection Hh as <-;
         apply closure_of_cancelled).
Qed.

Lemma startPlayback_without_capability env s :
  canvasMounted env = true -> context2d env = true ->
  windowDefined env = true -> hasMediaRecorder env = false ->
  startPlayback env true s = setPlaybackState error (cleared s).
Proof.
  intros Hc Hx Hw Hm. unfold startPlayback, initialiseRecorder.
  rewrite Hc, Hx, Hw, Hm. reflexivity.
Qed.

(** The half of C1 that holds: without the capture capability the state
    becomes [error], the frame loop is not started and the session handles
    are as they were. *)
Lemma capability_absent_start env s :
  canvasMounted env = true -> context2d env = true ->
  windowDefined env = true -> hasMediaRecorder env = false ->
  let s' := startPlayback env true s in
  playbackState s' = error /\ animationRef s' = None /\
  (forall h, animationRef s = Some h ->
             closure_of h (frameRequests s') = None) /\
  same_session s s'.
Proof.
  intros Hc Hx Hw Hm s'. subst s'.
  rewrite (startPlayback_without_capability env s Hc Hx Hw Hm).
  destruct (cleared_facts s) as (Ha & Hq & _ & Hs & _).
  destruct (setPlaybackState_facts error (cleared s))
    as (P1 & _ & _ & _ & _ & _ & _ & P2 & _ & _ & _ & P3 & _).
  rewrite P1, P2, P3. repeat split; try assumption.
  all: destruct Hs as (S1 & S2 & S3 & S4 & S5);
    destruct (setPlaybackState_same error (cleared s))
      as ((T1 & T2 & T3 & T4 & T5) & _); congruence.
Qed.

(** ** Runs *)

(** C9. The guard of the tick compares the resolved index with the
    [activeScene] its closure captured when playback started, not with the
    value currently shown.  Playback started while scene 0 was shown; the
    tick at 4500 ms moves the indicator to 1; the tick at 5000 ms resolves
    index 1 again, the indicator already shows 1, and [setActiveScene] is
    called once more. *)
Theorem stale_closure_notifies_again :
  let env := browser sample_catalog in
  let before :=
    run env [ClickPreview; AnimationFrame 0 0; AnimationFrame 1 4500]
      (mount env initial) in
  let after := dispatch env (AnimationFrame 2 5000) before in
  activeScene before = 1%nat /\
  snd (locate sample_catalog (5000 - 0)) = 1%nat /\
  notified before = [0%nat; 1%nat] /\
  notified after = [0%nat; 1%nat; 1%nat].
Proof. cbv zeta. repeat split; lazy; reflexivity. Qed.

(** The other face of the same guard: playback started while the indicator
    showed scene 1 (a preview stopped there); when the new run reaches scene 1
    the indicator, now at 0, is not moved. *)
Lemma stale_closure_misses_update :
  let env := browser sample_catalog in
  let s :=
    run env
      [ClickPreview; AnimationFrame 0 0; AnimationFrame 1 4500; ClickStop;
       ClickPreview; AnimationFrame 3 10000; AnimationFrame 4 14500]
      (mount env initial) in
  snd (locate sample_catalog (14500 - 10000)) = 1%nat /\
  map globalProgress (painted s)
  = [0; 0 / 12000; 4500 / 12000; 0 / 12000; 4500 / 12000] /\
  notified s = [0%nat; 1%nat; 0%nat] /\
  activeScene s = 0%nat.
Proof. cbv zeta. repeat split; lazy; reflexivity. Qed.

(** C1. Start with recording where [MediaRecorder] exists but its
    constructor throws: the state becomes [error], no frame is requested and
    no handle is stored, yet the stream obtained from [captureStream] stays
    live -- nothing stops its track. *)
Theorem encoder_failure_leaves_stream_live :
  let env := browser_rejecting_codec sample_catalog in
  let s := dispatch env ClickGenerate (mount env initial) in
  playbackState s = error /\
  animationRef s = None /\ frameRequests s = [] /\
  recorderRef s = None /\ recorders s = [] /\
  streamRef s = None /\ streams s = [true].
Proof. cbv zeta. repeat split; lazy; reflexivity. Qed.

(** C6. Stop pressed in the rendering state while the recorder is already
    stopping (the tick at the end of the timeline asked for it and its stop
    event has not fired yet): the state becomes [idle] at once with no
    artifact, and when the stop event fires the artifact appears and the
    state ends [completed]. *)
Theorem stop_during_finalization :
  let env := browser sample_catalog in
  let ended :=
    run env [ClickGenerate; AnimationFrame 0 0; AnimationFrame 1 12000]
      (mount env initial) in
  let stopped := dispatch env ClickStop ended in
  let settled := dispatch env (RecorderStopped 0) stopped in
  playbackState ended = rendering /\ videoUrl ended = None /\
  playbackState stopped = idle /\ videoUrl stopped = None /\
  objectUrls stopped = [] /\
  playbackState settled = completed /\ videoUrl settled = Some 0%nat.
Proof. cbv zeta. repeat split; lazy; reflexivity. Qed.

(** The same window reached by two presses of stop: the second one settles
    [idle] before the artifact exists. *)
Lemma stop_pressed_twice :
  let env := browser sample_catalog in
  let once :=
    run env [ClickGenerate; AnimationFrame 0 0; ClickStop] (mount env initial) in
  let twice := dispatch env ClickStop once in
  let settled := dispatch env (RecorderStopped 0) twice in
  playbackState once = rendering /\
  playbackState twice = idle /\ videoUrl twice = None /\
  playbackState settled = idle /\ videoUrl settled = Some 0%nat.
Proof. cbv zeta. repeat split; lazy; reflexivity. Qed.

(** C5. A stop request that reaches a session already being stopped does
    not wait.  Whether the stop was asked for by the tick at the end of the
    timeline or by the user, the recorder is inactive with its stop event
    still to come and the state is still [rendering]; Stop pressed then sets
    [idle] at that very request -- no artifact exists, the stop event has not
    fired -- and the artifact appears only when the event fires
    afterwards. *)
Theorem stop_request_while_stopping_does_not_wait :
  let env := browser sample_catalog in
  let stopping_by : PlaybackState -> MediaRecorder := fun target =>
    {| input := 0; rec_state := inactive;
       onstop := Some {| finalize := true; settle := Some target |};
       stop_queued := true |} in
  let by_user :=
    run env [ClickGenerate; AnimationFrame 0 0; ClickStop]
      (mount env initial) in
  let by_tick :=
    run env [ClickGenerate; AnimationFrame 0 0; AnimationFrame 1 12000]
      (mount env initial) in
  (playbackState by_user = rendering /\
   recorder_at by_user 0 = Some (stopping_by idle) /\
   let requested := dispatch env ClickStop by_user in
   playbackState requested = idle /\
   recorder_at requested 0 = Some (stopping_by idle) /\
   videoUrl requested = None /\ objectUrls requested = [] /\
   urlCounter requested = 0%nat /\
   videoUrl (dispatch env (RecorderStopped 0) requested) = Some 0%nat) /\
  (playbackState by_tick = rendering /\
   recorder_at by_tick 0 = Some (stopping_by completed) /\
   let requested := dispatch env ClickStop by_tick in
   playbackState requested = idle /\
   recorder_at requested 0 = Some (stopping_by completed) /\
   videoUrl requested = None /\ objectUrls requested = [] /\
   urlCounter requested = 0%nat /\
   videoUrl (dispatch env (RecorderStopped 0) requested) = Some 0%nat).
Proof. cbv zeta. repeat split; lazy; reflexivity. Qed.

(** The parts of C6 that hold.  Stop always unsets the clock and leaves no
    frame requested; from [playing] the state is [idle] at once and nothing
    is produced; from [rendering] with the session still recording the state
    waits for the stop event, which produces one artifact and settles
    [idle]. *)
Lemma user_stop s :
  (playbackState s = playing ->
     let s' := stopPlayback s in
     animationRef s' = None /\ startTimeRef s' = None /\
     playbackState s' = idle /\ same_artifact s s') /\
  (forall r rec, playbackState s = rendering -> session_live s r rec ->
     let s' := stopPlayback s in
     animationRef s' = None /\ startTimeRef s' = None /\
     playbackState s' = rendering /\ same_artifact s s' /\
     let s'' := fire_stop r s' in
     playbackState s'' = idle /\ videoUrl s'' = Some (urlCounter s) /\
     urlCounter s'' = S (urlCounter s)).
Proof.
  destruct (halted_facts s) as (Ha & _ & Ht & Hs & Hart & Hp & _).
  split.
  - intros Eps s'. subst s'.
    rewrite stopPlayback_otherwise by congruence.
    destruct (setPlaybackState_facts idle (halted s))
      as (P1 & P2 & P3 & P4 & _ & _ & _ & P5 & P6 & _).
    rewrite P1, P5, P6.
    split; [exact Ha|]. split; [exact Ht|]. split; [reflexivity|].
    unfold same_artifact. rewrite P2, P3, P4. exact Hart.
  - intros r rec Eps L s'. subst s'.
    rewrite (stopPlayback_rendering s Eps).
    destruct (deferred_transition s (halted s) r rec idle L Hs Hart Hp)
      as (D1 & D2 & D3 & D4 & _ & _ & mid & E & M1 & M2 & M3 & M4).
    cbv zeta. rewrite E.
    destruct (settled_facts idle mid) as (S1 & S2 & _ & S4 & _).
    rewrite S1, S2, S4.
    split; [congruence|]. split; [congruence|]. split; [congruence|].
    split; [exact D2|]. repeat split; congruence.
Qed.

(** ** Object URLs *)

(** What the engine knows about artifacts: the URLs not revoked, the one the
    page shows, and how many were ever created. *)
Definition urls (s : Engine) : list (nat * list Blob) * option nat * nat :=
  (objectUrls s, videoUrl s, urlCounter s).

Ltac grind :=
  repeat (proj; cbv zeta;
          match goal with
          | |- context [let (_, _) := ?e in _] => rewrite (surjective_pairing e)
          | |- context [if ?c then _ else _] => destruct c eqn:?
          | |- context [match ?x with _ => _ end] => destruct x eqn:?
          end);
  proj.

Lemma renderFrame_urls env a ts s : urls (renderFrame env a ts s) = urls s.
Proof.
  unfold urls, renderFrame, paint, clearAnimation, cancelAnimationFrame,
    recorder_running, stopRecorder, and_then, setPlaybackState,
    setActiveScene, requestAnimationFrame, recorder_at.
  rewrite !drawScene_returned.
  grind; reflexivity.
Qed.

Definition other_than (url : nat) (entry : nat * list Blob) : bool :=
  negb (Nat.eqb (fst entry) url).

Lemma cleared_urls s :
  objectUrls (cleared s)
  = match videoUrl s with
    | Some previous => filter (other_than previous) (objectUrls s)
    | None => objectUrls s
    end.
Proof.
  unfold cleared, setVideoUrl, revokeObjectURL, halted, clearAnimation,
    cancelAnimationFrame, other_than.
  destruct (animationRef s); proj; destruct (videoUrl s) eqn:Ev; proj;
    rewrite ?Ev; proj; reflexivity.
Qed.

Lemma startPlayback_artifact env record s :
  canvasMounted env = true -> context2d env = true ->
  same_artifact (cleared s) (startPlayback env record s).
Proof.
  intros Hc Hx. unfold startPlayback. rewrite Hc, Hx. cbn [negb]. cbv zeta.
  fold (halted s). fold (cleared s). generalize (cleared s) as c. intro c.
  unfold same_artifact, initialiseRecorder, start_recorder, captureStream,
    newMediaRecorder, setPlaybackState, requestAnimationFrame, recorder_at.
  destruct record; grind; repeat split; reflexivity.
Qed.

Lemma startPlayback_urls env record s :
  canvasMounted env = true -> context2d env = true ->
  urls (startPlayback env record s)
  = (match videoUrl s with
     | Some previous => filter (other_than previous) (objectUrls s)
     | None => objectUrls s
     end, None, urlCounter s).
Proof.
  intros Hc Hx.
  destruct (startPlayback_artifact env record s Hc Hx) as (A1 & A2 & A3).
  destruct (cleared_facts s) as (_ & _ & _ & _ & _ & Hv & Hu & _).
  unfold urls. rewrite A1, A2, A3, Hv, Hu, cleared_urls. reflexivity.
Qed.

Lemma startPlayback_unready env record s :
  canvasMounted env = false \/ context2d env = false ->
  startPlayback env record s = s.
Proof.
  unfold startPlayback. intros [H|H]; rewrite H; cbn [negb].
  - reflexivity.
  - destruct (canvasMounted env); reflexivity.
Qed.

(** Starting a playback, recorded or not, revokes the URL the page shows and
    shows none. *)
Lemma start_releases_artifact env record s url :
  canvasMounted env = true -> context2d env = true ->
  videoUrl s = Some url ->
  ~ In url (map fst (objectUrls (startPlayback env record s))) /\
  videoUrl (startPlayback env record s) = None.
Proof.
  intros Hc Hx Hv.
  pose proof (startPlayback_urls env record s Hc Hx) as E.
  unfold urls in E. injection E as E1 E2 _. rewrite E1, E2, Hv.
  split; [|reflexivity].
  intro H. apply in_map_iff in H. destruct H as ([u b] & Hu & Hin).
  apply filter_In in Hin. destruct Hin as (_ & Hf).
  unfold other_than in Hf. simpl in *. subst u.
  rewrite Nat.eqb_refl in Hf. discriminate.
Qed.

Lemma stopPlayback_urls s : urls (stopPlayback s) = urls s.
Proof.
  unfold urls, stopPlayback, clearAnimation, cancelAnimationFrame,
    stopRecorder, and_then, setPlaybackState, recorder_at.
  grind; reflexivity.
Qed.

Lemma on_dataavailable_urls data s : urls (on_dataavailable data s) = urls s.
Proof. unfold urls, on_dataavailable. grind; reflexivity. Qed.

Lemma mount_urls env s : urls (mount env s) = urls s.
Proof.
  unfold urls, mount, paint, setActiveScene. rewrite !drawScene_returned.
  grind; reflexivity.
Qed.

(** The URLs alive are exactly the one the page shows, and it was handed out
    by [createObjectURL]. *)
Definition tidy (s : Engine) : Prop :=
  map fst (objectUrls s)
    = match videoUrl s with Some url => [url] | None => [] end /\
  (forall url, videoUrl s = Some url -> (url < urlCounter s)%nat).

Lemma tidy_urls s s' : urls s' = urls s -> tidy s -> tidy s'.
Proof.
  unfold urls, tidy. intros E. injection E as E1 E2 E3.
  rewrite E1, E2, E3. auto.
Qed.

Lemma filter_sole (url : nat) (l : list (nat * list Blob)) :
  map fst l = [url] -> filter (other_than url) l = [].
Proof.
  destruct l as [|[u b] [|x l]]; simpl; try discriminate.
  intro H. injection H as ->. unfold other_than. simpl.
  rewrite Nat.eqb_refl. reflexivity.
Qed.

Lemma tidy_startPlayback env record s :
  canvasMounted env = true -> context2d env = true -> tidy s ->
  objectUrls (startPlayback env record s) = [] /\
  videoUrl (startPlayback env record s) = None /\
  urlCounter (startPlayback env record s) = urlCounter s.
Proof.
  intros Hc Hx (Hk & Hlt).
  pose proof (startPlayback_urls env record s Hc Hx) as E.
  unfold urls in E. injection E as E1 E2 E3.
  rewrite E1, E2, E3. repeat split.
  destruct (videoUrl s) as [u|].
  - rewrite (filter_sole u _ Hk). reflexivity.
  - destruct (objectUrls s); [reflexivity|discriminate].
Qed.

(** The finalizing handler creates the URL and shows it; what was alive
    before stays alive until the re-render. *)
Lemma finalized_urls s :
  urls (finalized s)
  = (objectUrls s ++ [(urlCounter s, recordedChunksRef s)],
     Some (urlCounter s), S (urlCounter s)).
Proof.
  unfold urls, finalized, setVideoUrl, createObjectURL, stopTracks. proj.
  destruct (streamRef s); reflexivity.
Qed.

(** What the handler does when it was installed with [finalize = false]. *)
Definition dismantled (s : Engine) : Engine :=
  set_recorderRef None
    (set_streamRef None
       (let s1 := set_recordedChunksRef [] s in
        match streamRef s1 with
        | Some stream => stopTracks stream s1
        | None => s1
        end)).

Lemma run_onstop_discard s chained :
  run_onstop {| finalize := false; settle := chained |} s
  = match chained with
    | Some target => setPlaybackState target (dismantled s)
    | None => dismantled s
    end.
Proof. reflexivity. Qed.

Lemma dismantled_urls s : urls (dismantled s) = urls s.
Proof.
  unfold urls, dismantled, stopTracks. cbv zeta. proj.
  destruct (streamRef s); reflexivity.
Qed.

Lemma setPlaybackState_urls v s : urls (setPlaybackState v s) = urls s.
Proof. reflexivity. Qed.

(** *** The re-render *)

Lemma same_handle_refl (a : option nat) : same_handle a a = true.
Proof. destruct a; simpl; [apply Nat.eqb_refl|reflexivity]. Qed.

Lemma rerender_quiet shown s : videoUrl s = shown -> rerender shown s = s.
Proof.
  intros <-. unfold rerender. rewrite same_handle_refl. reflexivity.
Qed.

(** A handler that leaves the URLs alone is followed by a re-render that
    revokes nothing. *)
Lemma dispatch_quiet env ev s :
  urls (handler env ev s) = urls s -> dispatch env ev s = handler env ev s.
Proof.
  intro E. unfold dispatch. apply rerender_quiet.
  unfold urls in E. injection E as _ E _. exact E.
Qed.

(** The re-render touches nothing but the URLs alive. *)
Lemma rerender_facts shown s :
  let s' := rerender shown s in
  videoUrl s' = videoUrl s /\ urlCounter s' = urlCounter s /\
  playbackState s' = playbackState s /\
  animationRef s' = animationRef s /\ frameRequests s' = frameRequests s /\
  frameCounter s' = frameCounter s /\ startTimeRef s' = startTimeRef s /\
  same_session s s' /\ activeScene s' = activeScene s /\
  notified s' = notified s /\ painted s' = painted s /\
  surface s' = surface s.
Proof.
  cbv zeta. unfold rerender, revokeObjectURL, same_session.
  destruct (same_handle shown (videoUrl s)); [repeat split|].
  destruct shown; repeat split.
Qed.

Lemma map_fst_filter (url : nat) (l : list (nat * list Blob)) :
  map fst (filter (other_than url) l)
  = filter (fun key => negb (Nat.eqb key url)) (map fst l).
Proof.
  induction l as [|[u b] l IH]; simpl; [reflexivity|].
  unfold other_than at 1. simpl.
  destruct (Nat.eqb u url); simpl; rewrite IH; reflexivity.
Qed.

Lemma tidy_rerender_none shown x :
  objectUrls x = [] -> videoUrl x = None -> tidy (rerender shown x).
Proof.
  intros Ho Hv. unfold rerender.
  destruct (same_handle shown (videoUrl x));
    [|destruct shown as [u|]];
    unfold tidy, revokeObjectURL; proj; rewrite ?Ho, Hv;
    (split; [reflexivity|discriminate]).
Qed.

Lemma tidy_rerender_new s x blob :
  tidy s ->
  urls x
  = (objectUrls s ++ [(urlCounter s, blob)], Some (urlCounter s),
     S (urlCounter s)) ->
  tidy (rerender (videoUrl s) x).
Proof.
  intros (Hk & Hlt) E. unfold urls in E. injection E as Eo Ev Ec.
  unfold rerender. rewrite Ev.
  destruct (videoUrl s) as [u|] eqn:Es; cbn [same_handle].
  - specialize (Hlt u eq_refl).
    replace (Nat.eqb u (urlCounter s)) with false
      by (symmetry; apply Nat.eqb_neq; lia).
    unfold tidy, revokeObjectURL. proj. fold (other_than u).
    rewrite Ev, Ec, Eo, filter_app, (filter_sole u _ Hk). simpl.
    unfold other_than. simpl.
    replace (Nat.eqb (urlCounter s) u) with false
      by (symmetry; apply Nat.eqb_neq; lia).
    split; [reflexivity|]. intros url [= <-]. lia.
  - unfold tidy. rewrite Ev, Ec, Eo, map_app, Hk.
    split; [reflexivity|]. intros url [= <-]. lia.
Qed.

Lemma tidy_fire_stop r s :
  tidy s -> tidy (rerender (videoUrl s) (fire_stop r s)).
Proof.
  intro T. unfold fire_stop.
  destruct (recorder_at s r) as [rec|];
    [|rewrite rerender_quiet by reflexivity; exact T].
  destruct (stop_queued rec);
    [|rewrite rerender_quiet by reflexivity; exact T].
  match goal with
  | |- context [set_recorders ?v s] =>
      assert (E1 : urls (set_recorders v s) = urls s) by reflexivity;
      assert (C1 : recordedChunksRef (set_recorders v s)
                   = recordedChunksRef s) by reflexivity;
      generalize dependent (set_recorders v s)
  end.
  intros s1 E1 C1.
  assert (Hq : forall x, urls x = urls s -> tidy (rerender (videoUrl s) x)).
  { intros x E. rewrite rerender_quiet.
    - exact (tidy_urls _ _ E T).
    - unfold urls in E. injection E as _ E _. exact E. }
  destruct (onstop rec) as [[[|] chained]|]; [| |exact (Hq s1 E1)].
  - rewrite run_onstop_finalize.
    assert (F : urls (finalized s1)
                = (objectUrls s ++ [(urlCounter s, recordedChunksRef s)],
                   Some (urlCounter s), S (urlCounter s))).
    { rewrite finalized_urls. unfold urls in E1. injection E1 as A B C.
      rewrite A, C, C1. reflexivity. }
    destruct chained as [target|].
    + apply (tidy_rerender_new s _ (recordedChunksRef s) T).
      rewrite setPlaybackState_urls. exact F.
    + exact (tidy_rerender_new s _ (recordedChunksRef s) T F).
  - rewrite run_onstop_discard.
    destruct chained as [target|]; apply Hq.
    + rewrite setPlaybackState_urls, dismantled_urls. exact E1.
    + rewrite dismantled_urls. exact E1.
Qed.

Lemma tidy_dispatch env ev s : tidy s -> tidy (dispatch env ev s).
Proof.
  intro T.
  assert (Hq : urls (handler env ev s) = urls s -> tidy (dispatch env ev s)).
  { intro E. rewrite (dispatch_quiet env ev s E).
    exact (tidy_urls _ _ E T). }
  assert (Hstart : forall record,
             tidy (rerender (videoUrl s) (startPlayback env record s))).
  { intro record.
    destruct (canvasMounted env) eqn:Hc;
      [destruct (context2d env) eqn:Hx|].
    - destruct (tidy_startPlayback env record s Hc Hx T) as (E1 & E2 & _).
      exact (tidy_rerender_none _ _ E1 E2).
    - rewrite startPlayback_unready by auto.
      rewrite rerender_quiet by reflexivity. exact T.
    - rewrite startPlayback_unready by auto.
      rewrite rerender_quiet by reflexivity. exact T. }
  destruct ev as [| | |h ts|r data|r].
  - unfold dispatch, handler.
    destruct (disablePlayback s);
      [rewrite rerender_quiet by reflexivity; exact T|apply Hstart].
  - unfold dispatch, handler.
    destruct (disablePlayback s);
      [rewrite rerender_quiet by reflexivity; exact T|apply Hstart].
  - apply Hq. unfold handler.
    destruct (stop_disabled s); [reflexivity|apply stopPlayback_urls].
  - apply Hq. unfold handler.
    destruct (closure_of h (frameRequests s)); [|reflexivity].
    rewrite renderFrame_urls. reflexivity.
  - apply Hq. unfold handler.
    destruct (recorder_at s r) as [rec|]; [|reflexivity].
    destruct (rec_state rec), (stop_queued rec);
      try reflexivity; apply on_dataavailable_urls.
  - unfold dispatch, handler. apply tidy_fire_stop. exact T.
Qed.

Lemma tidy_reachable env s : reachable env s -> tidy s.
Proof.
  induction 1 as [|s ev _ IH].
  - eapply tidy_urls; [apply mount_urls|].
    split; [reflexivity|discriminate].
  - apply tidy_dispatch. exact IH.
Qed.

(** Between events -- once a handler has run and the page has re-rendered
    -- at most one object URL is alive, and it is the one the page shows. *)
Lemma one_artifact_at_rest env s :
  reachable env s ->
  (List.length (objectUrls s) <= 1)%nat /\
  map fst (objectUrls s)
    = match videoUrl s with Some url => [url] | None => [] end.
Proof.
  intro R. destruct (tidy_reachable env s R) as (Hk & _).
  split; [|exact Hk].
  rewrite <- (length_map fst), Hk. destruct (videoUrl s); simpl; lia.
Qed.

(** C4. Two object URLs alive at once.  A recording is stopped by the user
    and Stop is pressed again before the recorder's stop event: the state is
    [idle] although the first recorder is still stopping.  A second recording
    is started and stopped.  The stop event of the first recorder then makes
    URL 0, which the page shows.  When the stop event of the second recorder
    fires, its handler creates URL 1 while URL 0 is still alive, and leaves
    both alive when it returns; URL 0 is revoked only by the clean-up of the
    re-render that follows.  The next start releases URL 1. *)
Theorem two_artifacts_alive_in_stop_handler :
  let env := browser sample_catalog in
  let s :=
    run env
      [ClickGenerate; ClickStop; ClickStop; ClickGenerate; ClickStop;
       RecorderStopped 0]
      (mount env initial) in
  let created := snd (createObjectURL (recordedChunksRef s) s) in
  let returned := handler env (RecorderStopped 1) s in
  let rendered := dispatch env (RecorderStopped 1) s in
  let restarted := dispatch env ClickPreview rendered in
  videoUrl s = Some 0%nat /\ map fst (objectUrls s) = [0%nat] /\
  map fst (objectUrls created) = [0%nat; 1%nat] /\
  map fst (objectUrls returned) = [0%nat; 1%nat] /\
  videoUrl returned = Some 1%nat /\
  map fst (objectUrls rendered) = [1%nat] /\
  videoUrl rendered = Some 1%nat /\
  objectUrls restarted = [] /\ videoUrl restarted = None.
Proof. cbv zeta. repeat split; lazy; reflexivity. Qed.

(** ** Title card *)

(** The wrap, told as a list of lines with their baselines: a word joins the
    line unless the candidate is wider than the column and the line already
    holds text; then the line is committed as it is and the word opens the
    next one, a line height lower.  The last line is trimmed. *)
Fixpoint wrap_lines (measure : string -> Q) (maxWidth lineHeight : Q)
  (line : string) (y : Q) (words : list string) : list (string * Q) :=
  match words with
  | [] => [(trim line, y)]
  | word :: rest =>
      let candidate := (line ++ word ++ " ")%string in
      if (Qltb maxWidth (measure candidate) && negb (is_empty line))%bool
      then (line, y)
             :: wrap_lines measure maxWidth lineHeight (word ++ " ")%string
                  (y + lineHeight) rest
      else wrap_lines measure maxWidth lineHeight candidate y rest
  end.

(** The wrap as the claim words it: the line is committed whenever the
    candidate is wider than the column. *)
Fixpoint wrap_lines_as_stated (measure : string -> Q) (maxWidth lineHeight : Q)
  (line : string) (y : Q) (words : list string) : list (string * Q) :=
  match words with
  | [] => [(trim line, y)]
  | word :: rest =>
      let candidate := (line ++ word ++ " ")%string in
      if Qltb maxWidth (measure candidate)
      then (line, y)
             :: wrap_lines_as_stated measure maxWidth lineHeight
                  (word ++ " ")%string (y + lineHeight) rest
      else wrap_lines_as_stated measure maxWidth lineHeight candidate y rest
  end.

Definition text_at (x : Q) (line : string * Q) : Cmd :=
  FillText (fst line) x (snd line).

(** The texts a log holds, in order. *)
Fixpoint texts (l : list Cmd) : list string :=
  match l with
  | [] => []
  | FillText t _ _ :: rest => t :: texts rest
  | _ :: rest => texts rest
  end.

Lemma wrap_words_log x maxWidth lineHeight words :
  forall line y p,
    let done :=
      snd (bind (wrap_words x maxWidth lineHeight words (line, y))
             (fun vars => emit (FillText (trim (fst vars)) x (snd vars))) p) in
    log done
    = log p ++
      map (text_at x)
        (wrap_lines (measureText (font p)) maxWidth lineHeight line y words)
    /\ font done = font p /\ savedFonts done = savedFonts p /\
    randomDraws done = randomDraws p.
Proof.
  induction words as [|word rest IH]; intros line y p.
  - cbv zeta. unfold bind, wrap_words, ret, emit. cbn. auto.
  - cbv zeta. cbn [wrap_words wrap_lines]. unfold bind at 1 2.
    unfold wrap_word, bind, current_font. cbn [fst snd].
    destruct (Qltb maxWidth (measureText (font p) (line ++ word ++ " "))
              && negb (is_empty line))%bool eqn:E.
    + unfold emit at 1, ret at 1. cbn [fst snd].
      match goal with
      | |- context [wrap_words _ _ _ rest ?v ?q] =>
          specialize (IH (fst v) (snd v) q)
      end.
      cbv zeta in IH. unfold bind in IH. cbn [fst snd] in IH.
      destruct IH as (I1 & I2 & I3 & I4).
      cbn [log font savedFonts randomDraws] in *.
      split; [rewrite I1, <- app_assoc; reflexivity|].
      split; [exact I2|]. split; [exact I3|exact I4].
    + unfold ret at 1. cbn [fst snd].
      specialize (IH (line ++ word ++ " ")%string y p).
      cbv zeta in IH. unfold bind in IH. exact IH.
Qed.

Lemma wrapText_log text x startY maxWidth lineHeight p :
  let done := snd (wrapText text x startY maxWidth lineHeight p) in
  log done
  = log p ++
    map (text_at x)
      (wrap_lines (measureText (font p)) maxWidth lineHeight "" startY
         (split_on space text))
  /\ font done = font p /\ savedFonts done = savedFonts p /\
  randomDraws done = randomDraws p.
Proof.
  unfold wrapText. cbv zeta.
  exact (wrap_words_log x maxWidth lineHeight (split_on space text)
           ""%string startY p).
Qed.

(** C8, as amended.  The card is drawn between one [save] and one
    [restore] under a single [globalAlpha], the sine of scene progress times
    pi clamped to [0, 1]; panel, title, subtitle and description lines follow
    in that order with nothing else setting the alpha.  The description is
    wrapped word by word: while the line is empty the word joins it whatever
    its width; once the line holds text, the word joins it unless the
    candidate is wider than the column, in which case the line is committed
    and the word opens the next line, 30 lower. *)
Theorem title_card_layout scene sp p :
  let opacity := Math_min 1 (Math_max 0 (Math_sin (sp * Math_PI))) in
  let baseX := width * 0.64 in
  let baseY := 160 in
  let measure := measureText "400 24px var(--font-arabic)" in
  let column := width * 0.24 in
  log (snd (drawTitleCard scene sp p))
  = log p ++
    [SaveState; GlobalAlpha opacity;
     FillStyle (Css "rgba(3, 9, 20, 0.4)");
     FillRect (baseX - 60) (baseY - 50) (width * 0.26) 240;
     FillStyle (Css "rgba(255, 255, 255, 0.85)");
     Font "700 36px var(--font-arabic)";
     FillText (title scene) baseX baseY;
     Font "400 24px var(--font-arabic)";
     FillStyle (Css "rgba(255, 255, 255, 0.75)");
     FillText (subtitle scene) baseX (baseY + 42)] ++
    map (text_at baseX)
      (wrap_lines measure column 30 "" (baseY + 90)
         (split_on space (description scene))) ++
    [RestoreState] /\
  0 <= opacity /\ opacity <= 1 /\
  (forall y word rest,
     wrap_lines measure column 30 "" y (word :: rest)
     = wrap_lines measure column 30 (word ++ " ")%string y rest) /\
  (forall line y word rest,
     line <> ""%string ->
     wrap_lines measure column 30 line y (word :: rest)
     = if Qltb column (measure (line ++ word ++ " ")%string)
       then (line, y)
              :: wrap_lines measure column 30 (word ++ " ")%string (y + 30) rest
       else wrap_lines measure column 30 (line ++ word ++ " ")%string y rest).
Proof.
  cbv zeta. split; [|split; [|split; [|split]]].
  - unfold drawTitleCard, title_opacity. cbv zeta.
    unfold bind. cbn [save emit set_font fst snd log font savedFonts randomDraws].
    match goal with
    | |- context [wrapText ?t ?x ?y ?w ?h ?q] =>
        destruct (wrapText_log t x y w h q) as (W1 & _);
        destruct (wrapText t x y w h q) as [u done]
    end.
    cbn [fst snd log font] in W1.
    unfold restore. cbn [snd log]. rewrite W1.
    repeat rewrite <- app_assoc. reflexivity.
  - unfold Math_min, Math_max. apply Q.min_glb; [discriminate|].
    apply Q.le_max_l.
  - unfold Math_min. apply Q.le_min_l.
  - intros y word rest. cbn [wrap_lines is_empty negb].
    rewrite andb_false_r. reflexivity.
  - intros line y word rest Hline. cbn [wrap_lines].
    destruct line; [congruence|]. cbn [is_empty negb].
    rewrite andb_true_r. reflexivity.
Qed.

(** ** Determinism of the compositor *)

(** Two surfaces that received the same calls and are in the same font
    state; how many random numbers were drawn before is left out. *)
Definition same_canvas (p q : Painter) : Prop :=
  log p = log q /\ font p = font q /\ savedFonts p = savedFonts q.

(** A drawing computation is steady when its result and the canvas it leaves
    depend on the canvas it found and on nothing else, and it draws no
    random number. *)
Definition steady {A} (m : Draw A) : Prop :=
  forall p q, same_canvas p q ->
    fst (m p) = fst (m q) /\ same_canvas (snd (m p)) (snd (m q)) /\
    randomDraws (snd (m p)) = randomDraws p.

Lemma same_canvas_refl p : same_canvas p p.
Proof. repeat split. Qed.

Lemma same_canvas_sym p q : same_canvas p q -> same_canvas q p.
Proof. intros (A & B & C). repeat split; congruence. Qed.

Lemma steady_ret {A} (a : A) : steady (ret a).
Proof. intros p q H. cbn. auto. Qed.

Lemma steady_bind {A B} (m : Draw A) (k : A -> Draw B) :
  steady m -> (forall a, steady (k a)) -> steady (bind m k).
Proof.
  intros Hm Hk p q H. unfold bind.
  destruct (Hm p q H) as (E & S & R).
  destruct (m p) as [a p'], (m q) as [b q']. cbn [fst snd] in *. subst b.
  destruct (Hk a p' q' S) as (E' & S' & R').
  split; [exact E'|]. split; [exact S'|congruence].
Qed.

Lemma steady_emit c : steady (emit c).
Proof.
  intros p q (A & B & C). unfold emit, same_canvas. cbn.
  repeat split; congruence.
Qed.

Lemma steady_save : steady save.
Proof.
  intros p q (A & B & C). unfold save, same_canvas. cbn.
  repeat split; congruence.
Qed.

Lemma steady_restore : steady restore.
Proof.
  intros p q (A & B & C). unfold restore, same_canvas. cbn.
  rewrite A, B, C. repeat split; reflexivity.
Qed.

Lemma steady_set_font f : steady (set_font f).
Proof.
  intros p q (A & B & C). unfold set_font, same_canvas. cbn.
  repeat split; congruence.
Qed.

Lemma steady_current_font : steady current_font.
Proof.
  intros p q (A & B & C). unfold current_font, same_canvas. cbn.
  repeat split; congruence.
Qed.

Lemma steady_for_count n body :
  (forall i, steady (body i)) -> forall i, steady (for_count n i body).
Proof.
  intro Hb. induction n as [|n IH]; intro i; cbn [for_count].
  - apply steady_ret.
  - apply steady_bind; [apply Hb|]. intros _. apply IH.
Qed.

Lemma steady_for_upto n body :
  (forall i, steady (body i)) -> steady (for_upto n body).
Proof. intro Hb. apply steady_for_count. exact Hb. Qed.

Lemma steady_for_while budget limit step body :
  (forall x, steady (body x)) ->
  forall x, steady (for_while budget x limit step body).
Proof.
  intro Hb. induction budget as [|n IH]; intro x; cbn [for_while].
  - apply steady_ret.
  - destruct (Qle_bool x limit); [|apply steady_ret].
    apply steady_bind; [apply Hb|]. intros _. apply IH.
Qed.

Lemma steady_forEach {A} (l : list A) body :
  (forall a i, steady (body a i)) -> steady (forEach l body).
Proof.
  intro Hb. unfold forEach. generalize 0%nat.
  induction l as [|a l IH]; intro i; cbn [forEach_from].
  - apply steady_ret.
  - apply steady_bind; [apply Hb|]. intros _. apply IH.
Qed.

Ltac steady_step :=
  lazymatch goal with
  | |- steady (bind _ _) => apply steady_bind; [|intros ?]
  | |- steady (for_upto _ _) => apply steady_for_upto; intros ?
  | |- steady (for_while _ _ _ _ _) => apply steady_for_while; intros ?
  | |- steady (forEach _ _) => apply steady_forEach; intros ? ?
  | |- steady (ret _) => apply steady_ret
  | |- steady (emit _) => apply steady_emit
  | |- steady save => apply steady_save
  | |- steady restore => apply steady_restore
  | |- steady (set_font _) => apply steady_set_font
  | |- steady current_font => apply steady_current_font
  | |- steady (if ?c then _ else _) => destruct c
  | |- steady (let (_, _) := ?x in _) => destruct x
  end.

Ltac steady_all := cbv beta zeta; repeat (steady_step; cbv beta zeta).

Lemma steady_drawEarth scene sp gp : steady (drawEarth scene sp gp).
Proof. unfold drawEarth. steady_all. Qed.

Lemma steady_drawAtmosphericRings sp accent :
  steady (drawAtmosphericRings sp accent).
Proof. unfold drawAtmosphericRings. steady_all. Qed.

Lemma steady_drawSunrise sp accent : steady (drawSunrise sp accent).
Proof. unfold drawSunrise. steady_all. Qed.

Lemma steady_drawForestCanopy sp accent : steady (drawForestCanopy sp accent).
Proof. unfold drawForestCanopy. steady_all. Qed.

Lemma steady_drawDesert sp accent : steady (drawDesert sp accent).
Proof. unfold drawDesert. steady_all. Qed.

Lemma steady_drawSea sp accent : steady (drawSea sp accent).
Proof. unfold drawSea. steady_all. Qed.

Lemma steady_drawStarscape sp accent : steady (drawStarscape sp accent).
Proof. unfold drawStarscape. steady_all. Qed.

Lemma steady_wrap_words x maxWidth lineHeight words :
  forall vars, steady (wrap_words x maxWidth lineHeight words vars).
Proof.
  induction words as [|word rest IH]; intro vars; cbn [wrap_words].
  - apply steady_ret.
  - apply steady_bind; [|exact IH].
    unfold wrap_word. destruct vars as [line y].
    intros p q H. unfold bind, current_font. cbn [fst snd].
    destruct H as (A & B & C). rewrite B.
    destruct (Qltb maxWidth (measureText (font q) (line ++ word ++ " "))
              && negb (is_empty line))%bool.
    + unfold emit, ret, same_canvas. cbn. repeat split; congruence.
    + unfold ret, same_canvas. cbn. repeat split; congruence.
Qed.

Lemma steady_wrapText text x startY maxWidth lineHeight :
  steady (wrapText text x startY maxWidth lineHeight).
Proof.
  unfold wrapText. cbv zeta. apply steady_bind.
  - apply steady_wrap_words.
  - intros vars. apply steady_emit.
Qed.

Lemma steady_drawTitleCard scene sp : steady (drawTitleCard scene sp).
Proof.
  unfold drawTitleCard. cbv zeta.
  repeat
    lazymatch goal with
    | |- steady (wrapText _ _ _ _ _) => apply steady_wrapText
    | |- _ => steady_step
    end.
Qed.

(** Every illustration but the city lights is steady and does not look at
    the random stream. *)
Lemma drawIllustration_steady scene sp random1 random2 :
  illustration scene <> cities ->
  drawIllustration random1 scene sp = drawIllustration random2 scene sp /\
  steady (drawIllustration random1 scene sp).
Proof.
  intro H. unfold drawIllustration.
  destruct (illustration scene); try congruence; split; try reflexivity.
  - apply steady_drawSunrise.
  - apply steady_drawForestCanopy.
  - apply steady_drawDesert.
  - apply steady_drawSea.
  - apply steady_drawStarscape.
  - apply steady_ret.
Qed.

Lemma pair_eq_snd {A B} (a c : A) (b d : B) : (a, b) = (c, d) -> b = d.
Proof. intro H. injection H as _ H. exact H. Qed.

Lemma drawScene_steady scene sp gp random1 random2 p q :
  illustration scene <> cities ->
  same_canvas p q ->
  same_canvas (snd (drawScene random1 (Some scene) sp gp p))
    (snd (drawScene random2 (Some scene) sp gp q)) /\
  randomDraws (snd (drawScene random1 (Some scene) sp gp p)) = randomDraws p.
Proof.
  intros Hill Hpq.
  destruct (drawIllustration_steady scene sp random1 random2 Hill) as (E & St).
  destruct (drawScene random1 (Some scene) sp gp p) as [b1 p1] eqn:E1.
  destruct (drawScene random2 (Some scene) sp gp q) as [b2 q1] eqn:E2.
  cbn [snd].
  unfold drawScene in E1, E2. cbv zeta in E1, E2.
  apply pair_eq_snd in E1. apply pair_eq_snd in E2. subst p1 q1.
  rewrite <- E.
  match goal with
  | |- same_canvas (snd (?body p)) _ /\ _ =>
      assert (Hb : steady body)
  end.
  { repeat
      lazymatch goal with
      | |- steady (drawIllustration _ _ _) => exact St
      | |- steady (drawEarth _ _ _) => apply steady_drawEarth
      | |- steady (drawAtmosphericRings _ _) =>
          apply steady_drawAtmosphericRings
      | |- steady (drawTitleCard _ _) => apply steady_drawTitleCard
      | |- _ => steady_step
      end. }
  destruct (Hb p q Hpq) as (_ & S & R). split; assumption.
Qed.

(** Everything the engine holds except the pixels. *)
Definition control (s : Engine) :=
  (animationRef s, startTimeRef s, recorderRef s, recordedChunksRef s,
   streamRef s, playbackState s, activeScene s, videoUrl s,
   (frameRequests s, frameCounter s, recorders s, streams s, objectUrls s,
    urlCounter s, painted s, notified s)).

(** The same world with another stream behind [Math.random]. *)
Definition with_entropy (random : nat -> Q) (env : Env) : Env :=
  {| scenes := scenes env; canvasMounted := canvasMounted env;
     context2d := context2d env; windowDefined := windowDefined env;
     hasMediaRecorder := hasMediaRecorder env;
     captureYields := captureYields env;
     recorderConstructs := recorderConstructs env; entropy := random |}.

Ltac proj_goal :=
  cbn [animationRef startTimeRef recorderRef recordedChunksRef streamRef
       playbackState activeScene videoUrl frameRequests frameCounter recorders
       streams objectUrls urlCounter surface painted notified
       set_animationRef set_startTimeRef set_recorderRef set_recordedChunksRef
       set_streamRef set_playbackState set_activeScene set_videoUrl
       set_frameRequests set_frameCounter set_recorders set_streams
       set_objectUrls set_urlCounter set_surface set_painted set_notified
       fst snd negb].

(** Closes an equation once no case analysis is left in it. *)
Ltac flat :=
  lazymatch goal with
  | |- context [match _ with _ => _ end] => idtac
  | |- _ => reflexivity
  end.

(** The tick neither reads the pixels nor lets the random stream reach
    anything but the pixels. *)
Lemma renderFrame_blind env random pixels a ts s :
  control (renderFrame (with_entropy random env) a ts (set_surface pixels s))
  = control (renderFrame env a ts s).
Proof.
  destruct s as [f1 f2 f3 f4 f5 f6 f7 f8 f9 f10 f11 f12 f13 f14 f15 f16 f17].
  unfold control, renderFrame, paint, clearAnimation, cancelAnimationFrame,
    recorder_running, stopRecorder, and_then, setPlaybackState,
    setActiveScene, requestAnimationFrame, recorder_at, with_entropy.
  cbn [scenes canvasMounted context2d entropy].
  rewrite !drawScene_returned.
  destruct (canvasMounted env), (context2d env); proj_goal; flat.
  destruct f2 as [q|]; proj_goal; cbv zeta; proj_goal.
  all: match goal with
       | |- context [Qle_bool ?x ?y] => destruct (Qle_bool x y)
       end.
  all: try (rewrite (surjective_pairing (locate (scenes env) _));
            destruct (Nat.eqb a _); proj_goal;
            destruct (nth_error (scenes env) _); proj_goal; reflexivity).
  all: destruct (last_scene (scenes env)); proj_goal; flat.
  all: destruct f1; proj_goal; destruct f3 as [r|]; proj_goal; flat.
  all: destruct (nth_error f11 r) as [m|] eqn:En; proj_goal; flat.
  all: destruct (rec_state m); proj_goal; flat.
  all: rewrite !nth_error_replace_same
         by (apply nth_error_Some; congruence);
       proj_goal; flat.
  all: reflexivity.
Qed.

(** C7. Painting the same scene at the same scene progress and global
    progress on two surfaces in the same state leaves them in the same
    state, whatever stream [Math.random] reads and however far it was read,
    for every scene whose illustration is not the city lights; no random
    number is drawn.  For every scene, city lights included, what a tick
    leaves in the engine apart from the pixels depends neither on the random
    stream nor on the pixels it found. *)
Theorem compositor_deterministic :
  (forall scene sp gp random1 random2 p q,
     illustration scene <> cities ->
     same_canvas p q ->
     same_canvas (snd (drawScene random1 (Some scene) sp gp p))
       (snd (drawScene random2 (Some scene) sp gp q)) /\
     randomDraws (snd (drawScene random1 (Some scene) sp gp p))
     = randomDraws p) /\
  (forall env random pixels a ts s,
     control (renderFrame (with_entropy random env) a ts
                (set_surface pixels s))
     = control (renderFrame env a ts s)).
Proof.
  split.
  - intros scene sp gp random1 random2 p q Hill Hpq.
    exact (drawScene_steady scene sp gp random1 random2 p q Hill Hpq).
  - exact renderFrame_blind.
Qed.

(* ========================================================================= *)
(** * Further properties of the engine *)

Ltac fields s :=
  let f1 := fresh "animation" in
  let f2 := fresh "clock" in
  let f3 := fresh "recorder" in
  let f4 := fresh "chunks" in
  let f5 := fresh "stream" in
  let f6 := fresh "state" in
  let f7 := fresh "active" in
  let f8 := fresh "url" in
  let f9 := fresh "requests" in
  let f10 := fresh "counter" in
  let f11 := fresh "table" in
  let f12 := fresh "tracks" in
  let f13 := fresh "alive" in
  let f14 := fresh "minted" in
  let f15 := fresh "pixels" in
  let f16 := fresh "frames" in
  let f17 := fresh "calls" in
  destruct s as [f1 f2 f3 f4 f5 f6 f7 f8 f9 f10 f11 f12 f13 f14 f15 f16 f17].

Ltac proj_all :=
  cbn [animationRef startTimeRef recorderRef recordedChunksRef streamRef
       playbackState activeScene videoUrl frameRequests frameCounter recorders
       streams objectUrls urlCounter surface painted notified
       set_animationRef set_startTimeRef set_recorderRef set_recordedChunksRef
       set_streamRef set_playbackState set_activeScene set_videoUrl
       set_frameRequests set_frameCounter set_recorders set_streams
       set_objectUrls set_urlCounter set_surface set_painted set_notified
       fst snd negb same_handle input rec_state onstop stop_queued
       finalize settle] in *.

Lemma nth_error_snoc {A} (l : list A) (a : A) :
  nth_error (l ++ [a]) (List.length l) = Some a.
Proof. rewrite nth_error_app2, Nat.sub_diag by lia. reflexivity. Qed.

Lemma replace_nth_snoc {A} (l : list A) (a b : A) :
  replace_nth (List.length l) b (l ++ [a]) = l ++ [b].
Proof. induction l as [|x l IH]; simpl; [reflexivity|]. f_equal. exact IH. Qed.

(** The requests left once the one held in [animationRef] is cancelled. *)
Definition standing_requests (s : Engine) : list (nat * nat) :=
  match animationRef s with
  | Some handle =>
      filter (fun request => negb (Nat.eqb (fst request) handle))
        (frameRequests s)
  | None => frameRequests s
  end.

(** X1. Starting a preview with the canvas in place: the state is [playing],
    the clock is unset, no artifact is shown, the request held before is
    cancelled and exactly one new request is added, for a closure that
    captured the scene indicated at the click; the capture session is not
    touched. *)
Theorem preview_start env s :
  canvasMounted env = true -> context2d env = true ->
  let s' := startPlayback env false s in
  playbackState s' = playing /\ startTimeRef s' = None /\
  videoUrl s' = None /\
  animationRef s' = Some (frameCounter s) /\
  frameRequests s' = standing_requests s ++ [(frameCounter s, activeScene s)] /\
  frameCounter s' = S (frameCounter s) /\
  same_session s s' /\ activeScene s' = activeScene s /\
  painted s' = painted s.
Proof.
  intros Hc Hx. fields s.
  unfold startPlayback, clearAnimation, cancelAnimationFrame, setVideoUrl,
    revokeObjectURL, setPlaybackState, requestAnimationFrame, same_session,
    standing_requests.
  rewrite Hc, Hx. cbv zeta. proj_all.
  destruct animation, url; proj_all; repeat split; reflexivity.
Qed.

Lemma cleared_requests s :
  frameRequests (cleared s) = standing_requests s /\
  frameCounter (cleared s) = frameCounter s.
Proof.
  fields s.
  unfold cleared, halted, clearAnimation, cancelAnimationFrame, setVideoUrl,
    revokeObjectURL, standing_requests.
  destruct animation, url; proj_goal; split; reflexivity.
Qed.

(** The recorder and the stream a successful recording start creates. *)
Definition started_recorder (s : Engine) : MediaRecorder :=
  {| input := List.length (streams s); rec_state := recording;
     onstop := None; stop_queued := false |}.

(** X2. Starting a recording where the browser offers everything: the state
    is [rendering]; a new stream with a live track and a new recorder on it
    are created and held by the two refs, the recorder is recording, the
    chunk buffer is empty, no artifact is shown and exactly one frame is
    requested. *)
Theorem recording_start env s :
  canvasMounted env = true -> context2d env = true ->
  windowDefined env = true -> hasMediaRecorder env = true ->
  captureYields env = true -> recorderConstructs env = true ->
  let s' := startPlayback env true s in
  playbackState s' = rendering /\ startTimeRef s' = None /\
  videoUrl s' = None /\
  recorderRef s' = Some (List.length (recorders s)) /\
  recorders s' = recorders s ++ [started_recorder s] /\
  streamRef s' = Some (List.length (streams s)) /\
  streams s' = streams s ++ [true] /\
  recordedChunksRef s' = [] /\
  session_live s' (List.length (recorders s)) (started_recorder s) /\
  animationRef s' = Some (frameCounter s) /\
  frameRequests s' = standing_requests s ++ [(frameCounter s, activeScene s)].
Proof.
  intros Hc Hx Hw Hm Hy Hn.
  destruct (cleared_facts s)
    as (_ & _ & Ht & (_ & S2 & _ & S4 & _) & _ & Hv & _).
  destruct (cleared_requests s) as (R1 & R2).
  unfold startPlayback. rewrite Hc, Hx. cbn [negb]. cbv zeta.
  fold (halted s). fold (cleared s).
  unfold session_live, recorder_at, started_recorder.
  rewrite <- S2, <- S4, <- R1, <- R2.
  revert Ht Hv. generalize (activeScene s) as a. generalize (cleared s) as c.
  clear - Hc Hw Hm Hy Hn. intros c a Ht Hv. fields c. proj_all. subst.
  unfold initialiseRecorder, captureStream, newMediaRecorder.
  rewrite Hc, Hw, Hm, Hy, Hn. cbn [negb]. proj_goal.
  unfold setPlaybackState, start_recorder, recorder_at. proj_goal.
  rewrite nth_error_snoc. proj_all.
  unfold requestAnimationFrame. proj_goal.
  rewrite replace_nth_snoc, nth_error_snoc.
  repeat split; try reflexivity. discriminate.
Qed.
(** [startPlayback(true)] where [initialiseRecorder] returns [false] without
    reporting an error: no [window], or [captureStream] yields nothing. *)
Lemma startPlayback_refused env s :
  canvasMounted env = true -> context2d env = true ->
  windowDefined env = false \/
  (hasMediaRecorder env = true /\ captureYields env = false) ->
  startPlayback env true s = cleared s.
Proof.
  intros Hc Hx H. unfold startPlayback, initialiseRecorder, captureStream.
  rewrite Hc, Hx. cbn [negb]. cbv zeta. fold (halted s). fold (cleared s).
  destruct H as [Hw | (Hm & Hy)].
  - rewrite Hw. reflexivity.
  - rewrite Hm, Hy. destruct (windowDefined env); reflexivity.
Qed.

(** X3. When the recording cannot start and the code does not report it --
    no [window], or [captureStream] yields nothing -- the click still
    cancels the frame loop, unsets the clock and drops the artifact shown,
    and leaves the playback state as it was: no error is signalled, no frame
    is requested and no capture session is made. *)
Theorem capture_refused_silently env s :
  canvasMounted env = true -> context2d env = true ->
  windowDefined env = false \/
  (hasMediaRecorder env = true /\ captureYields env = false) ->
  let s' := startPlayback env true s in
  playbackState s' = playbackState s /\
  animationRef s' = None /\ startTimeRef s' = None /\ videoUrl s' = None /\
  frameRequests s' = standing_requests s /\
  same_session s s' /\ urlCounter s' = urlCounter s.
Proof.
  intros Hc Hx H. cbv zeta. rewrite (startPlayback_refused env s Hc Hx H).
  destruct (cleared_facts s) as (A & _ & T & S & P & V & U & _).
  destruct (cleared_requests s) as (R & _).
  repeat split; try assumption; apply S.
Qed.
(** ** Events whose handler leaves the URLs alone *)

Lemma dispatch_stop env s :
  dispatch env ClickStop s = if stop_disabled s then s else stopPlayback s.
Proof.
  apply dispatch_quiet. unfold handler.
  destruct (stop_disabled s); [reflexivity|apply stopPlayback_urls].
Qed.

Lemma dispatch_tick env h ts s :
  dispatch env (AnimationFrame h ts) s
  = match closure_of h (frameRequests s) with
    | Some closure =>
        renderFrame env closure ts (cancelAnimationFrame h s)
    | None => s
    end.
Proof.
  apply dispatch_quiet. unfold handler.
  destruct (closure_of h (frameRequests s)); [|reflexivity].
  rewrite renderFrame_urls. reflexivity.
Qed.

Lemma dispatch_data env r data s :
  dispatch env (DataAvailable r data) s
  = match recorder_at s r with
    | Some rec =>
        match rec_state rec, stop_queued rec with
        | inactive, false => s
        | _, _ => on_dataavailable data s
        end
    | None => s
    end.
Proof.
  apply dispatch_quiet. unfold handler.
  destruct (recorder_at s r) as [rec|]; [|reflexivity].
  destruct (rec_state rec), (stop_queued rec);
    try reflexivity; apply on_dataavailable_urls.
Qed.

(** ** Chunks *)

(** The chunks that [ondataavailable] pushes, out of the events delivered. *)
Fixpoint kept (datas : list (option Blob)) : list Blob :=
  match datas with
  | [] => []
  | Some blob :: rest =>
      if Nat.ltb 0 (size blob) then blob :: kept rest else kept rest
  | None :: rest => kept rest
  end.

Lemma kept_app a b : kept (a ++ b) = kept a ++ kept b.
Proof.
  induction a as [|[blob|] a IH]; simpl; [reflexivity| |exact IH].
  destruct (Nat.ltb 0 (size blob)); simpl; rewrite IH; reflexivity.
Qed.

(** A recorder that still delivers data: recording or paused, or stopped with
    its stop event yet to fire. *)
Definition delivering (rec : MediaRecorder) : Prop :=
  rec_state rec <> inactive \/ stop_queued rec = true.

Lemma data_events env r rec datas :
  delivering rec ->
  forall s,
    recorder_at s r = Some rec ->
    run env (map (DataAvailable r) datas) s
    = set_recordedChunksRef (recordedChunksRef s ++ kept datas) s.
Proof.
  intros Hd. induction datas as [|data rest IH]; intros s Hrec.
  - fields s. unfold run. simpl. unfold set_recordedChunksRef. proj_goal.
    rewrite app_nil_r. reflexivity.
  - unfold run in *. cbn [map fold_left]. rewrite dispatch_data, Hrec.
    assert (E : match rec_state rec, stop_queued rec with
                | inactive, false => s
                | _, _ => on_dataavailable data s
                end = on_dataavailable data s).
    { destruct Hd as [Hd | Hd].
      - destruct (rec_state rec); [congruence|reflexivity|reflexivity].
      - rewrite Hd. destruct (rec_state rec); reflexivity. }
    rewrite E. clear E.
    fields s. unfold recorder_at in *. proj_all.
    unfold on_dataavailable.
    destruct data as [blob|]; cbn [kept];
      [destruct (Nat.ltb 0 (size blob))|]; proj_goal;
      rewrite IH by exact Hrec;
      unfold set_recordedChunksRef; proj_goal;
      rewrite <- ?app_assoc; reflexivity.
Qed.

(** X5. From a live session in the rendering state: the chunks delivered
    before Stop is pressed and those delivered between [recorder.stop()] and
    the stop event all reach the artifact, in order of arrival and without
    the empty ones. The state stays [rendering] until the stop event has
    fired, and the buffer is empty afterwards. *)
Theorem stop_collects_chunks env s r rec before after :
  session_live s r rec -> playbackState s = rendering ->
  let s1 := run env (map (DataAvailable r) before) s in
  let s2 := dispatch env ClickStop s1 in
  let s3 := run env (map (DataAvailable r) after) s2 in
  let s4 := dispatch env (RecorderStopped r) s3 in
  playbackState s3 = rendering /\
  recordedChunksRef s3 = recordedChunksRef s ++ kept before ++ kept after /\
  playbackState s4 = idle /\
  videoUrl s4 = Some (urlCounter s) /\
  In (urlCounter s, recordedChunksRef s ++ kept before ++ kept after)
     (objectUrls s4) /\
  recordedChunksRef s4 = [] /\ recorderRef s4 = None /\ streamRef s4 = None.
Proof.
  intros L Hp s1 s2 s3 s4.
  assert (Hd : delivering rec) by (left; apply L).
  assert (E1 : s1 = set_recordedChunksRef
                      (recordedChunksRef s ++ kept before) s)
    by exact (data_events env r rec before Hd s (proj1 (proj2 L))).
  assert (L1 : session_live s1 r rec) by (rewrite E1; exact L).
  assert (P1 : playbackState s1 = rendering) by (rewrite E1; exact Hp).
  assert (C1 : recordedChunksRef s1 = recordedChunksRef s ++ kept before)
    by (rewrite E1; reflexivity).
  assert (U1 : urlCounter s1 = urlCounter s) by (rewrite E1; reflexivity).
  clearbody s1. clear E1.
  (* Stop *)
  destruct (halted_facts s1) as (_ & _ & _ & Hs & (_ & _ & Hu) & Hps & _).
  pose proof (session_live_same _ _ _ _ Hs L1) as Lh.
  assert (E2 : s2 = set_recorders
                      (replace_nth r (stopping rec true (Some idle))
                         (recorders (halted s1))) (halted s1)).
  { unfold s2. rewrite dispatch_stop. unfold stop_disabled. rewrite P1.
    rewrite (stopPlayback_rendering s1 P1).
    exact (stop_then_live (halted s1) r rec idle Lh). }
  assert (Hat : recorder_at s2 r = Some (stopping rec true (Some idle))).
  { rewrite E2.
    exact (recorder_at_stopping (halted s1) r rec (Some idle)
             (proj1 (proj2 Lh))). }
  destruct (set_recorders_facts
              (replace_nth r (stopping rec true (Some idle))
                 (recorders (halted s1))) (halted s1))
    as (_ & G1 & _ & _ & G2 & _ & _ & G3 & _).
  rewrite <- E2 in G1, G2, G3.
  destruct Hs as (_ & _ & _ & _ & Hch).
  clearbody s2. clear E2.
  (* the data delivered while the recorder stops *)
  assert (Hd2 : delivering (stopping rec true (Some idle)))
    by (right; reflexivity).
  assert (E3 : s3 = set_recordedChunksRef
                      (recordedChunksRef s2 ++ kept after) s2)
    by exact (data_events env r _ after Hd2 s2 Hat).
  assert (Hat3 : recorder_at s3 r = Some (stopping rec true (Some idle)))
    by (rewrite E3; exact Hat).
  assert (P3 : playbackState s3 = rendering)
    by (rewrite E3; cbn; congruence).
  assert (C3 : recordedChunksRef s3
               = recordedChunksRef s ++ kept before ++ kept after).
  { rewrite E3. cbn. rewrite G3, Hch, C1, <- app_assoc. reflexivity. }
  assert (U3 : urlCounter s3 = urlCounter s)
    by (rewrite E3; cbn; congruence).
  clearbody s3. clear E3.
  split; [exact P3|]. split; [exact C3|].
  (* the stop event, and the re-render *)
  unfold s4, dispatch, handler.
  destruct (fire_stop_stopping s3 s3 r rec idle Hat3 eq_refl eq_refl eq_refl)
    as (mid & E & M1 & M2 & _ & _ & M5 & M6 & M7).
  rewrite E. rewrite U3 in M1, M2. rewrite C3 in M2.
  destruct (settled_facts idle mid) as (S1 & S2 & S3 & _ & S5 & S6).
  assert (S7 : recordedChunksRef (setPlaybackState idle mid)
               = recordedChunksRef mid) by reflexivity.
  rewrite <- S2 in M1. rewrite <- S3 in M2.
  rewrite <- S5 in M5. rewrite <- S6 in M6. rewrite <- S7 in M7.
  remember (setPlaybackState idle mid) as settled eqn:Es. clear Es.
  destruct (rerender_facts (videoUrl s3) settled)
    as (R1 & _ & R3 & _ & _ & _ & _ & (R4 & _ & R5 & _ & R6) & _).
  rewrite R3, R1, R4, R5, R6.
  split; [exact S1|]. split; [exact M1|]. split.
  - unfold rerender. destruct (same_handle (videoUrl s3) (videoUrl settled))
      eqn:Eh; [exact M2|].
    destruct (videoUrl s3) as [u|]; [|exact M2].
    unfold revokeObjectURL. cbn [objectUrls set_objectUrls].
    apply filter_In. split; [exact M2|]. cbn [fst].
    rewrite M1 in Eh. cbn [same_handle] in Eh.
    rewrite Nat.eqb_sym, Eh. reflexivity.
  - split; [exact M7|]. split; [exact M5|exact M6].
Qed.
(** ** The frame loop *)

(** The request the component holds and the requests pending. *)
Definition loop (s : Engine) : option nat * list (nat * nat) :=
  (animationRef s, frameRequests s).

Lemma renderFrame_loop env a ts s :
  loop (renderFrame env a ts s) = loop s \/
  loop (renderFrame env a ts s) = (None, standing_requests s) \/
  loop (renderFrame env a ts s)
  = (Some (frameCounter s), frameRequests s ++ [(frameCounter s, a)]).
Proof.
  fields s.
  unfold loop, standing_requests, renderFrame, paint, clearAnimation,
    cancelAnimationFrame, recorder_running, stopRecorder, and_then,
    setPlaybackState, setActiveScene, requestAnimationFrame, recorder_at.
  proj_goal.
  rewrite !drawScene_returned.
  destruct (canvasMounted env), (context2d env); proj_goal;
    try (left; reflexivity).
  destruct clock as [q|]; proj_goal; cbv zeta; proj_goal.
  all: match goal with
       | |- context [Qle_bool ?x ?y] => destruct (Qle_bool x y)
       end.
  all: try (rewrite (surjective_pairing (locate (scenes env) _));
            destruct (Nat.eqb a _); proj_goal;
            destruct (nth_error (scenes env) _); proj_goal;
            first [left; reflexivity | right; right; reflexivity]).
  all: destruct (last_scene (scenes env)); proj_goal;
    try (left; reflexivity).
  all: destruct animation; proj_goal; destruct recorder as [r|]; proj_goal;
    try first [left; reflexivity | right; left; reflexivity].
  all: destruct (nth_error table r) as [m|] eqn:En; proj_goal;
    try first [left; reflexivity | right; left; reflexivity].
  all: destruct (rec_state m); proj_goal;
    try first [left; reflexivity | right; left; reflexivity].
  all: rewrite !nth_error_replace_same by (apply nth_error_Some; congruence);
    proj_goal; first [left; reflexivity | right; left; reflexivity].
Qed.
Lemma replace_nth_twice {A} (l : list A) (i : nat) (a b : A) :
  replace_nth i a (replace_nth i b l) = replace_nth i a l.
Proof.
  revert i. induction l as [|x l IH]; intros [|i]; simpl; try reflexivity.
  f_equal. apply IH.
Qed.

(** What a tick does to the capture session and the playback state: nothing;
    or, at the end of the timeline, [completed] at once when no recorder
    runs; or the stop of the recorder that runs, the state left as it is. *)
Definition tick_outcome (s s' : Engine) : Prop :=
  (recorders s' = recorders s /\ playbackState s' = playbackState s) \/
  (recorders s' = recorders s /\ playbackState s' = completed /\
   recorder_running s = false) \/
  (exists r rec,
     session_live s r rec /\
     recorders s'
     = replace_nth r (stopping rec true (Some completed)) (recorders s) /\
     playbackState s' = playbackState s).

Lemma renderFrame_session env a ts s :
  let s' := renderFrame env a ts s in
  recorderRef s' = recorderRef s /\ streamRef s' = streamRef s /\
  streams s' = streams s /\ recordedChunksRef s' = recordedChunksRef s /\
  tick_outcome s s'.
Proof.
  fields s. cbv zeta. unfold tick_outcome, session_live.
  match goal with
  | |- context [recorder_running ?e] =>
      remember (recorder_running e) as running eqn:Er
  end.
  unfold recorder_running in Er.
  unfold renderFrame, paint, clearAnimation, cancelAnimationFrame,
    recorder_running, stopRecorder, and_then, setPlaybackState,
    setActiveScene, requestAnimationFrame, recorder_at, stopping in *.
  proj_all.
  rewrite !drawScene_returned.
  destruct (canvasMounted env), (context2d env); proj_goal;
    try (repeat split; left; split; reflexivity).
  destruct clock as [q|]; proj_goal; cbv zeta; proj_goal.
  all: match goal with
       | |- context [Qle_bool ?x ?y] => destruct (Qle_bool x y)
       end.
  all: try (rewrite (surjective_pairing (locate (scenes env) _));
            destruct (Nat.eqb a _); proj_goal;
            destruct (nth_error (scenes env) _); proj_goal;
            repeat split; left; split; reflexivity).
  all: destruct (last_scene (scenes env)); proj_goal;
    try (repeat split; left; split; reflexivity).
  all: destruct animation; proj_goal; destruct recorder as [r|]; proj_goal;
    try (subst running; repeat split; right; left; repeat split; reflexivity).
  all: destruct (nth_error table r) as [m|] eqn:En; proj_goal;
    try (subst running; repeat split; right; left; repeat split; reflexivity).
  all: destruct (rec_state m) eqn:Es; proj_goal;
    try (subst running; repeat split; right; left; repeat split; reflexivity).
  all: rewrite !nth_error_replace_same by (apply nth_error_Some; congruence);
    proj_goal; cbn [input rec_state onstop stop_queued finalize settle].
  all: do 4 (split; [reflexivity|]); right; right; exists r, m;
    (split; [split; [reflexivity|split; [exact En|congruence]]|]);
    (split; [|reflexivity]).
  all: apply replace_nth_twice.
Qed.
Lemma mount_loop env s :
  loop (mount env s) = loop s /\ same_session s (mount env s) /\
  playbackState (mount env s) = playbackState s /\
  (activeScene (mount env s) = activeScene s \/ activeScene (mount env s) = 0%nat).
Proof.
  fields s. unfold loop, same_session, mount, paint, setActiveScene.
  rewrite !drawScene_returned.
  destruct (canvasMounted env), (context2d env); proj_goal;
    try (repeat split; left; reflexivity).
  destruct (nth_error (scenes env) 0); proj_goal;
    repeat split; first [left; reflexivity | right; reflexivity].
Qed.

Lemma stopPlayback_loop s :
  loop (stopPlayback s) = (None, standing_requests s) /\
  activeScene (stopPlayback s) = activeScene s.
Proof.
  fields s.
  unfold loop, standing_requests, stopPlayback, clearAnimation,
    cancelAnimationFrame, stopRecorder, and_then, setPlaybackState,
    recorder_at.
  cbv zeta. proj_goal.
  destruct animation; proj_goal; destruct state; proj_goal;
    try (split; reflexivity).
  all: destruct recorder as [r|]; proj_goal; try (split; reflexivity).
  all: destruct (nth_error table r) as [m|] eqn:En; proj_goal;
    try (split; reflexivity).
  all: destruct (rec_state m); proj_goal; try (split; reflexivity).
  all: rewrite !nth_error_replace_same by (apply nth_error_Some; congruence);
    proj_goal; split; reflexivity.
Qed.

Lemma run_onstop_loop h s :
  loop (run_onstop h s) = loop s /\
  activeScene (run_onstop h s) = activeScene s /\
  recorderRef (run_onstop h s) = None /\ streamRef (run_onstop h s) = None /\
  recorders (run_onstop h s) = recorders s /\
  List.length (streams (run_onstop h s)) = List.length (streams s).
Proof.
  fields s. destruct h as [finalizing chained].
  unfold loop, run_onstop, createObjectURL, setVideoUrl, revokeObjectURL,
    stopTracks, setPlaybackState.
  cbv zeta. cbn [finalize settle]. proj_goal.
  destruct finalizing; proj_goal.
  - destruct url; cbn [same_handle]; proj_goal;
      try destruct (Nat.eqb _ _); proj_goal;
      destruct stream; proj_goal; destruct chained; proj_goal;
      rewrite ?length_replace_nth; repeat split; reflexivity.
  - destruct stream; proj_goal; destruct chained; proj_goal;
      rewrite ?length_replace_nth; repeat split; reflexivity.
Qed.

Lemma fire_stop_loop r s :
  loop (fire_stop r s) = loop s /\
  activeScene (fire_stop r s) = activeScene s.
Proof.
  unfold fire_stop.
  destruct (recorder_at s r) as [m|]; [|split; reflexivity].
  destruct (stop_queued m); [|split; reflexivity].
  destruct (onstop m) as [h|]; [|split; reflexivity].
  destruct (run_onstop_loop h
              (set_recorders
                 (replace_nth r
                    {| input := input m; rec_state := rec_state m;
                       onstop := Some h; stop_queued := false |}
                    (recorders s)) s)) as (A & B & _).
  split; [exact A|exact B].
Qed.
(** What a start leaves of the capture session and the playback state:
    either the session as it was, with possibly one more stream, or a new
    session on a new stream in the rendering state. *)
Definition start_outcome (record : bool) (s s' : Engine) : Prop :=
  (recorderRef s' = recorderRef s /\ streamRef s' = streamRef s /\
   recorders s' = recorders s /\
   (exists more, streams s' = streams s ++ more) /\
   recordedChunksRef s' = recordedChunksRef s /\
   (playbackState s' = playbackState s \/ playbackState s' = error \/
    (record = false /\ playbackState s' = playing))) \/
  (recorderRef s' = Some (List.length (recorders s)) /\
   recorders s' = recorders s ++ [started_recorder s] /\
   streamRef s' = Some (List.length (streams s)) /\
   streams s' = streams s ++ [true] /\
   playbackState s' = rendering).

Lemma startPlayback_outcome env record s :
  let s' := startPlayback env record s in
  activeScene s' = activeScene s /\
  (loop s' = loop s \/
   loop s' = (None, standing_requests s) \/
   loop s'
   = (Some (frameCounter s),
      standing_requests s ++ [(frameCounter s, activeScene s)])) /\
  start_outcome record s s'.
Proof.
  assert (Same : forall s0 : Engine, start_outcome record s0 s0).
  { intro s0. left. repeat split; try reflexivity.
    - exists []. rewrite app_nil_r. reflexivity.
    - left. reflexivity. }
  cbv zeta.
  destruct (canvasMounted env) eqn:Hc;
    [|rewrite (startPlayback_unready env record s (or_introl Hc));
      split; [reflexivity|split; [left; reflexivity|apply Same]]].
  destruct (context2d env) eqn:Hx;
    [|rewrite (startPlayback_unready env record s (or_intror Hx));
      split; [reflexivity|split; [left; reflexivity|apply Same]]].
  clear Same.
  destruct (cleared_facts s)
    as (Ha & _ & _ & (S1 & S2 & S3 & S4 & S5) & Hp & _ & _ & Hact & _).
  destruct (cleared_requests s) as (R1 & R2).
  unfold startPlayback. rewrite Hc, Hx. cbn [negb]. cbv zeta.
  fold (halted s). fold (cleared s).
  unfold start_outcome, started_recorder, loop.
  rewrite <- S1, <- S2, <- S3, <- S4, <- S5, <- R1, <- R2, <- Hp, <- Hact.
  revert Ha. generalize (cleared s) as c.
  clear - Hc. intros c Ha. fields c. proj_all. subst animation.
  destruct record.
  - unfold initialiseRecorder. rewrite Hc. cbn [negb].
    destruct (windowDefined env); cbn [negb];
      [|split; [reflexivity|split; [right; left; reflexivity|]];
        left; repeat split; try reflexivity;
        [exists []; rewrite app_nil_r; reflexivity|left; reflexivity]].
    destruct (hasMediaRecorder env); cbn [negb];
      [|unfold setPlaybackState; proj_goal;
        split; [reflexivity|split; [right; left; reflexivity|]];
        left; repeat split; try reflexivity;
        [exists []; rewrite app_nil_r; reflexivity|right; left; reflexivity]].
    unfold captureStream.
    destruct (captureYields env); proj_goal;
      [|split; [reflexivity|split; [right; left; reflexivity|]];
        left; repeat split; try reflexivity;
        [exists []; rewrite app_nil_r; reflexivity|left; reflexivity]].
    destruct (recorderConstructs env); cbn [negb];
      [|unfold setPlaybackState; proj_goal;
        split; [reflexivity|split; [right; left; reflexivity|]];
        left; repeat split; try reflexivity;
        [exists [true]; reflexivity|right; left; reflexivity]].
    unfold newMediaRecorder. proj_goal.
    unfold setPlaybackState, start_recorder, recorder_at. proj_goal.
    rewrite nth_error_snoc. proj_all.
    unfold requestAnimationFrame. proj_goal.
    rewrite replace_nth_snoc.
    split; [reflexivity|split; [right; right; reflexivity|]].
    right. repeat split; reflexivity.
  - unfold setPlaybackState, requestAnimationFrame. proj_goal.
    split; [reflexivity|split; [right; right; reflexivity|]].
    left. repeat split; try reflexivity.
    + exists []. rewrite app_nil_r. reflexivity.
    + right. right. split; reflexivity.
Qed.
(** At most one request is pending, and it is the one [animationRef]
    holds. *)
Definition one_loop (s : Engine) : Prop :=
  frameRequests s = [] \/
  exists h closure,
    animationRef s = Some h /\ frameRequests s = [(h, closure)].

Lemma one_loop_of s s' :
  loop s' = loop s -> one_loop s -> one_loop s'.
Proof.
  unfold loop, one_loop. intros [= E1 E2]. rewrite E1, E2. auto.
Qed.

Lemma one_loop_standing s : one_loop s -> standing_requests s = [].
Proof.
  unfold one_loop, standing_requests.
  intros [E | (h & closure & Ea & E)]; rewrite E.
  - destruct (animationRef s); reflexivity.
  - rewrite Ea. simpl. rewrite Nat.eqb_refl. reflexivity.
Qed.

Lemma one_loop_cancelled s s' :
  loop s' = (None, standing_requests s) -> one_loop s -> one_loop s'.
Proof.
  intros [= E1 E2] H. left. rewrite E2. apply one_loop_standing, H.
Qed.

Lemma one_loop_requested s s' closure :
  loop s'
  = (Some (frameCounter s), standing_requests s ++ [(frameCounter s, closure)]) ->
  one_loop s -> one_loop s'.
Proof.
  intros [= E1 E2] H. right. exists (frameCounter s), closure.
  rewrite E1, E2, (one_loop_standing s H). split; reflexivity.
Qed.

Lemma one_loop_fired s h closure :
  one_loop s -> closure_of h (frameRequests s) = Some closure ->
  loop (cancelAnimationFrame h s) = (Some h, []).
Proof.
  unfold one_loop, loop, cancelAnimationFrame.
  intros [E | (h' & closure' & Ea & E)] Hc; rewrite E in Hc; simpl in Hc;
    [discriminate|].
  destruct (Nat.eqb h' h) eqn:Eh; [|discriminate].
  apply Nat.eqb_eq in Eh. subst h'.
  cbn [animationRef frameRequests set_frameRequests]. rewrite Ea, E.
  simpl. rewrite Nat.eqb_refl. reflexivity.
Qed.

Lemma one_loop_handler env ev s : one_loop s -> one_loop (handler env ev s).
Proof.
  intro H. destruct ev as [| | |h ts|r data|r]; unfold handler.
  - destruct (disablePlayback s); [exact H|].
    destruct (startPlayback_outcome env false s) as (_ & [E|[E|E]] & _).
    + exact (one_loop_of _ _ E H).
    + exact (one_loop_cancelled _ _ E H).
    + exact (one_loop_requested _ _ _ E H).
  - destruct (disablePlayback s); [exact H|].
    destruct (startPlayback_outcome env true s) as (_ & [E|[E|E]] & _).
    + exact (one_loop_of _ _ E H).
    + exact (one_loop_cancelled _ _ E H).
    + exact (one_loop_requested _ _ _ E H).
  - destruct (stop_disabled s); [exact H|].
    exact (one_loop_cancelled _ _ (proj1 (stopPlayback_loop s)) H).
  - destruct (closure_of h (frameRequests s)) as [closure|] eqn:Ec;
      [|exact H].
    pose proof (one_loop_fired s h closure H Ec) as Ef.
    assert (H0 : one_loop (cancelAnimationFrame h s)).
    { left. injection Ef as _ E. exact E. }
    assert (Hst : standing_requests (cancelAnimationFrame h s) = [])
      by exact (one_loop_standing _ H0).
    remember (cancelAnimationFrame h s) as s0 eqn:E0. clear E0.
    destruct (renderFrame_loop env closure ts s0) as [E|[E|E]].
    + exact (one_loop_of _ _ E H0).
    + exact (one_loop_cancelled _ _ E H0).
    + right. exists (frameCounter s0), closure.
      injection Ef as _ Ef. injection E as E1 E2.
      rewrite E1, E2, Ef. split; reflexivity.
  - destruct (recorder_at s r) as [m|]; [|exact H].
    unfold on_dataavailable.
    destruct (rec_state m), (stop_queued m), data as [blob|];
      try exact H; destruct (Nat.ltb 0 (size blob)); exact H.
  - exact (one_loop_of _ _ (proj1 (fire_stop_loop r s)) H).
Qed.

Lemma one_loop_dispatch env ev s : one_loop s -> one_loop (dispatch env ev s).
Proof.
  intro H. unfold dispatch.
  destruct (rerender_facts (videoUrl s) (handler env ev s))
    as (_ & _ & _ & A & B & _).
  apply (one_loop_of (handler env ev s)).
  - unfold loop. rewrite A, B. reflexivity.
  - apply one_loop_handler. exact H.
Qed.

Lemma reachable_run env events :
  forall s, reachable env s -> reachable env (run env events s).
Proof.
  unfold run. induction events as [|ev events IH]; intros s R; simpl.
  - exact R.
  - apply IH, reach_event, R.
Qed.

Lemma one_loop_reachable env s : reachable env s -> one_loop s.
Proof.
  induction 1 as [|s ev _ IH].
  - apply (one_loop_of initial); [exact (proj1 (mount_loop env initial))|].
    left. reflexivity.
  - apply one_loop_dispatch. exact IH.
Qed.

Lemma preview_requests env s :
  canvasMounted env = true -> context2d env = true ->
  frameRequests (startPlayback env false s)
  = standing_requests s ++ [(frameCounter s, activeScene s)].
Proof.
  intros Hc Hx. fields s.
  unfold startPlayback, clearAnimation, cancelAnimationFrame, setVideoUrl,
    revokeObjectURL, setPlaybackState, requestAnimationFrame,
    standing_requests.
  rewrite Hc, Hx. cbv zeta. proj_all.
  destruct animation, url; proj_all; reflexivity.
Qed.

(** X6. In every state the mounted component can reach, at most one
    animation frame is requested, and the handle of a requested frame is the
    one [animationRef] holds: two render loops never run side by side. A
    preview started in such a state leaves exactly one frame requested, its
    own. *)
Theorem single_frame_loop env s :
  reachable env s ->
  (List.length (frameRequests s) <= 1)%nat /\
  (forall h closure,
     In (h, closure) (frameRequests s) -> animationRef s = Some h) /\
  (canvasMounted env = true -> context2d env = true ->
   frameRequests (startPlayback env false s)
   = [(frameCounter s, activeScene s)]).
Proof.
  intro R. pose proof (one_loop_reachable env s R) as L. split; [|split].
  - destruct L as [E | (h & c & Ea & E)]; rewrite E; simpl; lia.
  - destruct L as [E | (h & c & Ea & E)]; rewrite E.
    + intros ? ? [].
    + intros h' c' [[= <- <-]|[]]. exact Ea.
  - intros Hc Hx.
    rewrite (preview_requests env s Hc Hx), (one_loop_standing s L).
    reflexivity.
Qed.

(** X7. Stop, pressed in any reachable state where the button is enabled,
    leaves no animation frame requested: whatever frame event arrives
    afterwards finds no callback and changes nothing. *)
Theorem stop_halts_loop env s :
  reachable env s -> playbackState s <> idle ->
  let s' := dispatch env ClickStop s in
  animationRef s' = None /\ frameRequests s' = [] /\
  forall h ts, dispatch env (AnimationFrame h ts) s' = s'.
Proof.
  intros R Hp s'.
  assert (E : loop s' = (None, [])).
  { unfold s'. rewrite dispatch_stop. unfold stop_disabled.
    destruct (playbackState s) eqn:Ep; try congruence;
      rewrite (proj1 (stopPlayback_loop s)),
        (one_loop_standing s (one_loop_reachable env s R)); reflexivity. }
  injection E as E1 E2. split; [exact E1|]. split; [exact E2|].
  intros h ts. clearbody s'. rewrite dispatch_tick, E2. reflexivity.
Qed.
(** ** The capture session *)

(** The two refs of a session go together: both are unset, or the recorder
    held exists and records the stream held, which exists. *)
Definition paired (s : Engine) : Prop :=
  match recorderRef s with
  | None => streamRef s = None
  | Some r =>
      exists rec,
        recorder_at s r = Some rec /\ streamRef s = Some (input rec) /\
        (input rec < List.length (streams s))%nat
  end.

Definition coherent (s : Engine) : Prop :=
  paired s /\ (recorder_running s = true -> playbackState s = rendering).

Lemma coherent_none s :
  recorderRef s = None -> streamRef s = None -> coherent s.
Proof.
  intros Hr Hs. unfold coherent, paired, recorder_running. rewrite Hr.
  split; [exact Hs|discriminate].
Qed.

Lemma coherent_same s s' :
  recorderRef s' = recorderRef s -> recorders s' = recorders s ->
  streamRef s' = streamRef s ->
  (exists more, streams s' = streams s ++ more) ->
  playbackState s' = playbackState s \/ recorder_running s = false ->
  coherent s -> coherent s'.
Proof.
  intros Hr Ht Hs (more & Hm) Hp (P & K).
  unfold coherent, paired, recorder_running, recorder_at in *.
  rewrite Hr, Ht, Hs, Hm. split.
  - destruct (recorderRef s) as [r|]; [|exact P].
    destruct P as (rec & P1 & P2 & P3). exists rec.
    rewrite length_app. repeat split; try assumption. lia.
  - intro H. destruct Hp as [Hp|Hp]; [rewrite Hp; exact (K H)|congruence].
Qed.

Lemma coherent_replaced s s' r e m :
  recorder_at s r = Some m -> input e = input m ->
  rec_state e = rec_state m \/ rec_state e = inactive ->
  recorderRef s' = recorderRef s -> streamRef s' = streamRef s ->
  streams s' = streams s ->
  recorders s' = replace_nth r e (recorders s) ->
  playbackState s' = playbackState s ->
  coherent s -> coherent s'.
Proof.
  intros Hm Hi He Hr Hs Hst Ht Hp (P & K).
  assert (Hlen : (r < List.length (recorders s))%nat).
  { apply nth_error_Some. unfold recorder_at in Hm. congruence. }
  unfold coherent, paired, recorder_running, recorder_at in *.
  rewrite Hr, Hs, Hst, Ht, Hp.
  destruct (recorderRef s) as [r0|]; [|split; [exact P|discriminate]].
  destruct (Nat.eq_dec r r0) as [<-|Hne].
  - rewrite (nth_error_replace_same _ _ _ Hlen).
    destruct P as (rec & P1 & P2 & P3).
    assert (rec = m) by congruence. subst rec. split.
    + exists e. rewrite Hi. repeat split; assumption.
    + rewrite Hm in K.
      destruct He as [He|He]; rewrite He; [exact K|discriminate].
  - rewrite (nth_error_replace_other _ _ _ _ Hne). split; assumption.
Qed.

Lemma recorder_running_live s :
  recorder_running s = true -> exists r rec, session_live s r rec.
Proof.
  unfold recorder_running, session_live.
  destruct (recorderRef s) as [r|]; [|discriminate].
  destruct (recorder_at s r) as [rec|] eqn:E; [|discriminate].
  intro H. exists r, rec.
  split; [reflexivity|]. split; [exact E|].
  destruct (rec_state rec); congruence.
Qed.

Lemma stopRecorder_idle finalizing s :
  recorder_running s = false -> stopRecorder finalizing s = (Resolved, s).
Proof.
  unfold recorder_running, stopRecorder.
  destruct (recorderRef s) as [r|]; [|reflexivity].
  destruct (recorder_at s r) as [rec|]; [|reflexivity].
  destruct (rec_state rec); [reflexivity|discriminate|discriminate].
Qed.

Lemma coherent_stopPlayback s : coherent s -> coherent (stopPlayback s).
Proof.
  intro H.
  destruct (halted_facts s) as (_ & _ & _ & Hs & _ & Hp & _).
  assert (Hh : coherent (halted s)).
  { destruct Hs as (S1 & S2 & S3 & S4 & _).
    apply (coherent_same s); try assumption.
    - exists []. rewrite app_nil_r. exact S4.
    - left. exact Hp. }
  assert (Hrun : playbackState (halted s) <> rendering ->
                 recorder_running (halted s) = false).
  { intro Hn. destruct (recorder_running (halted s)) eqn:E; [|reflexivity].
    elim Hn. exact (proj2 Hh E). }
  assert (D : playbackState s = rendering \/ playbackState s <> rendering)
    by (destruct (playbackState s);
        first [left; reflexivity | right; discriminate]).
  destruct D as [Hr|Hr].
  - rewrite (stopPlayback_rendering s Hr).
    remember (halted s) as s1 eqn:E1. clear E1 Hs.
    destruct (recorder_running s1) eqn:Erun.
    + destruct (recorder_running_live s1 Erun) as (r & rec & L).
      rewrite (stop_then_live s1 r rec idle L).
      apply (coherent_replaced s1 _ r (stopping rec true (Some idle)) rec);
        try reflexivity; try assumption.
      * apply L.
      * right. reflexivity.
    + rewrite (stopRecorder_idle true s1 Erun). cbn [fst snd and_then].
      apply (coherent_same s1); try reflexivity; try assumption.
      * exists []. rewrite app_nil_r. reflexivity.
      * right. exact Erun.
  - rewrite (stopPlayback_otherwise s Hr).
    apply (coherent_same (halted s)); try reflexivity; try assumption.
    + exists []. rewrite app_nil_r. reflexivity.
    + right. apply Hrun. congruence.
Qed.
Lemma coherent_startPlayback env record s :
  disablePlayback s = false -> coherent s ->
  coherent (startPlayback env record s).
Proof.
  intros Hd H.
  assert (Hrun : recorder_running s = false).
  { destruct (recorder_running s) eqn:E; [|reflexivity].
    unfold disablePlayback in Hd. rewrite (proj2 H E) in Hd. discriminate. }
  destruct (startPlayback_outcome env record s) as (_ & _ & [O|O]).
  - destruct O as (O1 & O2 & O3 & O4 & _ & _).
    apply (coherent_same s); try assumption. right. exact Hrun.
  - destruct O as (O1 & O2 & O3 & O4 & O5).
    unfold coherent, paired, recorder_running, recorder_at.
    rewrite O1, O2, O3, O4, O5, nth_error_snoc. split.
    + exists (started_recorder s). split; [reflexivity|].
      split; [reflexivity|].
      unfold started_recorder. cbn [input]. rewrite length_app. simpl. lia.
    + reflexivity.
Qed.

Lemma coherent_renderFrame env a ts s :
  coherent s -> coherent (renderFrame env a ts s).
Proof.
  intro H.
  destruct (renderFrame_session env a ts s) as (T1 & T2 & T3 & _ & O).
  destruct O as [(O1 & O2)|[(O1 & O2 & O3)|(r & rec & L & O1 & O2)]].
  - apply (coherent_same s); try assumption.
    + exists []. rewrite app_nil_r. exact T3.
    + left. exact O2.
  - apply (coherent_same s); try assumption.
    + exists []. rewrite app_nil_r. exact T3.
    + right. exact O3.
  - apply (coherent_replaced s _ r (stopping rec true (Some completed)) rec);
      try assumption; try reflexivity.
    + apply L.
    + right. reflexivity.
Qed.

Lemma coherent_fire_stop r s : coherent s -> coherent (fire_stop r s).
Proof.
  intro H. unfold fire_stop.
  destruct (recorder_at s r) as [m|] eqn:Em; [|exact H].
  destruct (stop_queued m); [|exact H].
  destruct (onstop m) as [h|].
  - destruct (run_onstop_loop h
                (set_recorders
                   (replace_nth r
                      {| input := input m; rec_state := rec_state m;
                         onstop := Some h; stop_queued := false |}
                      (recorders s)) s)) as (_ & _ & A & B & _).
    exact (coherent_none _ A B).
  - apply (coherent_replaced s _ r
             {| input := input m; rec_state := rec_state m;
                onstop := None; stop_queued := false |} m);
      try reflexivity; try assumption.
    left. reflexivity.
Qed.

Lemma coherent_handler env ev s : coherent s -> coherent (handler env ev s).
Proof.
  intro H. destruct ev as [| | |h ts|r data|r]; unfold handler.
  - destruct (disablePlayback s) eqn:Hd; [exact H|].
    exact (coherent_startPlayback env false s Hd H).
  - destruct (disablePlayback s) eqn:Hd; [exact H|].
    exact (coherent_startPlayback env true s Hd H).
  - destruct (stop_disabled s); [exact H|].
    exact (coherent_stopPlayback s H).
  - destruct (closure_of h (frameRequests s)) as [closure|]; [|exact H].
    apply coherent_renderFrame.
    apply (coherent_same s); try reflexivity; try assumption.
    + exists []. rewrite app_nil_r. reflexivity.
    + left. reflexivity.
  - destruct (recorder_at s r) as [m|]; [|exact H].
    assert (Hd : coherent (on_dataavailable data s)).
    { unfold on_dataavailable. destruct data as [blob|]; [|exact H].
      destruct (Nat.ltb 0 (size blob)); [|exact H].
      apply (coherent_same s); try reflexivity; try assumption.
      - exists []. rewrite app_nil_r. reflexivity.
      - left. reflexivity. }
    destruct (rec_state m), (stop_queued m); assumption.
  - exact (coherent_fire_stop r s H).
Qed.

Lemma coherent_dispatch env ev s : coherent s -> coherent (dispatch env ev s).
Proof.
  intro H. unfold dispatch.
  destruct (rerender_facts (videoUrl s) (handler env ev s))
    as (_ & _ & P & _ & _ & _ & _ & (S1 & S2 & S3 & S4 & _) & _).
  apply (coherent_same (handler env ev s)); try assumption.
  - exists []. rewrite app_nil_r. exact S4.
  - left. exact P.
  - apply coherent_handler. exact H.
Qed.

Lemma coherent_reachable env s : reachable env s -> coherent s.
Proof.
  induction 1 as [|s ev _ IH].
  - destruct (mount_loop env initial) as (_ & (S1 & S2 & S3 & S4 & _) & Hp & _).
    apply (coherent_same initial); try assumption.
    + exists []. rewrite app_nil_r. exact S4.
    + left. exact Hp.
    + apply coherent_none; reflexivity.
  - apply coherent_dispatch. exact IH.
Qed.

(** X8. In every state the mounted component can reach, [recorderRef] and
    [streamRef] are set together and cleared together; when set, the
    recorder held exists and the stream held is the one it records. *)
Theorem session_refs_paired env s :
  reachable env s ->
  (recorderRef s = None <-> streamRef s = None) /\
  (forall r, recorderRef s = Some r ->
     exists rec,
       recorder_at s r = Some rec /\ streamRef s = Some (input rec) /\
       (input rec < List.length (streams s))%nat).
Proof.
  intro R. destruct (coherent_reachable env s R) as (P & _).
  unfold paired in P. destruct (recorderRef s) as [r|].
  - destruct P as (rec & P1 & P2 & P3). split.
    + rewrite P2. split; discriminate.
    + intros r' [= <-]. exists rec. repeat split; assumption.
  - split; [split; [intros _; exact P|reflexivity]|discriminate].
Qed.

(** X9. In every state the mounted component can reach, the recorder held in
    [recorderRef] is recording or paused only in the rendering state: in no
    other state does the component hold a recorder that still captures. *)
Theorem recorder_runs_only_while_rendering env s :
  reachable env s ->
  recorder_running s = true -> playbackState s = rendering.
Proof.
  intros R. exact (proj2 (coherent_reachable env s R)).
Qed.
(** ** The scene indicated *)

Lemma scan_index elapsed rest :
  forall i cumulative,
    snd (scan elapsed rest i cumulative) = 0%nat \/
    (i <= snd (scan elapsed rest i cumulative) < i + List.length rest)%nat.
Proof.
  induction rest as [|scene rest IH]; intros i cumulative; simpl.
  - left. reflexivity.
  - destruct (Qltb elapsed (cumulative + duration scene * 1000)); simpl.
    + right. lia.
    + destruct (IH (S i) (cumulative + duration scene * 1000)) as [E|E];
        [left; exact E|right; lia].
Qed.

Lemma locate_in_range (l : list SceneCue) (e : Q) :
  l <> [] -> (snd (locate l e) < List.length l)%nat.
Proof.
  intro H. unfold locate.
  destruct (scan_index e l 0 0) as [E|E]; [|lia].
  rewrite E. destruct l; [congruence|simpl; lia].
Qed.

Lemma renderFrame_active env a ts s :
  activeScene (renderFrame env a ts s) = activeScene s \/
  exists e, activeScene (renderFrame env a ts s) = snd (locate (scenes env) e).
Proof.
  fields s.
  unfold renderFrame, paint, clearAnimation, cancelAnimationFrame,
    recorder_running, stopRecorder, and_then, setPlaybackState,
    setActiveScene, requestAnimationFrame, recorder_at.
  proj_goal.
  rewrite !drawScene_returned.
  destruct (canvasMounted env), (context2d env); proj_goal;
    try (left; reflexivity).
  destruct clock as [q|]; proj_goal; cbv zeta; proj_goal.
  all: match goal with
       | |- context [Qle_bool ?x ?y] => destruct (Qle_bool x y)
       end.
  all: try (rewrite (surjective_pairing (locate (scenes env) _));
            destruct (Nat.eqb a _); proj_goal;
            destruct (nth_error (scenes env) _); proj_goal;
            first [left; reflexivity | right; eexists; reflexivity]).
  all: destruct (last_scene (scenes env)); proj_goal;
    try (left; reflexivity).
  all: destruct animation; proj_goal; destruct recorder as [r|]; proj_goal;
    try (left; reflexivity).
  all: destruct (nth_error table r) as [m|] eqn:En; proj_goal;
    try (left; reflexivity).
  all: destruct (rec_state m); proj_goal; try (left; reflexivity).
  all: rewrite !nth_error_replace_same by (apply nth_error_Some; congruence);
    proj_goal; left; reflexivity.
Qed.

Lemma active_dispatch env ev s :
  scenes env <> [] ->
  (activeScene s < List.length (scenes env))%nat ->
  (activeScene (dispatch env ev s) < List.length (scenes env))%nat.
Proof.
  intros Hne H. unfold dispatch.
  destruct (rerender_facts (videoUrl s) (handler env ev s))
    as (_ & _ & _ & _ & _ & _ & _ & _ & A & _).
  rewrite A. clear A.
  destruct ev as [| | |h ts|r data|r]; unfold handler.
  - destruct (disablePlayback s); [exact H|].
    rewrite (proj1 (startPlayback_outcome env false s)). exact H.
  - destruct (disablePlayback s); [exact H|].
    rewrite (proj1 (startPlayback_outcome env true s)). exact H.
  - destruct (stop_disabled s); [exact H|].
    rewrite (proj2 (stopPlayback_loop s)). exact H.
  - destruct (closure_of h (frameRequests s)) as [closure|]; [|exact H].
    destruct (renderFrame_active env closure ts (cancelAnimationFrame h s))
      as [E|(e & E)]; rewrite E; [exact H|].
    apply locate_in_range, Hne.
  - destruct (recorder_at s r) as [m|]; [|exact H].
    unfold on_dataavailable.
    destruct (rec_state m), (stop_queued m), data as [blob|];
      try exact H; destruct (Nat.ltb 0 (size blob)); exact H.
  - rewrite (proj2 (fire_stop_loop r s)). exact H.
Qed.

(** X10. With a catalog that is not empty, the scene the component indicates
    is always a scene of the catalog, in every state it can reach: what it
    hands to the facts panel as [scenes[activeScene]] is never [undefined]. *)
Theorem active_scene_in_catalog env s :
  scenes env <> [] -> reachable env s ->
  exists scene, nth_error (scenes env) (activeScene s) = Some scene.
Proof.
  intros Hne R.
  assert (H : (activeScene s < List.length (scenes env))%nat).
  { induction R as [|s ev _ IH].
    - destruct (mount_loop env initial) as (_ & _ & _ & [E|E]); rewrite E;
        simpl; destruct (scenes env); try congruence; simpl; lia.
    - apply active_dispatch; assumption. }
  destruct (nth_error (scenes env) (activeScene s)) as [scene|] eqn:E.
  - exists scene. reflexivity.
  - apply nth_error_None in E. lia.
Qed.
(** ** No canvas *)

(** X11. Where the canvas is not mounted, or gives no 2D context, nothing
    the user or the browser does changes the component: every state it can
    reach is the initial one -- idle, first scene indicated, nothing
    painted, no frame requested, no session, no artifact. *)
Theorem without_canvas_nothing_happens env s :
  canvasMounted env = false \/ context2d env = false ->
  reachable env s -> s = initial.
Proof.
  intros H R. induction R as [|s ev _ IH].
  - unfold mount. destruct H as [H|H]; rewrite H; cbn [negb];
      [|destruct (canvasMounted env)]; reflexivity.
  - rewrite IH. unfold dispatch.
    assert (E : handler env ev initial = initial).
    { destruct ev as [| | |h ts|r data|r]; unfold handler.
      - cbn [disablePlayback initial playbackState].
        apply startPlayback_unready, H.
      - cbn [disablePlayback initial playbackState].
        apply startPlayback_unready, H.
      - reflexivity.
      - reflexivity.
      - unfold recorder_at. cbn [initial recorders].
        destruct r; reflexivity.
      - unfold fire_stop, recorder_at. cbn [initial recorders].
        destruct r; reflexivity. }
    rewrite E. reflexivity.
Qed.
(** ** Unmounting *)

Lemma teardown_urls s :
  urls (teardown s)
  = (match videoUrl s with
     | Some url => filter (other_than url) (objectUrls s)
     | None => objectUrls s
     end, videoUrl s, urlCounter s).
Proof.
  fields s.
  unfold urls, teardown, clearAnimation, cancelAnimationFrame, stopRecorder,
    revokeObjectURL, recorder_at, other_than.
  cbv zeta. proj_goal.
  destruct animation; proj_goal; destruct recorder as [r|]; proj_goal;
    try (destruct url; reflexivity).
  all: destruct (nth_error table r) as [m|]; proj_goal;
    try (destruct url; reflexivity).
  all: destruct (rec_state m); proj_goal; destruct url; reflexivity.
Qed.

(** X12. Unmounting in any state the component can reach leaves no object
    URL alive: the one shown, if any, is revoked, and none is made. *)
Theorem unmount_leaves_no_url env s :
  reachable env s ->
  objectUrls (teardown s) = [] /\ urlCounter (teardown s) = urlCounter s.
Proof.
  intro R. destruct (tidy_reachable env s R) as (Hk & _).
  pose proof (teardown_urls s) as E. unfold urls in E.
  injection E as E1 _ E3. rewrite E1, E3. split; [|reflexivity].
  destruct (videoUrl s) as [url|].
  - exact (filter_sole url _ Hk).
  - destruct (objectUrls s); [reflexivity|discriminate].
Qed.
(* ========================================================================= *)
(** * The timeline panel

    [src/app/components/SceneTimeline.tsx]: the checkpoints it derives from
    the catalog and the two percentages that place a segment on the track. *)

(** [scenes.map((scene) => { const start = cumulative;
     cumulative += scene.duration * 1000; return { start, end: cumulative } })] *)
Fixpoint checkpoints_from (cumulative : Q) (scenes : list SceneCue)
  : list (Q * Q) :=
  match scenes with
  | [] => []
  | scene :: rest =>
      let start := cumulative in
      let cumulative := cumulative + duration scene * 1000 in
      (start, cumulative) :: checkpoints_from cumulative rest
  end.

Definition checkpoints (scenes : list SceneCue) : list (Q * Q) :=
  checkpoints_from 0 scenes.

(** [Math.round]: the nearest integer, halves upwards. *)
Definition Math_round (x : Q) : Z := Qfloor (x + (1 # 2)).

(** [Math.round((start / totalDurationMs) * 100)] *)
Definition position (totalDurationMs start : Q) : Z :=
  Math_round ((start / totalDurationMs) * 100).

(** [Math.round(((end - start) / totalDurationMs) * 100)] *)
Definition segment_width (totalDurationMs start finish : Q) : Z :=
  Math_round (((finish - start) / totalDurationMs) * 100).

Lemma checkpoints_from_length cumulative l :
  List.length (checkpoints_from cumulative l) = List.length l.
Proof.
  revert cumulative. induction l as [|scene l IH]; intro c; simpl;
    [reflexivity|]. rewrite IH. reflexivity.
Qed.

Lemma checkpoints_from_nth rest :
  forall pre i scene,
    nth_error rest i = Some scene ->
    nth_error (checkpoints_from (totalDurationMs pre) rest) i
    = Some (totalDurationMs (pre ++ firstn i rest),
            totalDurationMs (pre ++ firstn i rest) + duration scene * 1000).
Proof.
  induction rest as [|sc rest IH]; intros pre [|i] scene H; simpl in *;
    try discriminate.
  - injection H as <-. rewrite app_nil_r. reflexivity.
  - rewrite <- total_snoc. rewrite (IH (pre ++ [sc]) i scene H).
    rewrite <- app_assoc. reflexivity.
Qed.

Lemma checkpoints_nth l i scene :
  nth_error l i = Some scene ->
  nth_error (checkpoints l) i
  = Some (window_start l i, window_start l (S i)).
Proof.
  intro H. unfold checkpoints.
  rewrite (window_start_succ l i scene H).
  exact (checkpoints_from_nth l [] i scene H).
Qed.

(** X13. The checkpoints tile the timeline: one per scene, the first starts
    at 0, each lasts its scene's duration in milliseconds and ends where the
    next starts, and the last ends at the total duration the studio
    computes. *)
Theorem timeline_checkpoints_tile l :
  List.length (checkpoints l) = List.length l /\
  (forall first, nth_error (checkpoints l) 0 = Some first -> fst first = 0) /\
  (forall i scene c,
     nth_error l i = Some scene -> nth_error (checkpoints l) i = Some c ->
     snd c = fst c + duration scene * 1000) /\
  (forall i c next,
     nth_error (checkpoints l) i = Some c ->
     nth_error (checkpoints l) (S i) = Some next -> snd c = fst next) /\
  (forall final,
     nth_error (checkpoints l) (List.length l - 1) = Some final ->
     snd final = totalDurationMs l).
Proof.
  assert (Hlen : List.length (checkpoints l) = List.length l)
    by apply checkpoints_from_length.
  assert (Hsome : forall i c, nth_error (checkpoints l) i = Some c ->
                    exists scene, nth_error l i = Some scene).
  { intros i c H. destruct (nth_error l i) as [scene|] eqn:E.
    - exists scene. reflexivity.
    - apply nth_error_None in E.
      assert (nth_error (checkpoints l) i <> None) by congruence.
      apply nth_error_Some in H0. lia. }
  split; [exact Hlen|]. split; [|split; [|split]].
  - intros first H. destruct (Hsome _ _ H) as (scene & Hs).
    rewrite (checkpoints_nth l 0 scene Hs) in H. injection H as <-.
    reflexivity.
  - intros i scene c Hs H.
    rewrite (checkpoints_nth l i scene Hs) in H. injection H as <-.
    exact (window_start_succ l i scene Hs).
  - intros i c next H Hn.
    destruct (Hsome _ _ H) as (scene & Hs).
    destruct (Hsome _ _ Hn) as (scene' & Hs').
    rewrite (checkpoints_nth l i scene Hs) in H.
    rewrite (checkpoints_nth l (S i) scene' Hs') in Hn.
    injection H as <-. injection Hn as <-. reflexivity.
  - intros final H. destruct (Hsome _ _ H) as (scene & Hs).
    rewrite (checkpoints_nth l _ scene Hs) in H. injection H as <-.
    cbn [snd]. unfold window_start.
    assert (Hl : (List.length l - 1 < List.length l)%nat).
    { apply nth_error_Some. congruence. }
    replace (S (List.length l - 1)) with (List.length l) by lia.
    rewrite firstn_all. reflexivity.
Qed.

(** X14. The panel and the frame loop agree: for an elapsed time within the
    timeline, the index the tick selects -- the one the panel is handed as
    active -- is the index of the checkpoint that contains the elapsed time,
    and the tick's [cumulative] is that checkpoint's start. *)
Theorem active_segment_contains_elapsed l e :
  0 <= e -> e < totalDurationMs l ->
  exists start finish,
    nth_error (checkpoints l) (snd (locate l e)) = Some (start, finish) /\
    fst (locate l e) = start /\ start <= e /\ e < finish.
Proof.
  intros Hlo Hhi.
  destruct (locate_finds l e Hlo Hhi) as (i & scene & E & Hs & H1 & H2).
  exists (window_start l i), (window_start l (S i)).
  rewrite E. cbn [fst snd].
  split; [exact (checkpoints_nth l i scene Hs)|].
  split; [reflexivity|]. split; [exact H1|].
  rewrite (window_start_succ l i scene Hs). exact H2.
Qed.

Lemma Math_round_percent (x : Q) :
  0 <= x -> x <= 100 -> (0 <= Math_round x <= 100)%Z.
Proof.
  intros Hlo Hhi. unfold Math_round. split.
  - change 0%Z with (Qfloor (0 + (1 # 2))).
    apply Qfloor_resp_le. lra.
  - change 100%Z with (Qfloor (100 + (1 # 2))).
    apply Qfloor_resp_le. lra.
Qed.

Lemma percent_of_part (part whole : Q) :
  0 < whole -> 0 <= part -> part <= whole ->
  0 <= (part / whole) * 100 /\ (part / whole) * 100 <= 100.
Proof.
  intros Hw Hlo Hhi.
  assert (H0 : 0 <= part / whole).
  { apply Qle_shift_div_l; [exact Hw|]. lra. }
  assert (H1 : part / whole <= 1).
  { apply Qle_shift_div_r; [exact Hw|]. lra. }
  split; lra.
Qed.

(** X15. With positive durations, the two percentages that place a segment
    on the track -- its left edge and its width, rounded -- both lie between
    0 and 100. *)
Theorem timeline_percentages l i start finish :
  durations_positive l ->
  nth_error (checkpoints l) i = Some (start, finish) ->
  (0 <= position (totalDurationMs l) start <= 100)%Z /\
  (0 <= segment_width (totalDurationMs l) start finish <= 100)%Z.
Proof.
  intros Hpos H.
  assert (Hi : (i < List.length l)%nat).
  { rewrite <- (checkpoints_from_length 0 l). apply nth_error_Some.
    unfold checkpoints in H. congruence. }
  destruct (nth_error l i) as [scene|] eqn:Hs;
    [|apply nth_error_None in Hs; lia].
  rewrite (checkpoints_nth l i scene Hs) in H. injection H as <- <-.
  assert (H0 : 0 <= window_start l i)
    by exact (window_start_mono l 0 i Hpos (Nat.le_0_l i)).
  assert (H1 : window_start l i < window_start l (S i)).
  { rewrite (window_start_succ l i scene Hs).
    assert (0 < duration scene) by (apply Hpos; eapply nth_error_In; eauto).
    lra. }
  assert (H2 : window_start l (S i) <= totalDurationMs l).
  { pose proof (window_start_mono l (S i) (List.length l) Hpos Hi) as M.
    unfold window_start at 2 in M. rewrite firstn_all in M. exact M. }
  unfold position, segment_width. split; apply Math_round_percent;
    apply percent_of_part; lra.
Qed.
(* ========================================================================= *)
(** * The context a frame leaves behind *)

(** The surface only received more calls. *)
Definition extends (p p' : Painter) : Prop :=
  exists cmds, log p' = log p ++ cmds.

(** A drawing computation that leaves the stack of saved states as it found
    it; one that also leaves the font; and one that pops the state saved
    last. *)
Definition level {A} (m : Draw A) : Prop :=
  forall p, extends p (snd (m p)) /\ savedFonts (snd (m p)) = savedFonts p.

Definition neutral {A} (m : Draw A) : Prop :=
  forall p,
    extends p (snd (m p)) /\ savedFonts (snd (m p)) = savedFonts p /\
    font (snd (m p)) = font p.

Definition closing {A} (m : Draw A) : Prop :=
  forall p f saved,
    savedFonts p = f :: saved ->
    extends p (snd (m p)) /\ savedFonts (snd (m p)) = saved /\
    font (snd (m p)) = f.

Lemma extends_refl p : extends p p.
Proof. exists []. rewrite app_nil_r. reflexivity. Qed.

Lemma extends_trans p q r : extends p q -> extends q r -> extends p r.
Proof.
  intros (a & A) (b & B). exists (a ++ b). rewrite B, A, app_assoc.
  reflexivity.
Qed.

Lemma extends_one p c f st n :
  extends p {| log := log p ++ [c]; font := f; savedFonts := st;
               randomDraws := n |}.
Proof. exists [c]. reflexivity. Qed.

Lemma neutral_level {A} (m : Draw A) : neutral m -> level m.
Proof. intros H p. destruct (H p) as (E & S & _). split; assumption. Qed.

Lemma neutral_ret {A} (a : A) : neutral (ret a).
Proof. intro p. cbn. split; [apply extends_refl|split; reflexivity]. Qed.

Lemma neutral_emit c : neutral (emit c).
Proof. intro p. cbn. split; [apply extends_one|split; reflexivity]. Qed.

Lemma neutral_current_font : neutral current_font.
Proof. intro p. cbn. split; [apply extends_refl|split; reflexivity]. Qed.

Lemma neutral_Math_random source : neutral (Math_random source).
Proof.
  intro p. cbn. split; [|split; reflexivity].
  exists []. cbn. rewrite app_nil_r. reflexivity.
Qed.

Lemma level_set_font f : level (set_font f).
Proof. intro p. cbn. split; [apply extends_one|reflexivity]. Qed.

Lemma neutral_bind {A B} (m : Draw A) (k : A -> Draw B) :
  neutral m -> (forall a, neutral (k a)) -> neutral (bind m k).
Proof.
  intros Hm Hk p. unfold bind. specialize (Hm p).
  destruct (m p) as [a p1]. cbn [snd] in Hm. destruct Hm as (E1 & S1 & F1).
  destruct (Hk a p1) as (E2 & S2 & F2).
  split; [exact (extends_trans _ _ _ E1 E2)|]. split; congruence.
Qed.

Lemma level_bind {A B} (m : Draw A) (k : A -> Draw B) :
  level m -> (forall a, level (k a)) -> level (bind m k).
Proof.
  intros Hm Hk p. unfold bind. specialize (Hm p).
  destruct (m p) as [a p1]. cbn [snd] in Hm. destruct Hm as (E1 & S1).
  destruct (Hk a p1) as (E2 & S2).
  split; [exact (extends_trans _ _ _ E1 E2)|congruence].
Qed.

Lemma closing_bind {A B} (m : Draw A) (k : A -> Draw B) :
  level m -> (forall a, closing (k a)) -> closing (bind m k).
Proof.
  intros Hm Hk p f saved Hp. unfold bind. specialize (Hm p).
  destruct (m p) as [a p1]. cbn [snd] in Hm. destruct Hm as (E1 & S1).
  rewrite Hp in S1.
  destruct (Hk a p1 f saved S1) as (E2 & S2 & F2).
  split; [exact (extends_trans _ _ _ E1 E2)|]. split; assumption.
Qed.

Lemma closing_restore : closing restore.
Proof.
  intros p f saved Hp. cbn. rewrite Hp.
  split; [apply extends_one|split; reflexivity].
Qed.

Lemma closing_restore_then {B} (k : unit -> Draw B) :
  (forall a, neutral (k a)) -> closing (bind restore k).
Proof.
  intros Hk p f saved Hp. unfold bind, restore. rewrite Hp. cbn [tl].
  match goal with
  | |- context [k tt ?q] => destruct (Hk tt q) as (E & S & F)
  end.
  cbn [fst snd log font savedFonts] in *.
  split; [exact (extends_trans _ _ _ (extends_one p _ _ _ _) E)|].
  split; assumption.
Qed.

Lemma neutral_save {B} (k : unit -> Draw B) :
  (forall a, closing (k a)) -> neutral (bind save k).
Proof.
  intros Hk p. unfold bind, save.
  match goal with
  | |- context [k tt ?q] =>
      destruct (Hk tt q (font p) (savedFonts p) eq_refl) as (E & S & F)
  end.
  cbn [fst snd log font savedFonts] in *.
  split; [exact (extends_trans _ _ _ (extends_one p _ _ _ _) E)|].
  split; assumption.
Qed.

Lemma neutral_for_count n body :
  (forall i, neutral (body i)) -> forall i, neutral (for_count n i body).
Proof.
  intro Hb. induction n as [|n IH]; intro i; cbn [for_count].
  - apply neutral_ret.
  - apply neutral_bind; [apply Hb|]. intros _. apply IH.
Qed.

Lemma neutral_for_upto n body :
  (forall i, neutral (body i)) -> neutral (for_upto n body).
Proof. intro Hb. apply neutral_for_count. exact Hb. Qed.

Lemma neutral_for_while budget limit step body :
  (forall x, neutral (body x)) ->
  forall x, neutral (for_while budget x limit step body).
Proof.
  intro Hb. induction budget as [|n IH]; intro x; cbn [for_while].
  - apply neutral_ret.
  - destruct (Qle_bool x limit); [|apply neutral_ret].
    apply neutral_bind; [apply Hb|]. intros _. apply IH.
Qed.

Lemma neutral_forEach {A} (l : list A) body :
  (forall a i, neutral (body a i)) -> neutral (forEach l body).
Proof.
  intro Hb. unfold forEach. generalize 0%nat.
  induction l as [|a l IH]; intro i; cbn [forEach_from].
  - apply neutral_ret.
  - apply neutral_bind; [apply Hb|]. intros _. apply IH.
Qed.

Ltac balance_step :=
  lazymatch goal with
  | |- neutral (bind save _) => apply neutral_save; intros ?
  | |- neutral (bind _ _) => apply neutral_bind; [|intros ?]
  | |- neutral (for_upto _ _) => apply neutral_for_upto; intros ?
  | |- neutral (for_while _ _ _ _ _) => apply neutral_for_while; intros ?
  | |- neutral (forEach _ _) => apply neutral_forEach; intros ? ?
  | |- neutral (ret _) => apply neutral_ret
  | |- neutral (emit _) => apply neutral_emit
  | |- neutral current_font => apply neutral_current_font
  | |- neutral (Math_random _) => apply neutral_Math_random
  | |- neutral (if ?c then _ else _) => destruct c
  | |- neutral (let (_, _) := ?x in _) => destruct x
  | |- closing (bind restore _) => apply closing_restore_then; intros ?
  | |- closing restore => apply closing_restore
  | |- closing (bind _ _) => apply closing_bind; [|intros ?]
  | |- level (set_font _) => apply level_set_font
  | |- level _ => apply neutral_level
  end.

Ltac balance := cbv beta zeta; repeat (balance_step; cbv beta zeta).

Lemma neutral_drawEarth scene sp gp : neutral (drawEarth scene sp gp).
Proof. unfold drawEarth. balance. Qed.

Lemma neutral_drawAtmosphericRings sp accent :
  neutral (drawAtmosphericRings sp accent).
Proof. unfold drawAtmosphericRings. balance. Qed.

Lemma neutral_drawSunrise progress accent :
  neutral (drawSunrise progress accent).
Proof. unfold drawSunrise. balance. Qed.

Lemma neutral_drawCityLights random progress accent :
  neutral (drawCityLights random progress accent).
Proof. unfold drawCityLights. balance. Qed.

Lemma neutral_drawForestCanopy progress accent :
  neutral (drawForestCanopy progress accent).
Proof. unfold drawForestCanopy. balance. Qed.

Lemma neutral_drawDesert progress accent :
  neutral (drawDesert progress accent).
Proof. unfold drawDesert. balance. Qed.

Lemma neutral_drawSea progress accent : neutral (drawSea progress accent).
Proof. unfold drawSea. balance. Qed.

Lemma neutral_drawStarscape progress accent :
  neutral (drawStarscape progress accent).
Proof. unfold drawStarscape. balance. Qed.

Lemma neutral_drawIllustration random scene sp :
  neutral (drawIllustration random scene sp).
Proof.
  unfold drawIllustration. destruct (illustration scene).
  - apply neutral_drawSunrise.
  - apply neutral_drawCityLights.
  - apply neutral_drawForestCanopy.
  - apply neutral_drawDesert.
  - apply neutral_drawSea.
  - apply neutral_drawStarscape.
  - apply neutral_ret.
Qed.

Lemma neutral_wrapText text x startY maxWidth lineHeight :
  neutral (wrapText text x startY maxWidth lineHeight).
Proof.
  intro p.
  destruct (wrapText_log text x startY maxWidth lineHeight p)
    as (L & F & S & _).
  split; [eexists; exact L|]. split; assumption.
Qed.

Lemma neutral_drawTitleCard scene sp : neutral (drawTitleCard scene sp).
Proof.
  unfold drawTitleCard. cbv zeta.
  repeat
    lazymatch goal with
    | |- level (wrapText _ _ _ _ _) =>
        apply neutral_level, neutral_wrapText
    | |- _ => balance_step
    end.
Qed.
Lemma framed_open {B} c (k : unit -> Draw B) :
  (forall a, closing (k a)) ->
  forall p,
    (exists cmds,
       log (snd (bind save (fun _ => bind (emit c) k) p))
       = log p ++ SaveState :: c :: cmds) /\
    font (snd (bind save (fun _ => bind (emit c) k) p)) = font p /\
    savedFonts (snd (bind save (fun _ => bind (emit c) k) p)) = savedFonts p.
Proof.
  intros Hk p. unfold bind, save, emit. cbn [fst snd log font savedFonts].
  match goal with
  | |- context [k tt ?q] =>
      destruct (Hk tt q (font p) (savedFonts p) eq_refl) as ((cmds & E) & S & F)
  end.
  cbn [log] in E. split; [|split; assumption].
  exists cmds. rewrite E, <- !app_assoc. reflexivity.
Qed.

(** X16. A frame begins by saving the context and clearing the whole canvas,
    and leaves the context as it found it: every [save] of the frame -- its
    own and those of the globe, the rings, the illustration and the title
    card -- is matched by a [restore], so the font is the one found,
    whatever the title card set, and no saved state is left on the stack or
    taken from it. *)
Theorem frame_leaves_context_as_found random scene sp gp p :
  let p' := snd (drawScene random (Some scene) sp gp p) in
  (exists cmds,
     log p' = log p ++ SaveState :: ClearRect 0 0 width height :: cmds) /\
  font p' = font p /\ savedFonts p' = savedFonts p.
Proof.
  cbv zeta.
  destruct (drawScene random (Some scene) sp gp p) as [b p1] eqn:E1.
  cbn [snd].
  unfold drawScene in E1. cbv zeta in E1.
  apply pair_eq_snd in E1. subst p1.
  match goal with
  | |- context [snd (bind save (fun _ => bind (emit ?c) ?k) p)] =>
      assert (Hk : forall a, closing (k a));
      [|exact (framed_open c k Hk p)]
  end.
  intros _.
  repeat
    lazymatch goal with
    | |- level (drawEarth _ _ _) => apply neutral_level, neutral_drawEarth
    | |- level (drawAtmosphericRings _ _) =>
        apply neutral_level, neutral_drawAtmosphericRings
    | |- level (drawIllustration _ _ _) =>
        apply neutral_level, neutral_drawIllustration
    | |- level (drawTitleCard _ _) =>
        apply neutral_level, neutral_drawTitleCard
    | |- _ => balance_step
    end.
Qed.

(* ------------------------------------------------------------------------- *)
(** ** Random numbers drawn *)

(** A drawing computation that reads [Math.random] a fixed number of
    times. *)
Definition draws {A} (m : Draw A) (n : nat) : Prop :=
  forall p, randomDraws (snd (m p)) = (randomDraws p + n)%nat.

Lemma draws_ret {A} (a : A) : draws (ret a) 0.
Proof. intro p. cbn. lia. Qed.

Lemma draws_emit c : draws (emit c) 0.
Proof. intro p. cbn. lia. Qed.

Lemma draws_save : draws save 0.
Proof. intro p. cbn. lia. Qed.

Lemma draws_restore : draws restore 0.
Proof. intro p. cbn. lia. Qed.

Lemma draws_Math_random source : draws (Math_random source) 1.
Proof. intro p. cbn. lia. Qed.

Lemma draws_steady {A} (m : Draw A) : steady m -> draws m 0.
Proof.
  intros H p. destruct (H p p (same_canvas_refl p)) as (_ & _ & R).
  rewrite R. lia.
Qed.

Lemma draws_bind {A B} (m : Draw A) (k : A -> Draw B) a b :
  draws m a -> (forall x, draws (k x) b) -> draws (bind m k) (a + b).
Proof.
  intros Hm Hk p. unfold bind. specialize (Hm p).
  destruct (m p) as [x p1]. cbn [snd] in Hm. rewrite (Hk x p1), Hm. lia.
Qed.

Lemma draws_for_count n body b :
  (forall i, draws (body i) b) ->
  forall i, draws (for_count n i body) (n * b).
Proof.
  intro Hb. induction n as [|n IH]; intro i; cbn [for_count].
  - apply draws_ret.
  - exact (draws_bind _ _ b (n * b) (Hb i) (fun _ => IH (S i))).
Qed.

Lemma draws_for_upto n body b :
  (forall i, draws (body i) b) -> draws (for_upto n body) (n * b).
Proof. intro Hb. apply draws_for_count. exact Hb. Qed.

Ltac count_step :=
  lazymatch goal with
  | |- draws (bind _ _) _ => eapply draws_bind; [|intros ?]
  | |- draws (for_upto _ _) _ => eapply draws_for_upto; intros ?
  | |- draws (ret _) _ => apply draws_ret
  | |- draws (emit _) _ => apply draws_emit
  | |- draws save _ => apply draws_save
  | |- draws restore _ => apply draws_restore
  | |- draws (Math_random _) _ => apply draws_Math_random
  | |- draws (if ?c then _ else _) _ => destruct c
  end.

Lemma drawCityLights_draws random progress accent :
  draws (drawCityLights random progress accent) 88.
Proof.
  assert (H : exists n, draws (drawCityLights random progress accent) n /\
                        n = 88%nat).
  { unfold drawCityLights. cbv zeta. eexists. split.
    - repeat count_step.
    - reflexivity. }
  destruct H as (n & H & ->). exact H.
Qed.
(** X17. A frame of a scene illustrated by the city lights reads
    [Math.random] exactly 88 times, once for each of the 22 buildings of
    each of the 4 layers, whatever the numbers read; the numbers only decide
    which buildings get a lit window. *)
Theorem city_frame_reads_88_numbers random scene sp gp p :
  illustration scene = cities ->
  randomDraws (snd (drawScene random (Some scene) sp gp p))
  = (randomDraws p + 88)%nat.
Proof.
  intro Hill.
  destruct (drawScene random (Some scene) sp gp p) as [b p1] eqn:E1.
  cbn [snd].
  unfold drawScene in E1. cbv zeta in E1.
  apply pair_eq_snd in E1. subst p1.
  match goal with
  | |- randomDraws (snd (?body p)) = _ =>
      assert (H : exists n, draws body n /\ n = 88%nat)
  end.
  { eexists. split.
    - repeat
        lazymatch goal with
        | |- draws (drawEarth _ _ _) _ =>
            apply draws_steady, steady_drawEarth
        | |- draws (drawAtmosphericRings _ _) _ =>
            apply draws_steady, steady_drawAtmosphericRings
        | |- draws (drawTitleCard _ _) _ =>
            apply draws_steady, steady_drawTitleCard
        | |- draws (drawIllustration _ _ _) _ =>
            unfold drawIllustration; rewrite Hill;
            apply drawCityLights_draws
        | |- _ => count_step
        end.
    - reflexivity. }
  destruct H as (n & H & ->). exact (H p).
Qed.
(* ========================================================================= *)
(** * What the wrap keeps *)

Lemma append_empty_r (s : string) : (s ++ "")%string = s.
Proof. induction s as [|c s IH]; simpl; [reflexivity|]. rewrite IH. reflexivity. Qed.

Lemma append_assoc_string (a b c : string) :
  ((a ++ b) ++ c)%string = (a ++ b ++ c)%string.
Proof.
  induction a as [|x a IH]; simpl; [reflexivity|]. rewrite IH. reflexivity.
Qed.

(** The words, each followed by one space. *)
Definition spaced (words : list string) : string :=
  fold_right (fun word rest => (word ++ " " ++ rest)%string) ""%string words.

Lemma split_on_nonempty sep text : split_on sep text <> [].
Proof.
  destruct text as [|c rest]; simpl; [discriminate|].
  destruct (Ascii.eqb c sep); [discriminate|].
  destruct (split_on sep rest); discriminate.
Qed.

Lemma spaced_split text :
  spaced (split_on space text) = (text ++ " ")%string.
Proof.
  induction text as [|c rest IH]; [reflexivity|].
  cbn [split_on]. destruct (Ascii.eqb c space) eqn:E.
  - apply Ascii.eqb_eq in E. subst c. cbn [spaced fold_right].
    fold (spaced (split_on space rest)). rewrite IH. reflexivity.
  - destruct (split_on space rest) as [|w ws] eqn:Es.
    + exfalso. exact (split_on_nonempty space rest Es).
    + change (spaced (String c w :: ws))
        with (String c (spaced (w :: ws))).
      rewrite IH. reflexivity.
Qed.

(** The lines in order, end to end, the last one as it is before the trim. *)
Definition end_to_end (lines : list (string * Q)) (tail : string) : string :=
  fold_right (fun line rest => (fst line ++ rest)%string) tail lines.

Lemma wrap_lines_keeps measure maxWidth lineHeight words :
  forall line y,
  exists lines tail y',
    wrap_lines measure maxWidth lineHeight line y words
    = lines ++ [(trim tail, y')] /\
    end_to_end lines tail = (line ++ spaced words)%string.
Proof.
  induction words as [|word rest IH]; intros line y.
  - exists [], line, y. split; [reflexivity|].
    simpl. rewrite append_empty_r. reflexivity.
  - cbn [wrap_lines]. cbv zeta.
    destruct (Qltb maxWidth (measure (line ++ word ++ " ")%string)
              && negb (is_empty line))%bool.
    + destruct (IH (word ++ " ")%string (y + lineHeight))
        as (lines & tail & y' & E & K).
      exists ((line, y) :: lines), tail, y'. split.
      * rewrite E. reflexivity.
      * cbn [end_to_end fold_right fst]. fold (end_to_end lines tail).
        rewrite K. cbn [spaced fold_right]. fold (spaced rest).
        rewrite append_assoc_string. reflexivity.
    + destruct (IH (line ++ word ++ " ")%string y)
        as (lines & tail & y' & E & K).
      exists lines, tail, y'. split; [exact E|].
      rewrite K. cbn [spaced fold_right]. fold (spaced rest).
      rewrite !append_assoc_string. reflexivity.
Qed.

(** X18. Wrapping loses nothing, adds nothing and reorders nothing: the
    lines drawn, end to end and the last one taken before it is trimmed,
    spell the text followed by one space. *)
Theorem wrap_keeps_the_text text x startY maxWidth lineHeight p :
  exists lines tail y,
    log (snd (wrapText text x startY maxWidth lineHeight p))
    = log p ++ map (text_at x) (lines ++ [(trim tail, y)]) /\
    end_to_end lines tail = (text ++ " ")%string.
Proof.
  destruct (wrapText_log text x startY maxWidth lineHeight p) as (L & _).
  destruct (wrap_lines_keeps (measureText (font p)) maxWidth lineHeight
              (split_on space text) ""%string startY)
    as (lines & tail & y & E & K).
  exists lines, tail, y. rewrite L, E. split; [reflexivity|].
  rewrite K, spaced_split. reflexivity.
Qed.

(** A line being built is empty, or holds one word and its space, or fits
    the column. *)
Definition fitting (measure : string -> Q) (maxWidth : Q)
  (words : list string) (line : string) : Prop :=
  measure line <= maxWidth \/
  exists word, In word words /\ line = (word ++ " ")%string.

Lemma num_succ (k : nat) : num (S k) == num k + 1.
Proof.
  unfold num. rewrite Nat2Z.inj_succ. unfold Z.succ.
  rewrite inject_Z_plus. reflexivity.
Qed.

Lemma wrap_lines_shape measure maxWidth lineHeight all words :
  incl words all ->
  forall line y,
    line = ""%string \/ fitting measure maxWidth all line ->
    exists lines tail y',
      wrap_lines measure maxWidth lineHeight line y words
      = lines ++ [(trim tail, y')] /\
      (forall t ty, In (t, ty) lines ->
         t <> ""%string /\ fitting measure maxWidth all t) /\
      (fitting measure maxWidth all line \/ words <> [] ->
       fitting measure maxWidth all tail) /\
      (List.length lines <= List.length words)%nat /\
      (line = ""%string -> words <> [] ->
       (List.length lines < List.length words)%nat) /\
      (forall k t ty,
         nth_error (lines ++ [(trim tail, y')]) k = Some (t, ty) ->
         ty == y + num k * lineHeight).
Proof.
  induction words as [|word rest IH]; intros Hin line y Hline.
  - exists [], line, y. split; [reflexivity|].
    split; [intros t ty []|].
    split; [intros [H|H]; [exact H|congruence]|].
    split; [simpl; lia|]. split; [intros _ H; congruence|].
    intros [|k] t ty H; simpl in H.
    + injection H as _ <-. unfold num. simpl. ring.
    + destruct k; discriminate.
  - assert (Hrest : incl rest all)
      by (intros w Hw; apply Hin; right; exact Hw).
    assert (Hword : In word all) by (apply Hin; left; reflexivity).
    cbn [wrap_lines]. cbv zeta.
    destruct (Qltb maxWidth (measure (line ++ word ++ " ")%string)) eqn:Ew;
      destruct (is_empty line) eqn:El; cbn [andb negb].
    + (* too wide, but the line is empty: the word opens it *)
      destruct line; [|discriminate]. cbn [append].
      assert (Hw : fitting measure maxWidth all (word ++ " ")%string)
        by (right; exists word; split; [exact Hword|reflexivity]).
      destruct (IH Hrest (word ++ " ")%string y (or_intror Hw))
        as (lines & tail & y' & E & F & T & C & _ & Y).
      exists lines, tail, y'. split; [exact E|]. split; [exact F|].
      split; [intros _; exact (T (or_introl Hw))|]. split; [simpl; lia|].
      split; [intros _ _; simpl; lia|exact Y].
    + (* too wide: the line is committed, the word opens the next one *)
      assert (Hw : fitting measure maxWidth all (word ++ " ")%string)
        by (right; exists word; split; [exact Hword|reflexivity]).
      destruct (IH Hrest (word ++ " ")%string (y + lineHeight)
                  (or_intror Hw))
        as (lines & tail & y' & E & F & T & C & _ & Y).
      exists ((line, y) :: lines), tail, y'. split; [rewrite E; reflexivity|].
      split; [|split; [intros _; exact (T (or_introl Hw))|]].
      * intros t ty [[= <- <-]|H]; [|exact (F t ty H)].
        destruct Hline as [->|Hfit]; [discriminate|].
        split; [|exact Hfit]. intros ->. discriminate.
      * split; [simpl; lia|]. split; [intros ->; discriminate|].
        intros [|k] t ty H; simpl in H.
        -- injection H as _ <-. unfold num. simpl. ring.
        -- rewrite (Y k t ty H), num_succ. ring.
    + (* the candidate fits *)
      apply Qltb_false in Ew.
      destruct (IH Hrest (line ++ word ++ " ")%string y
                  (or_intror (or_introl Ew)))
        as (lines & tail & y' & E & F & T & C & _ & Y).
      exists lines, tail, y'. split; [exact E|]. split; [exact F|].
      split; [intros _; exact (T (or_introl (or_introl Ew)))|].
      split; [simpl; lia|].
      split; [intros _ _; simpl; lia|exact Y].
    + apply Qltb_false in Ew.
      destruct (IH Hrest (line ++ word ++ " ")%string y
                  (or_intror (or_introl Ew)))
        as (lines & tail & y' & E & F & T & C & _ & Y).
      exists lines, tail, y'. split; [exact E|]. split; [exact F|].
      split; [intros _; exact (T (or_introl (or_introl Ew)))|].
      split; [simpl; lia|].
      split; [intros _ _; simpl; lia|exact Y].
Qed.

(** X19. Every line the wrap commits holds text, and either fits the column
    or holds a single word with its space -- the only way a line can be
    wider than the column; the same holds for the last line before its trim.
    The measure is the one of the font in force when the wrap starts. *)
Theorem committed_lines_fit text x startY maxWidth lineHeight p :
  exists lines tail y,
    log (snd (wrapText text x startY maxWidth lineHeight p))
    = log p ++ map (text_at x) (lines ++ [(trim tail, y)]) /\
    (forall t ty, In (t, ty) lines ->
       t <> ""%string /\
       fitting (measureText (font p)) maxWidth (split_on space text) t) /\
    fitting (measureText (font p)) maxWidth (split_on space text) tail.
Proof.
  destruct (wrapText_log text x startY maxWidth lineHeight p) as (L & _).
  destruct (wrap_lines_shape (measureText (font p)) maxWidth lineHeight
              (split_on space text) (split_on space text)
              (incl_refl _) ""%string startY (or_introl eq_refl))
    as (lines & tail & y & E & F & T & _).
  exists lines, tail, y. rewrite L, E. split; [reflexivity|].
  split; [exact F|].
  apply T. right. apply split_on_nonempty.
Qed.

(** X20. The wrap never draws more lines than the text has words, and draws
    line [k] at [startY + k * lineHeight]. *)
Theorem wrap_lines_count_and_baselines text x startY maxWidth lineHeight p :
  exists lines,
    log (snd (wrapText text x startY maxWidth lineHeight p))
    = log p ++ map (text_at x) lines /\
    (1 <= List.length lines <= List.length (split_on space text))%nat /\
    (forall k t y,
       nth_error lines k = Some (t, y) -> y == startY + num k * lineHeight).
Proof.
  destruct (wrapText_log text x startY maxWidth lineHeight p) as (L & _).
  destruct (wrap_lines_shape (measureText (font p)) maxWidth lineHeight
              (split_on space text) (split_on space text)
              (incl_refl _) ""%string startY (or_introl eq_refl))
    as (lines & tail & y & E & _ & _ & _ & C & Y).
  exists (lines ++ [(trim tail, y)]). rewrite L, E.
  split; [reflexivity|]. split; [|exact Y].
  specialize (C eq_refl (split_on_nonempty space text)).
  rewrite length_app. simpl. lia.
Qed.

End Studio.

(* ========================================================================= *)
(** * Instances *)

Local Open Scope list_scope.

(** A host to run the engine on: sine and cosine read 0, powers read 1, and
    text is measured at 12 units a character whatever the font. *)
Definition still (x : Q) : Q := 0.
Definition still_pow (x y : Q) : Q := 1.
Definition monospace (font text : string) : Q := num (String.length text) * 12.

Lemma sample_catalog_positive : durations_positive sample_catalog.
Proof.
  intros sc [<-|[<-|[<-|[]]]]; reflexivity.
Qed.



Definition capturing_recorder : MediaRecorder :=
  {| input := 0; rec_state := recording; onstop := None;
     stop_queued := false |}.




Lemma stop_without_session_witness :
  session_absent initial /\ stopRecorder true initial = (Resolved, initial).
Proof.
  split; [left; reflexivity|].
  exact (proj1 (stop_without_session_is_noop true initial
                  (or_introl eq_refl))).
Defined.

Lemma compositor_witness :
  illustration (sample_scene "dawn" 4 sunrise "the sun climbs") <> cities /\
  same_canvas
    (snd (drawScene still still still_pow monospace (fun _ => 0)
            (Some (sample_scene "dawn" 4 sunrise "the sun climbs"))
            (1 # 2) (1 # 4) fresh_surface))
    (snd (drawScene still still still_pow monospace (fun _ => 1)
            (Some (sample_scene "dawn" 4 sunrise "the sun climbs"))
            (1 # 2) (1 # 4) fresh_surface)).
Proof.
  split; [discriminate|].
  refine (proj1 (proj1 (compositor_deterministic still still still_pow
                          monospace)
                   (sample_scene "dawn" 4 sunrise "the sun climbs")
                   (1 # 2) (1 # 4) (fun _ => 0) (fun _ => 1)
                   fresh_surface fresh_surface _ _)).
  - discriminate.
  - repeat split.
Defined.

Lemma title_card_witness :
  "a " <> ""%string /\
  wrap_lines (monospace "400 24px var(--font-arabic)")
    (width * 0.24) 30 "a " 250 ["b"; "c"]
  = if Qltb (width * 0.24)
         (monospace "400 24px var(--font-arabic)" "a b ")
    then ("a ", 250)
           :: wrap_lines (monospace "400 24px var(--font-arabic)")
                (width * 0.24) 30 "b " (250 + 30) ["c"]
    else wrap_lines (monospace "400 24px var(--font-arabic)")
           (width * 0.24) 30 "a b " 250 ["c"].
Proof.
  split; [discriminate|].
  destruct (title_card_layout still monospace
              (sample_scene "dawn" 4 sunrise "the sun climbs") (1 # 2)
              fresh_surface)
    as (_ & _ & _ & _ & Hstep).
  apply Hstep. discriminate.
Defined.

(** C8 as stated fails on a description whose first word is wider than the
    column: the code keeps the word on the first line and commits nothing
    at that point, where the wrap as stated commits the empty line first. *)
Lemma first_word_wider_than_column :
  let text := "pneumonoultramicroscopicsilicovolcanoconiosis" in
  let column := width * 0.24 in
  Qltb column (monospace "10px sans-serif" (text ++ " ")%string) = true /\
  texts (log (snd (wrapText monospace text 819.2 250 column 30 fresh_surface)))
  = [text] /\
  map fst
    (wrap_lines_as_stated (monospace "10px sans-serif") column 30 "" 250
       (split_on space text))
  = [""%string; text] /\
  map (text_at 819.2)
    (wrap_lines_as_stated (monospace "10px sans-serif") column 30 "" 250
       (split_on space text))
  <> log (snd (wrapText monospace text 819.2 250 column 30 fresh_surface)).
Proof.
  cbv zeta. repeat split; try (vm_compute; reflexivity).
  vm_compute. discriminate.
Qed.

(** The city lights are a real exception: two random streams give two
    different frames. *)
Lemma city_lights_vary :
  List.length
    (log (snd (drawCityLights still (fun _ => 0) 0 "#fff" fresh_surface)))
  <> List.length
       (log (snd (drawCityLights still (fun _ => 1) 0 "#fff" fresh_surface))).
Proof. vm_compute. discriminate. Qed.

(* ------------------------------------------------------------------------- *)
(** ** States reached on the sample catalog *)

Definition studio_run (env : Env) (events : list Event) : Engine :=
  run still still still_pow monospace env events
    (mount still still still_pow monospace env initial).

Lemma studio_run_reachable env events :
  reachable still still still_pow monospace env (studio_run env events).
Proof. apply reachable_run, reach_mount. Qed.

(** A preview 4500 ms in: scene 1 indicated, one frame requested. *)
Definition preview_running : Engine :=
  studio_run (browser sample_catalog)
    [ClickPreview; AnimationFrame 0 0; AnimationFrame 1 4500].

(** A recording after its first tick: recorder 0 records stream 0. *)
Definition recording_running : Engine :=
  studio_run (browser sample_catalog) [ClickGenerate; AnimationFrame 0 0].

(** A recording that ran to the end: the page shows URL 0. *)
Definition recorded : Engine :=
  studio_run (browser sample_catalog)
    [ClickGenerate; AnimationFrame 0 0; AnimationFrame 1 12000;
     RecorderStopped 0].

Lemma preview_running_facts :
  playbackState preview_running = playing /\
  activeScene preview_running = 1%nat /\
  frameRequests preview_running = [(2%nat, 0%nat)].
Proof. repeat split; lazy; reflexivity. Qed.

Lemma recording_running_facts :
  playbackState recording_running = rendering /\
  session_live recording_running 0 capturing_recorder /\
  recorder_running recording_running = true.
Proof.
  split; [lazy; reflexivity|]. split; [|lazy; reflexivity].
  split; [lazy; reflexivity|]. split; [lazy; reflexivity|discriminate].
Qed.

Lemma recorded_facts :
  playbackState recorded = completed /\ videoUrl recorded = Some 0%nat /\
  map fst (objectUrls recorded) = [0%nat].
Proof. repeat split; lazy; reflexivity. Qed.

(** A browser whose canvas yields no stream, and a page whose canvas is not
    mounted. *)
Definition browser_without_capture (catalog : list SceneCue) : Env :=
  {| scenes := catalog; canvasMounted := true; context2d := true;
     windowDefined := true; hasMediaRecorder := true; captureYields := false;
     recorderConstructs := true; entropy := fun _ => 0 |}.

Definition page_without_canvas (catalog : list SceneCue) : Env :=
  {| scenes := catalog; canvasMounted := false; context2d := true;
     windowDefined := true; hasMediaRecorder := true; captureYields := true;
     recorderConstructs := true; entropy := fun _ => 0 |}.

(** ** Instances of the further properties *)

Lemma preview_start_witness :
  canvasMounted (browser sample_catalog) = true /\
  context2d (browser sample_catalog) = true /\
  playbackState (startPlayback (browser sample_catalog) false recorded)
  = playing /\
  videoUrl (startPlayback (browser sample_catalog) false recorded) = None.
Proof.
  split; [reflexivity|]. split; [reflexivity|].
  destruct (preview_start (browser sample_catalog) recorded eq_refl eq_refl)
    as (H1 & _ & H3 & _).
  split; [exact H1|exact H3].
Defined.

Lemma recording_start_witness :
  canvasMounted (browser sample_catalog) = true /\
  recorderConstructs (browser sample_catalog) = true /\
  playbackState (startPlayback (browser sample_catalog) true recorded)
  = rendering /\
  recorderRef (startPlayback (browser sample_catalog) true recorded)
  = Some (List.length (recorders recorded)).
Proof.
  split; [reflexivity|]. split; [reflexivity|].
  destruct (recording_start (browser sample_catalog) recorded
              eq_refl eq_refl eq_refl eq_refl eq_refl eq_refl)
    as (H1 & _ & _ & H4 & _).
  split; [exact H1|exact H4].
Defined.

Lemma capture_refused_witness :
  captureYields (browser_without_capture sample_catalog) = false /\
  playbackState
    (startPlayback (browser_without_capture sample_catalog) true recorded)
  = playbackState recorded /\
  videoUrl
    (startPlayback (browser_without_capture sample_catalog) true recorded)
  = None.
Proof.
  split; [reflexivity|].
  destruct (capture_refused_silently
              (browser_without_capture sample_catalog) recorded
              eq_refl eq_refl (or_intror (conj eq_refl eq_refl)))
    as (H1 & _ & _ & H4 & _).
  split; [exact H1|exact H4].
Defined.


Lemma stop_collects_witness :
  session_live recording_running 0 capturing_recorder /\
  playbackState recording_running = rendering /\
  kept [Some {| size := 3 |}; Some {| size := 0 |}; None]
  = [{| size := 3 |}] /\
  In (urlCounter recording_running,
      recordedChunksRef recording_running
      ++ kept [Some {| size := 3 |}; Some {| size := 0 |}; None]
      ++ kept [Some {| size := 2 |}])
     (objectUrls
        (dispatch still still still_pow monospace (browser sample_catalog)
           (RecorderStopped 0)
           (run still still still_pow monospace (browser sample_catalog)
              (map (DataAvailable 0) [Some {| size := 2 |}])
              (dispatch still still still_pow monospace
                 (browser sample_catalog) ClickStop
                 (run still still still_pow monospace
                    (browser sample_catalog)
                    (map (DataAvailable 0)
                       [Some {| size := 3 |}; Some {| size := 0 |}; None])
                    recording_running))))).
Proof.
  destruct recording_running_facts as (Hp & Hl & _).
  split; [exact Hl|]. split; [exact Hp|]. split; [reflexivity|].
  exact (proj1 (proj2 (proj2 (proj2 (proj2
           (stop_collects_chunks still still still_pow monospace
              (browser sample_catalog) recording_running 0%nat
              capturing_recorder
              [Some {| size := 3 |}; Some {| size := 0 |}; None]
              [Some {| size := 2 |}] Hl Hp)))))).
Defined.

Lemma single_frame_loop_witness :
  reachable still still still_pow monospace (browser sample_catalog)
    preview_running /\
  frameRequests preview_running = [(2%nat, 0%nat)] /\
  (List.length (frameRequests preview_running) <= 1)%nat /\
  frameRequests (startPlayback (browser sample_catalog) false preview_running)
  = [(frameCounter preview_running, activeScene preview_running)].
Proof.
  split; [apply studio_run_reachable|].
  split; [exact (proj2 (proj2 preview_running_facts))|].
  destruct (single_frame_loop still still still_pow monospace
              (browser sample_catalog) preview_running
              (studio_run_reachable _ _)) as (H1 & _ & H3).
  split; [exact H1|exact (H3 eq_refl eq_refl)].
Defined.

Lemma stop_halts_loop_witness :
  reachable still still still_pow monospace (browser sample_catalog)
    preview_running /\
  playbackState preview_running <> idle /\
  frameRequests
    (dispatch still still still_pow monospace (browser sample_catalog)
       ClickStop preview_running) = [].
Proof.
  assert (H : playbackState preview_running <> idle).
  { rewrite (proj1 preview_running_facts). discriminate. }
  split; [apply studio_run_reachable|]. split; [exact H|].
  exact (proj1 (proj2 (stop_halts_loop still still still_pow monospace
                         (browser sample_catalog) preview_running
                         (studio_run_reachable _ _) H))).
Defined.

Lemma session_refs_paired_witness :
  reachable still still still_pow monospace (browser sample_catalog)
    recording_running /\
  recorderRef recording_running = Some 0%nat /\
  exists rec,
    recorder_at recording_running 0 = Some rec /\
    streamRef recording_running = Some (input rec) /\
    (input rec < List.length (streams recording_running))%nat.
Proof.
  split; [apply studio_run_reachable|].
  assert (Hr : recorderRef recording_running = Some 0%nat)
    by exact (proj1 (proj1 (proj2 recording_running_facts))).
  split; [exact Hr|].
  exact (proj2 (session_refs_paired still still still_pow monospace
                  (browser sample_catalog) recording_running
                  (studio_run_reachable _ _)) 0%nat Hr).
Defined.

Lemma recorder_runs_witness :
  reachable still still still_pow monospace (browser sample_catalog)
    recording_running /\
  recorder_running recording_running = true /\
  playbackState recording_running = rendering.
Proof.
  split; [apply studio_run_reachable|].
  split; [exact (proj2 (proj2 recording_running_facts))|].
  exact (recorder_runs_only_while_rendering still still still_pow monospace
           (browser sample_catalog) recording_running
           (studio_run_reachable _ _)
           (proj2 (proj2 recording_running_facts))).
Defined.

Lemma active_scene_witness :
  scenes (browser sample_catalog) <> [] /\
  reachable still still still_pow monospace (browser sample_catalog)
    preview_running /\
  exists scene,
    nth_error (scenes (browser sample_catalog)) (activeScene preview_running)
    = Some scene.
Proof.
  assert (H : scenes (browser sample_catalog) <> []) by discriminate.
  split; [exact H|]. split; [apply studio_run_reachable|].
  exact (active_scene_in_catalog still still still_pow monospace
           (browser sample_catalog) preview_running H
           (studio_run_reachable _ _)).
Defined.

Lemma without_canvas_witness :
  canvasMounted (page_without_canvas sample_catalog) = false /\
  studio_run (page_without_canvas sample_catalog)
    [ClickGenerate; ClickStop; ClickPreview; AnimationFrame 0 0]
  = initial.
Proof.
  split; [reflexivity|].
  exact (without_canvas_nothing_happens still still still_pow monospace
           (page_without_canvas sample_catalog) _ (or_introl eq_refl)
           (studio_run_reachable _ _)).
Defined.

Lemma unmount_leaves_no_url_witness :
  reachable still still still_pow monospace (browser sample_catalog)
    recorded /\
  map fst (objectUrls recorded) = [0%nat] /\
  objectUrls (teardown recorded) = [].
Proof.
  split; [apply studio_run_reachable|].
  split; [exact (proj2 (proj2 recorded_facts))|].
  exact (proj1 (unmount_leaves_no_url still still still_pow monospace
                  (browser sample_catalog) recorded
                  (studio_run_reachable _ _))).
Defined.

Lemma active_segment_witness :
  0 <= 5000 /\ 5000 < totalDurationMs sample_catalog /\
  exists start finish,
    nth_error (checkpoints sample_catalog) (snd (locate sample_catalog 5000))
    = Some (start, finish) /\
    fst (locate sample_catalog 5000) = start /\ start <= 5000 /\
    5000 < finish.
Proof.
  assert (H0 : 0 <= 5000) by (unfold Qle; simpl; lia).
  assert (H1 : 5000 < totalDurationMs sample_catalog) by reflexivity.
  split; [exact H0|]. split; [exact H1|].
  exact (active_segment_contains_elapsed sample_catalog 5000 H0 H1).
Defined.

Lemma timeline_percentages_witness :
  durations_positive sample_catalog /\
  nth_error (checkpoints sample_catalog) 1
  = Some (0 + 4 * 1000, 0 + 4 * 1000 + 6 * 1000) /\
  (0 <= position (totalDurationMs sample_catalog) (0 + 4 * 1000) <= 100)%Z.
Proof.
  split; [exact sample_catalog_positive|]. split; [reflexivity|].
  exact (proj1 (timeline_percentages sample_catalog 1
                  (0 + 4 * 1000) (0 + 4 * 1000 + 6 * 1000)
                  sample_catalog_positive eq_refl)).
Defined.

Lemma city_frame_witness :
  illustration (sample_scene "night" 6 cities "cities light up") = cities /\
  randomDraws
    (snd (drawScene still still still_pow monospace (fun _ => 1)
            (Some (sample_scene "night" 6 cities "cities light up"))
            (1 # 2) (1 # 4) fresh_surface))
  = (randomDraws fresh_surface + 88)%nat.
Proof.
  split; [reflexivity|].
  exact (city_frame_reads_88_numbers still still still_pow monospace
           (fun _ => 1) (sample_scene "night" 6 cities "cities light up")
           (1 # 2) (1 # 4) fresh_surface eq_refl).
Defined.
